(** * Slide compositor and timed export pipeline (src/lib/slides.ts)

    A shallow embedding of the frame compositor ([easeInOutCubic],
    [renderWrappedText], [drawSlideFrame]), of the image prefetch
    ([loadImage]) and of the export orchestrator ([exportSlidesToVideo]).

    Conventions of the embedding.
    - A JavaScript [number] that carries a measure (seconds, pixels, a
      progress fraction) is a rational [Q]; the counters of the export loop,
      which only ever hold integers, are [Z].  The product that decides how
      many frames a slide gets, [slide.duration * FPS], is the product of
      doubles, rounded as IEEE 754 rounds it ([Num.mul]); the other
      operations, whose rounding moves a pixel position or a progress
      fraction by one unit in the last place and decides nothing, are exact.
      NaN and the infinities are outside the model.
    - A string is a [string] of 8-bit code units.
    - The drawing context is a log of the calls made on it, in order.
    - The host (window, MediaRecorder, image decoder, canvas) is a record of
      oracles, and the events the recorder fires while the export is
      suspended are given by a schedule. *)

From Stdlib Require Import ZArith QArith Qround Qpower Lia Lqa.
From Stdlib Require Import List Bool Ascii String Sorted Permutation.
Import ListNotations.

Local Open Scope Q_scope.

(** ** Numbers *)

Module Num.

(** [Math.round]: the nearest integer, ties towards plus infinity. *)
Definition round (x : Q) : Z := Qfloor (x + (1 # 2)).

(** [Math.floor]. *)
Definition floor (x : Q) : Z := Qfloor x.

(** *** Doubles

    A number of the program is an IEEE 754 binary64 value.  [toDouble x] is
    the double nearest to the real number [x], ties going to the even
    significand: what a numeric literal denotes, and what an arithmetic
    operation returns for the exact result [x].  Beyond the largest double
    the program has the infinities, which the model does not have. *)

(** [floor (log2 x)] for a positive [x]: the position of its leading bit. *)
Definition log2floor (x : Q) : Z :=
  let k := (Z.log2 (Qnum x) - Z.log2 (Zpos (Qden x)))%Z in
  if Qle_bool (2 ^ k) x then k else (k - 1)%Z.

(** The nearest integer, ties to the even one. *)
Definition roundEven (x : Q) : Z :=
  let f := Qfloor x in
  match Qcompare (x - inject_Z f) (1 # 2) with
  | Lt => f
  | Gt => (f + 1)%Z
  | Eq => if Z.even f then f else (f + 1)%Z
  end.

(** The exponent of the unit in the last place of the doubles around a
    positive [x]: 52 binary places below the leading bit, and never below
    [-1074], where the subnormal numbers are. *)
Definition ulpExponent (x : Q) : Z := Z.max (-1074) (log2floor x - 52).

Definition nearestDouble (x : Q) : Q :=
  inject_Z (roundEven (x / 2 ^ ulpExponent x)) * 2 ^ ulpExponent x.

Definition toDouble (x : Q) : Q :=
  match Qnum (Qred x) with
  | Z0 => 0
  | Zpos _ => Qred (nearestDouble (Qred x))
  | Zneg _ => Qred (- nearestDouble (- Qred x))
  end.

(** [a * b] on numbers. *)
Definition mul (a b : Q) : Q := toDouble (toDouble a * toDouble b).

(** [a > b] on numbers. *)
Definition gtb (a b : Q) : bool :=
  match a ?= b with Gt => true | _ => false end.

(** [a < b] on numbers. *)
Definition ltb (a b : Q) : bool :=
  match a ?= b with Lt => true | _ => false end.

(** [Math.max] and [Math.min] of two numbers. *)
Definition max (a b : Q) : Q := if ltb a b then b else a.
Definition min (a b : Q) : Q := if gtb a b then b else a.

(** [Math.pow] with a literal natural exponent. *)
Definition pow (x : Q) (n : positive) : Q := Qpower_positive x n.

End Num.

(** ** Constants of the module *)

Definition FPS : Z := 30.
Definition CANVAS_WIDTH : Q := 720.
Definition CANVAS_HEIGHT : Q := 1280.

(** ** The easing curve *)

Definition easeInOutCubic (t : Q) : Q :=
  if Num.ltb t (1 # 2)
  then 4 * t * t * t
  else 1 - Num.pow (-(2) * t + 2) 3 / 2.

(** ** Slide model *)

Inductive SlideAlignment : Type := AlignCenter | AlignTop | AlignBottom.

Record Slide : Type := mkSlide {
  id : string;
  title : string;
  subtitle : string;
  backgroundColor : string;
  textColor : string;
  accentColor : string;
  duration : Q;
  imageDataUrl : option string;
  alignment : SlideAlignment
}.

(** A decoded [HTMLImageElement]: its source and its intrinsic size. *)
Record HTMLImageElement : Type := mkImage {
  src : string;
  width : Q;
  height : Q
}.

(** ** Strings as the text wrapper uses them *)

Module Str.

Local Open Scope string_scope.

(** White space as [trim] and [trimEnd] see it, among the 8-bit code
    units: TAB, LF, VT, FF, CR, SPACE and NBSP. *)
Definition isWhite (c : ascii) : bool :=
  let n := nat_of_ascii c in
  ((9 <=? n)%nat && (n <=? 13)%nat) || (n =? 32)%nat || (n =? 160)%nat.

Definition space : ascii := " "%char.

(** [s.split(sep)] for a one-character separator: never empty, the empty
    string splits into one empty piece. *)
Fixpoint split (sep : ascii) (s : string) : list string :=
  match s with
  | EmptyString => [EmptyString]
  | String c rest =>
      if Ascii.eqb c sep then EmptyString :: split sep rest
      else match split sep rest with
           | w :: ws => String c w :: ws
           | [] => [String c EmptyString]
           end
  end.

Fixpoint trimStart (s : string) : string :=
  match s with
  | EmptyString => EmptyString
  | String c rest => if isWhite c then trimStart rest else s
  end.

Fixpoint trimEnd (s : string) : string :=
  match s with
  | EmptyString => EmptyString
  | String c rest =>
      match trimEnd rest with
      | EmptyString => if isWhite c then EmptyString else String c EmptyString
      | t => String c t
      end
  end.

Definition trim (s : string) : string := trimEnd (trimStart s).

(** [words.join(" ")], the inverse direction of [split]. *)
Fixpoint join (sep : ascii) (ws : list string) : string :=
  match ws with
  | [] => EmptyString
  | [w] => w
  | w :: rest => w ++ String sep (join sep rest)
  end.

(** No white space anywhere in the string. *)
Fixpoint solid (s : string) : bool :=
  match s with
  | EmptyString => true
  | String c rest => negb (isWhite c) && solid rest
  end.

End Str.

(** ** The drawing context, as the log of the calls made on it *)

Record Font : Type := mkFont {
  weight : Z;
  sizePx : Z;
  family : list string
}.

Definition fontFamily : list string :=
  ["Inter"; "Helvetica Neue"; "Arial"; "sans-serif"]%string.

Inductive CanvasCall : Type :=
| Save
| Restore
| SetFillStyle (style : string)
| FillRect (x y w h : Q)
| DrawImage (image : HTMLImageElement) (dx dy dw dh : Q)
| Translate (tx ty : Q)
| SetGlobalAlpha (alpha : Q)
| SetFont (font : Font)
| SetTextBaseline (baseline : string)
| FillText (text : string) (x y : Q).

(** ** Text layout *)

Section TextLayout.

(** [context.measureText(s).width] under the font in force. *)
Variable measure : string -> Q.
Variables (x maxWidth lineHeight : Q).

(** The body of the [for (const word of words)] loop, threading [line] and
    [currentY]; the calls are those made on the context. *)
Fixpoint wrapWords (words : list string) (line : string) (currentY : Q)
  : list CanvasCall * (string * Q) :=
  match words with
  | [] => ([], (line, currentY))
  | word :: rest =>
      let testLine := (line ++ word ++ " ")%string in
      if Num.gtb (measure testLine) maxWidth && negb (String.eqb line "")
      then
        let '(calls, st) :=
          wrapWords rest (word ++ " ")%string (currentY + lineHeight) in
        (FillText (Str.trimEnd line) x currentY :: calls, st)
      else wrapWords rest testLine currentY
  end.

Definition renderWrappedText (text : string) (y : Q) : list CanvasCall * Q :=
  let words := Str.split Str.space text in
  let '(calls, (line, currentY)) := wrapWords words ""%string y in
  let last :=
    if negb (String.eqb (Str.trim line) "")
    then [FillText (Str.trimEnd line) x currentY]
    else [] in
  (calls ++ last, currentY + lineHeight).

End TextLayout.

(** ** The frame compositor *)

Section Compositor.

(** [measureText] depends on the font set on the context. *)
Variable measureText : Font -> string -> Q.
(** [canvas.width] and [canvas.height]. *)
Variables (cw ch : Q).

Definition clamp01 (t : Q) : Q := Num.min (Num.max t 0) 1.

Definition drawImageCover (image : HTMLImageElement) : list CanvasCall :=
  let imageAspect := width image / height image in
  let canvasAspect := cw / ch in
  let '(renderWidth, renderHeight) :=
    if Num.gtb imageAspect canvasAspect
    then (imageAspect * ch, ch)
    else (cw, cw / imageAspect) in
  let offsetX := (cw - renderWidth) / 2 in
  let offsetY := (ch - renderHeight) / 2 in
  [ DrawImage image offsetX offsetY renderWidth renderHeight;
    SetFillStyle "rgba(0, 0, 0, 0.35)";
    FillRect 0 0 cw ch ].

Definition baseYOf (a : SlideAlignment) : Q :=
  let verticalPadding := ch * (12 # 100) in
  match a with
  | AlignTop => verticalPadding
  | AlignBottom => ch - verticalPadding * 3
  | AlignCenter => ch / 2 - verticalPadding
  end.

Definition titleFont : Font :=
  mkFont 700 (Num.floor (ch * (7 # 100))) fontFamily.
Definition subtitleFont : Font :=
  mkFont 400 (Num.floor (ch * (35 # 1000))) fontFamily.

(** The calls of one frame.  The source passes the title, or the empty string
    when the title is falsy: that is the title itself, a string being falsy
    only when it is empty already.  Likewise for the subtitle. *)
Definition drawSlideFrame (slide : Slide) (image : option HTMLImageElement)
           (frameProgress : Q) : list CanvasCall :=
  let eased := easeInOutCubic (clamp01 frameProgress) in
  let textAreaWidth := cw * (85 # 100) in
  let accentHeight := ch * (75 # 10000) in
  let baseY := baseYOf (alignment slide) in
  let translation := (1 - eased) * 60 in
  let accentWidth := cw * (28 # 100) * eased in
  let titleY := baseY + accentHeight + ch * (2 # 100) in
  let '(titleCalls, currentY) :=
    renderWrappedText (measureText titleFont) (cw * (75 # 1000))
      textAreaWidth (ch * (75 # 1000)) (title slide) titleY in
  let '(subtitleCalls, _) :=
    renderWrappedText (measureText subtitleFont) (cw * (75 # 1000))
      textAreaWidth (ch * (5 # 100)) (subtitle slide)
      (currentY + ch * (35 # 1000)) in
  [ Save; SetFillStyle (backgroundColor slide); FillRect 0 0 cw ch ]
  ++ match image with
     | Some img => drawImageCover img
     | None => []
     end
  ++ [ Save;
       Translate 0 translation;
       SetGlobalAlpha ((8 # 10) + (2 # 10) * eased);
       SetFillStyle (accentColor slide);
       FillRect (cw * (75 # 1000)) baseY (Num.max accentWidth 1) accentHeight;
       SetFillStyle (textColor slide);
       SetFont titleFont;
       SetTextBaseline "top" ]
  ++ titleCalls
  ++ [ SetFont subtitleFont ]
  ++ subtitleCalls
  ++ [ Restore; Restore ].

(** The accent bar of a frame: the arguments of the first [fillRect] made
    after the entrance translation. *)
Fixpoint afterTranslate (calls : list CanvasCall) : list CanvasCall :=
  match calls with
  | [] => []
  | Translate _ _ :: rest => rest
  | _ :: rest => afterTranslate rest
  end.

Fixpoint firstFillRect (calls : list CanvasCall) : option (Q * Q * Q * Q) :=
  match calls with
  | [] => None
  | FillRect x y w h :: _ => Some (x, y, w, h)
  | _ :: rest => firstFillRect rest
  end.

Definition accentBar (calls : list CanvasCall) : option (Q * Q * Q * Q) :=
  firstFillRect (afterTranslate calls).

End Compositor.

(** ** The export orchestrator *)

(** What a rejected export carries: an [Error] made by the module, with its
    message, or an exception object that came from the host. *)
Inductive Thrown : Type :=
| JsError (message : string)
| HostException (name : string).

Definition clientOnlyError : Thrown :=
  JsError "MediaRecorder is only available on the client.".
Definition unsupportedError : Thrown :=
  JsError "MediaRecorder is not supported in this browser. Try a recent Chromium-based browser.".
Definition noSlidesError : Thrown :=
  JsError "Add at least one slide before exporting.".
Definition noContextError : Thrown :=
  JsError "Unable to acquire canvas context.".
Definition recorderFailedError : Thrown :=
  JsError "MediaRecorder failed.".

(** A piece of encoded output handed over by [dataavailable]. *)
Record Chunk : Type := mkChunk { chunkId : nat; size : Z }.

Record Blob : Type := mkBlob { parts : list Chunk; type : string }.

(** The events a recorder fires.  An [error] event may lack the [error]
    property, or carry it empty. *)
Inductive ErrorPayload : Type :=
| NoErrorProp
| ErrorProp (error : option string).

Inductive SinkEvent : Type :=
| EvDataAvailable (data : option Chunk)
| EvError (payload : ErrorPayload)
| EvStop.

Record MediaRecorder : Type := mkRecorder {
  requested : option string;
  mimeType : string
}.

(** The host.  [sinkEvents n] are the recorder events dispatched while the
    loop sleeps after having captured [n] frames; [finalEvents] are those
    dispatched once the render task has returned. *)
Record Host : Type := mkHost {
  hasWindow : bool;
  hasMediaRecorder : bool;
  context2d : bool;
  isTypeSupported : option (string -> bool);
  newMediaRecorder : option string -> Thrown + MediaRecorder;
  decodeImage : string -> option HTMLImageElement;
  trackRequestFrame : bool;
  sinkEvents : Z -> list SinkEvent;
  finalEvents : list SinkEvent
}.

(** Everything the export does that the outside can observe, in order.
    [DrawFrame i slide image t] is the call
    [drawSlideFrame(context, canvas, slide, image, t)] made for the slide of
    index [i], on the canvas of [CANVAS_WIDTH] by [CANVAS_HEIGHT]. *)
Inductive Action : Type :=
| ProbeWindow
| ProbeMediaRecorder
| CreateCanvas (w h : Q)
| GetContext
| CaptureStream (fps : Q)
| ProbeType (mime : string)
| NewRecorder (request : option string)
| Warn (mime : string)
| SetImageSrc (dataUrl : string)
| RecorderStart
| DrawFrame (index : nat) (slide : Slide) (image : option HTMLImageElement)
            (progress : Q)
| RequestFrame
| OnProgress (value : Q)
| Sleep (ms : Q)
| RecorderStop
| CallResolve
| CallReject (reason : Thrown).

Inductive Settlement : Type :=
| Pending
| Resolved (snapshot : list Chunk)
| Rejected (reason : Thrown).

(** The state one export run mutates. *)
Record Run : Type := mkRun {
  log : list Action;
  promise : Settlement;
  chunks : list Chunk;
  recording : bool;
  capturedFrames : Z
}.

Definition initialRun : Run := mkRun [] Pending [] false 0.

(** *** State and exceptions *)

Definition M (A : Type) : Type := Run -> Run * (Thrown + A).

Definition ret {A} (a : A) : M A := fun r => (r, inr a).

Definition bind {A B} (m : M A) (k : A -> M B) : M B :=
  fun r =>
    match m r with
    | (r', inl e) => (r', inl e)
    | (r', inr a) => k a r'
    end.

Definition throw {A} (e : Thrown) : M A := fun r => (r, inl e).

Definition emit (a : Action) : M unit :=
  fun r => (mkRun (log r ++ [a]) (promise r) (chunks r) (recording r)
                  (capturedFrames r), inr tt).

Definition update (f : Run -> Run) : M unit := fun r => (f r, inr tt).

Definition gets {A} (f : Run -> A) : M A := fun r => (r, inr (f r)).

Declare Scope export_scope.
Delimit Scope export_scope with export.
Notation "x <- c1 ;; c2" := (bind c1 (fun x => c2))
  (at level 61, c1 at next level, right associativity) : export_scope.
Notation "c1 ;; c2" := (bind c1 (fun _ => c2))
  (at level 61, right associativity) : export_scope.
Local Open Scope export_scope.

Definition when (b : bool) (m : M unit) : M unit := if b then m else ret tt.

Fixpoint mapM {A B} (f : A -> M B) (l : list A) : M (list B) :=
  match l with
  | [] => ret []
  | a :: rest => b <- f a ;; bs <- mapM f rest ;; ret (b :: bs)
  end.

(** *** Settling the promise and the recorder's handlers *)

Definition setPromise (p : Settlement) (r : Run) : Run :=
  mkRun (log r) p (chunks r) (recording r) (capturedFrames r).

Definition setRecording (b : bool) (r : Run) : Run :=
  mkRun (log r) (promise r) (chunks r) b (capturedFrames r).

Definition pushChunk (c : Chunk) (r : Run) : Run :=
  mkRun (log r) (promise r) (chunks r ++ [c]) (recording r) (capturedFrames r).

Definition bumpCaptured (r : Run) : Run :=
  mkRun (log r) (promise r) (chunks r) (recording r) (capturedFrames r + 1).

(** [resolve()] and [reject(e)]: only the first call settles the promise.
    The function awaiting it builds the blob from the chunks gathered by
    then. *)
Definition resolve : M unit :=
  emit CallResolve ;;
  update (fun r => match promise r with
                   | Pending => setPromise (Resolved (chunks r)) r
                   | _ => r
                   end).

Definition reject (e : Thrown) : M unit :=
  emit (CallReject e) ;;
  update (fun r => match promise r with
                   | Pending => setPromise (Rejected e) r
                   | _ => r
                   end).

Definition onDataAvailable (data : option Chunk) : M unit :=
  match data with
  | Some c => when (0 <? size c)%Z (update (pushChunk c))
  | None => ret tt
  end.

Definition onError (payload : ErrorPayload) : M unit :=
  match payload with
  | ErrorProp (Some name) => reject (HostException name)
  | ErrorProp None => reject recorderFailedError
  | NoErrorProp => reject recorderFailedError
  end.

Definition onStop : M unit := resolve.

(** The host runs the listener of the event it fires; a [stop] event is
    fired by a recorder that has become inactive. *)
Definition dispatch (ev : SinkEvent) : M unit :=
  match ev with
  | EvDataAvailable data => onDataAvailable data
  | EvError payload => onError payload
  | EvStop => update (setRecording false) ;; onStop
  end.

Fixpoint dispatchAll (evs : list SinkEvent) : M unit :=
  match evs with
  | [] => ret tt
  | ev :: rest => dispatch ev ;; dispatchAll rest
  end.

Definition recorderStart : M unit :=
  emit RecorderStart ;; update (setRecording true).

Definition recorderStop : M unit :=
  emit RecorderStop ;; update (setRecording false).

(** *** Preparation *)

Definition ensureMediaRecorder (host : Host) : M unit :=
  emit ProbeWindow ;;
  (if hasWindow host then ret tt else throw clientOnlyError) ;;
  emit ProbeMediaRecorder ;;
  (if hasMediaRecorder host then ret tt else throw unsupportedError).

Definition mimeCandidates : list string :=
  ["video/webm;codecs=vp9"; "video/webm;codecs=vp8"; "video/webm"]%string.

(** The [for (const mime of mimeCandidates)] loop. *)
Fixpoint pickRecorder (host : Host) (candidates : list string)
  : M (option MediaRecorder) :=
  match candidates with
  | [] => ret None
  | mime :: rest =>
      skip <- match isTypeSupported host with
              | Some supported =>
                  emit (ProbeType mime) ;; ret (negb (supported mime))
              | None => ret false
              end ;;
      if skip then pickRecorder host rest
      else
        emit (NewRecorder (Some mime)) ;;
        match newMediaRecorder host (Some mime) with
        | inr recorder => ret (Some recorder)
        | inl _ => emit (Warn mime) ;; pickRecorder host rest
        end
  end.

Definition negotiateRecorder (host : Host) : M MediaRecorder :=
  picked <- pickRecorder host mimeCandidates ;;
  match picked with
  | Some recorder => ret recorder
  | None =>
      emit (NewRecorder None) ;;
      match newMediaRecorder host None with
      | inr recorder => ret recorder
      | inl e => throw e
      end
  end.

(** [Math.max(1, Math.round(slide.duration * FPS))]. *)
Definition frameCountOf (slide : Slide) : Z :=
  Z.max 1 (Num.round (Num.mul (duration slide) (inject_Z FPS))).

Definition totalFramesOf (slides : list Slide) : Z :=
  fold_left (fun acc slide => (acc + frameCountOf slide)%Z) slides 0%Z.

Definition frameProgressOf (frameCount frame : Z) : Q :=
  if (frameCount =? 1)%Z then 1
  else inject_Z frame / inject_Z (frameCount - 1).

(** *** Image prefetch *)

(** [!dataUrl] holds of an absent reference and of the empty string. *)
Definition loadImage (host : Host) (dataUrl : option string)
  : M (option HTMLImageElement) :=
  match dataUrl with
  | None => ret None
  | Some u =>
      if String.eqb u "" then ret None
      else emit (SetImageSrc u) ;; ret (decodeImage host u)
  end.

Definition prefetchImages (host : Host) (slides : list Slide)
  : M (list (option HTMLImageElement)) :=
  mapM (fun slide => loadImage host (imageDataUrl slide)) slides.

(** *** The render task *)

(** The optional progress callback; a callback may throw. *)
Definition ProgressCallback : Type := option (Q -> option Thrown).

Definition callProgress (onProgress : ProgressCallback) (value : Q) : M unit :=
  match onProgress with
  | None => ret tt
  | Some callback =>
      emit (OnProgress value) ;;
      match callback value with
      | None => ret tt
      | Some e => throw e
      end
  end.

Definition catch {A} (m : M A) (handler : Thrown -> M A) : M A :=
  fun r =>
    match m r with
    | (r', inl e) => handler e r'
    | done => done
    end.

Section Render.

Variable host : Host.
Variable onProgress : ProgressCallback.
Variable totalFrames : Z.
Variable images : list (option HTMLImageElement).

Definition sleepMs : Q := 1000 / inject_Z FPS.

(** One pass of the inner loop body, then the rest of the loop; [todo]
    counts the frames still to produce, [frameCount] of them at the start,
    since the loop runs while [frame < frameCount]. *)
Fixpoint frameLoop (index : nat) (slide : Slide)
         (image : option HTMLImageElement) (frameCount : Z)
         (todo : nat) (frame : Z) : M unit :=
  match todo with
  | O => ret tt
  | S todo' =>
      let progress := frameProgressOf frameCount frame in
      emit (DrawFrame index slide image progress) ;;
      when (trackRequestFrame host) (emit RequestFrame) ;;
      update bumpCaptured ;;
      captured <- gets capturedFrames ;;
      callProgress onProgress (inject_Z captured / inject_Z totalFrames) ;;
      emit (Sleep sleepMs) ;;
      dispatchAll (sinkEvents host captured) ;;
      frameLoop index slide image frameCount todo' (frame + 1)%Z
  end.

(** [images[index]]; past the end it is [undefined], which draws as no
    image. *)
Definition imageAt (index : nat) : option HTMLImageElement :=
  match nth_error images index with
  | Some image => image
  | None => None
  end.

Fixpoint slideLoop (index : nat) (slides : list Slide) : M unit :=
  match slides with
  | [] => ret tt
  | slide :: rest =>
      let frameCount := frameCountOf slide in
      frameLoop index slide (imageAt index) frameCount
                (Z.to_nat frameCount) 0%Z ;;
      slideLoop (S index) rest
  end.

Definition renderTask (slides : list Slide) : M unit :=
  catch (slideLoop 0 slides ;; recorderStop)
        (fun e => recorderStop ;; reject e).

End Render.

(** *** The export *)

Inductive Outcome : Type :=
| Fulfilled (blob : Blob)
| Failed (reason : Thrown)
| NeverSettles.

Definition blobType (recorder : MediaRecorder) : string :=
  if String.eqb (mimeType recorder) "" then "video/webm"%string
  else mimeType recorder.

Definition exportBody (host : Host) (slides : list Slide)
           (onProgress : ProgressCallback) : M MediaRecorder :=
  ensureMediaRecorder host ;;
  (if (List.length slides =? 0)%nat then throw noSlidesError else ret tt) ;;
  emit (CreateCanvas CANVAS_WIDTH CANVAS_HEIGHT) ;;
  emit GetContext ;;
  (if context2d host then ret tt else throw noContextError) ;;
  emit (CaptureStream (inject_Z FPS)) ;;
  recorder <- negotiateRecorder host ;;
  let totalFrames := totalFramesOf slides in
  images <- prefetchImages host slides ;;
  recorderStart ;;
  renderTask host onProgress totalFrames images slides ;;
  dispatchAll (finalEvents host) ;;
  ret recorder.

Definition exportSlidesToVideo (host : Host) (slides : list Slide)
           (onProgress : ProgressCallback) : list Action * Outcome :=
  match exportBody host slides onProgress initialRun with
  | (r, inl e) => (log r, Failed e)
  | (r, inr recorder) =>
      (log r,
       match promise r with
       | Resolved snapshot => Fulfilled (mkBlob snapshot (blobType recorder))
       | Rejected e => Failed e
       | Pending => NeverSettles
       end)
  end.

(** *** Reading a log *)

Fixpoint drawnFrames (l : list Action)
  : list (nat * Slide * option HTMLImageElement * Q) :=
  match l with
  | [] => []
  | DrawFrame i s im p :: rest => (i, s, im, p) :: drawnFrames rest
  | _ :: rest => drawnFrames rest
  end.

Fixpoint progressValues (l : list Action) : list Q :=
  match l with
  | [] => []
  | OnProgress v :: rest => v :: progressValues rest
  | _ :: rest => progressValues rest
  end.

(** Reports against frames: [Some true] while a drawn frame has not been
    reported yet, [Some false] once it has, [None] as soon as a report comes
    that no fresh frame stands behind. *)
Definition reportStep (st : option bool) (a : Action) : option bool :=
  match st, a with
  | None, _ => None
  | Some _, DrawFrame _ _ _ _ => Some true
  | Some true, OnProgress _ => Some false
  | Some false, OnProgress _ => None
  | Some b, _ => Some b
  end.

Definition reportState (l : list Action) : option bool :=
  fold_left reportStep l (Some false).

(** For each [reject] in a log, whether the export had started the recorder
    and not stopped it by then. *)
Fixpoint rejectsWhileRecording (active : bool) (l : list Action) : list bool :=
  match l with
  | [] => []
  | RecorderStart :: rest => rejectsWhileRecording true rest
  | RecorderStop :: rest => rejectsWhileRecording false rest
  | CallReject _ :: rest => active :: rejectsWhileRecording active rest
  | _ :: rest => rejectsWhileRecording active rest
  end.

(** The part of a log that follows the first [reject]. *)
Fixpoint afterReject (l : list Action) : list Action :=
  match l with
  | [] => []
  | CallReject _ :: rest => rest
  | _ :: rest => afterReject rest
  end.

(** ** Definitions used to state the properties *)

Definition charWidth (k : Q) (s : string) : Q :=
  k * inject_Z (Z.of_nat (String.length s)).

(** The line positions: [cursorAfter lh n y] is [y] advanced [n] times by
    the line height. *)
Fixpoint cursorAfter (lineHeight : Q) (n : nat) (y : Q) : Q :=
  match n with
  | O => y
  | S n' => cursorAfter lineHeight n' y + lineHeight
  end.

Fixpoint linesAt (x lineHeight : Q) (ws : list string) (y : Q)
  : list CanvasCall :=
  match ws with
  | [] => []
  | w :: rest => FillText w x y :: linesAt x lineHeight rest (y + lineHeight)
  end.

(** A word of the text-wrapping property: not empty, free of white space, and
    wider than half the line under the measurer [charWidth k]. *)
Definition wideWord (k maxWidth : Q) (w : string) : Prop :=
  w <> ""%string /\ Str.solid w = true /\ maxWidth / 2 < charWidth k w.

Definition isPrep (a : Action) : bool :=
  match a with
  | ProbeWindow | ProbeMediaRecorder | CreateCanvas _ _ | GetContext
  | CaptureStream _ | ProbeType _ | NewRecorder _ | Warn _ | SetImageSrc _ =>
      true
  | _ => false
  end.

Definition isSettle (a : Action) : bool :=
  match a with
  | CallResolve | CallReject _ => true
  | _ => false
  end.

(** Neither a frame nor a progress report. *)
Definition inert (a : Action) : bool :=
  match a with
  | DrawFrame _ _ _ _ | OnProgress _ => false
  | _ => true
  end.

(** [Emits P m]: running [m] leaves the frame counter alone and appends to the
    log only actions that satisfy [P]. *)
Definition Emits (P : Action -> bool) {A} (m : M A) : Prop :=
  forall r r' res,
    m r = (r', res) ->
    capturedFrames r' = capturedFrames r /\
    exists l, log r' = log r ++ l /\ forallb P l = true.

Definition returnsNormally (onProgress : ProgressCallback) : Prop :=
  match onProgress with
  | None => True
  | Some callback => forall v, callback v = None
  end.

(** The frames of one slide: frame indices 0 to [frameCount - 1]. *)
Definition slideFrames (index : nat) (slide : Slide)
           (image : option HTMLImageElement)
  : list (nat * Slide * option HTMLImageElement * Q) :=
  map (fun f => (index, slide, image,
                 frameProgressOf (frameCountOf slide) (Z.of_nat f)))
      (seq 0 (Z.to_nat (frameCountOf slide))).

Fixpoint expectedFrames (images : list (option HTMLImageElement))
         (index : nat) (slides : list Slide)
  : list (nat * Slide * option HTMLImageElement * Q) :=
  match slides with
  | [] => []
  | slide :: rest =>
      slideFrames index slide (imageAt images index)
      ++ expectedFrames images (S index) rest
  end.

(** The counter values [from + 1], ..., [from + n]. *)
Fixpoint countUp (from : Z) (n : nat) : list Z :=
  match n with
  | O => []
  | S n' => (from + 1)%Z :: countUp (from + 1) n'
  end.

Definition reportsOf (onProgress : ProgressCallback) (totalFrames : Z)
           (from : Z) (n : nat) : list Q :=
  match onProgress with
  | None => []
  | Some _ =>
      map (fun c => inject_Z c / inject_Z totalFrames) (countUp from n)
  end.

Section RenderSpec.

Variable host : Host.
Variable onProgress : ProgressCallback.
Variable totalFrames : Z.

(** The state of the log after one more reported frame. *)
Definition settled (st : option bool) : option bool :=
  match st, onProgress with
  | None, _ => None
  | Some _, None => Some true
  | Some _, Some _ => Some false
  end.

Definition frameActions (index : nat) (slide : Slide)
           (image : option HTMLImageElement) (frameCount frame captured : Z)
  : list Action :=
  [DrawFrame index slide image (frameProgressOf frameCount frame)]
  ++ (if trackRequestFrame host then [RequestFrame] else [])
  ++ match onProgress with
     | None => []
     | Some _ => [OnProgress (inject_Z captured / inject_Z totalFrames)]
     end
  ++ [Sleep sleepMs].

End RenderSpec.

(** What [loadImage] settles to for a slide. *)
Definition resolveImage (host : Host) (slide : Slide)
  : option HTMLImageElement :=
  match imageDataUrl slide with
  | None => None
  | Some u => if String.eqb u "" then None else decodeImage host u
  end.

(** Everything up to the moment the recorder is started. *)
Definition prepare (host : Host) (slides : list Slide)
  : M (MediaRecorder * list (option HTMLImageElement)) :=
  ensureMediaRecorder host ;;
  (if (List.length slides =? 0)%nat then throw noSlidesError else ret tt) ;;
  emit (CreateCanvas CANVAS_WIDTH CANVAS_HEIGHT) ;;
  emit GetContext ;;
  (if context2d host then ret tt else throw noContextError) ;;
  emit (CaptureStream (inject_Z FPS)) ;;
  recorder <- negotiateRecorder host ;;
  images <- prefetchImages host slides ;;
  ret (recorder, images).

(** From the start of the recorder on. *)
Definition perform (host : Host) (slides : list Slide)
           (onProgress : ProgressCallback) (recorder : MediaRecorder)
           (images : list (option HTMLImageElement)) : M MediaRecorder :=
  recorderStart ;;
  renderTask host onProgress (totalFramesOf slides) images slides ;;
  dispatchAll (finalEvents host) ;;
  ret recorder.

(** A recorder that came out of the negotiation was built by the host, for
    one of the candidates or with no type requested. *)
Definition negotiatedBy (host : Host) (recorder : MediaRecorder) : Prop :=
  exists request,
    newMediaRecorder host request = inr recorder /\
    match request with
    | None => True
    | Some mime => In mime mimeCandidates
    end.

(** ** A host in which everything works, and sample slides *)

Module Sample.

Local Open Scope string_scope.

Definition slide (d : Q) (url : option string) : Slide :=
  mkSlide "s" "New Scene" "Tap to edit your message" "#111827" "#f9fafb"
          "#f97316" d url AlignCenter.

Definition picture : HTMLImageElement := mkImage "data:ok" 400 300.

Definition goodHost : Host :=
  mkHost true true true
         (Some (fun mime => String.eqb mime "video/webm;codecs=vp8"))
         (fun request =>
            inr (mkRecorder request
                   match request with Some m => m | None => "" end))
         (fun url => if String.eqb url "data:ok" then Some picture else None)
         true
         (fun _ => [])
         [EvDataAvailable (Some (mkChunk 0 10)); EvStop].

Definition quiet : ProgressCallback := Some (fun _ => None).

End Sample.

Definition hostWithoutRecorder : Host :=
  mkHost true false true None (fun _ => inl (HostException "NotSupportedError"))
         (fun _ => None) false (fun _ => []) [].

Module Faulty.

(** A host like [Sample.goodHost] whose recorder fires an [error] event
    during the pause after the first frame, and goes on recording. *)
Definition host : Host :=
  mkHost true true true
         (isTypeSupported Sample.goodHost)
         (newMediaRecorder Sample.goodHost)
         (decodeImage Sample.goodHost)
         true
         (fun captured =>
            if (captured =? 1)%Z then [EvError NoErrorProp] else [])
         (finalEvents Sample.goodHost).

(** A callback that throws on its second call. *)
Definition thrower : ProgressCallback :=
  Some (fun v => if Qeq_bool v (2 # 3)
                 then Some (JsError "callback failed")
                 else None).

End Faulty.

(** ** The slide factory *)

(** [createSlideId] asks the host for a random identifier; the identifier it
    returned is the argument [newId] of the two factories. *)
Definition defaultSlide (newId : string) : Slide :=
  mkSlide newId "New Scene" "Tap to edit your message" "#111827" "#f9fafb"
          "#f97316" 3 None AlignCenter.

Definition duplicateSlide (slide : Slide) (newId : string) : Slide :=
  mkSlide newId (title slide ++ " Copy")%string (subtitle slide)
          (backgroundColor slide) (textColor slide) (accentColor slide)
          (duration slide) (imageDataUrl slide) (alignment slide).

(** ** The editor: the slide list and the active slide *)

Module Editor.

Record State : Type := mkState {
  slides : list Slide;
  activeSlideId : string
}.

(** [current.findIndex(slide => slide.id === wanted)], [None] for -1. *)
Fixpoint findIndex (wanted : string) (l : list Slide) : option nat :=
  match l with
  | [] => None
  | slide :: rest =>
      if String.eqb (id slide) wanted then Some O
      else match findIndex wanted rest with
           | Some n => Some (S n)
           | None => None
           end
  end.

(** [next.splice(index, 0, item)] and [next.splice(index, 1)]. *)
Definition spliceIn (index : nat) (item : Slide) (l : list Slide)
  : list Slide :=
  firstn index l ++ item :: skipn index l.

Definition spliceOut (index : nat) (l : list Slide) : list Slide :=
  firstn index l ++ skipn (S index) l.

(** [slides[0]?.id ?? ""]. *)
Definition firstId (l : list Slide) : string :=
  match l with
  | slide :: _ => id slide
  | [] => ""%string
  end.

(** [slides.find(slide => slide.id === activeSlideId) ?? slides[0]]. *)
Definition activeSlide (st : State) : option Slide :=
  match find (fun slide => String.eqb (id slide) (activeSlideId st))
             (slides st) with
  | Some slide => Some slide
  | None => hd_error (slides st)
  end.

Definition updateSlide (wanted : string) (nextSlide : Slide)
           (current : list Slide) : list Slide :=
  map (fun slide => if String.eqb (id slide) wanted then nextSlide else slide)
      current.

(** The fields the form controls change, with the value they set. *)
Inductive Change : Type :=
| SetTitle (value : string)
| SetSubtitle (value : string)
| SetBackgroundColor (value : string)
| SetTextColor (value : string)
| SetAccentColor (value : string)
| SetDuration (value : Q)
| SetAlignment (value : SlideAlignment)
| SetImageDataUrl (value : option string).

(** [{ ...slide, [key]: value }]. *)
Definition applyChange (c : Change) (s : Slide) : Slide :=
  match c with
  | SetTitle v =>
      mkSlide (id s) v (subtitle s) (backgroundColor s) (textColor s)
              (accentColor s) (duration s) (imageDataUrl s) (alignment s)
  | SetSubtitle v =>
      mkSlide (id s) (title s) v (backgroundColor s) (textColor s)
              (accentColor s) (duration s) (imageDataUrl s) (alignment s)
  | SetBackgroundColor v =>
      mkSlide (id s) (title s) (subtitle s) v (textColor s)
              (accentColor s) (duration s) (imageDataUrl s) (alignment s)
  | SetTextColor v =>
      mkSlide (id s) (title s) (subtitle s) (backgroundColor s) v
              (accentColor s) (duration s) (imageDataUrl s) (alignment s)
  | SetAccentColor v =>
      mkSlide (id s) (title s) (subtitle s) (backgroundColor s) (textColor s)
              v (duration s) (imageDataUrl s) (alignment s)
  | SetDuration v =>
      mkSlide (id s) (title s) (subtitle s) (backgroundColor s) (textColor s)
              (accentColor s) v (imageDataUrl s) (alignment s)
  | SetAlignment v =>
      mkSlide (id s) (title s) (subtitle s) (backgroundColor s) (textColor s)
              (accentColor s) (duration s) (imageDataUrl s) v
  | SetImageDataUrl v =>
      mkSlide (id s) (title s) (subtitle s) (backgroundColor s) (textColor s)
              (accentColor s) (duration s) v (alignment s)
  end.

Definition handleChange (c : Change) (st : State) : State :=
  match activeSlide st with
  | None => st
  | Some active =>
      mkState (updateSlide (id active) (applyChange c active) (slides st))
              (activeSlideId st)
  end.

Definition handleAddSlide (newId : string) (st : State) : State :=
  mkState (slides st ++ [defaultSlide newId]) newId.

Definition handleDuplicateSlide (wanted newId : string) (st : State) : State :=
  match findIndex wanted (slides st) with
  | None => st
  | Some index =>
      match nth_error (slides st) index with
      | Some original =>
          let copy := duplicateSlide original newId in
          mkState (spliceIn (S index) copy (slides st)) (id copy)
      | None => st
      end
  end.

Definition handleRemoveSlide (wanted : string) (st : State) : State :=
  if (List.length (slides st) =? 1)%nat then st
  else
    let next :=
      filter (fun slide => negb (String.eqb (id slide) wanted)) (slides st) in
    mkState next
            (if String.eqb (activeSlideId st) wanted then firstId next
             else activeSlideId st).

Inductive Direction : Type := Up | Down.

Definition handleReorder (wanted : string) (direction : Direction)
           (st : State) : State :=
  match findIndex wanted (slides st) with
  | None => st
  | Some index =>
      let targetIndex : Z :=
        match direction with
        | Up => (Z.of_nat index - 1)%Z
        | Down => (Z.of_nat index + 1)%Z
        end in
      if (targetIndex <? 0)%Z
         || (targetIndex >=? Z.of_nat (List.length (slides st)))%Z
      then st
      else
        match nth_error (slides st) index with
        | Some item =>
            mkState (spliceIn (Z.to_nat targetIndex) item
                              (spliceOut index (slides st)))
                    (activeSlideId st)
        | None => st
        end
  end.

(** The effect that runs after every change of the list or of the active
    identifier. *)
Definition syncActive (st : State) : State :=
  if existsb (fun slide => String.eqb (id slide) (activeSlideId st))
             (slides st)
  then st
  else mkState (slides st) (firstId (slides st)).

(** What the user can do, with the identifier [createSlideId] returns where
    one is made. *)
Inductive Event : Type :=
| AddSlide (newId : string)
| DuplicateSlide (wanted newId : string)
| RemoveSlide (wanted : string)
| Reorder (wanted : string) (direction : Direction)
| ChangeField (c : Change)
| SelectSlide (wanted : string).

Definition handle (ev : Event) (st : State) : State :=
  match ev with
  | AddSlide newId => handleAddSlide newId st
  | DuplicateSlide wanted newId => handleDuplicateSlide wanted newId st
  | RemoveSlide wanted => handleRemoveSlide wanted st
  | Reorder wanted direction => handleReorder wanted direction st
  | ChangeField c => handleChange c st
  | SelectSlide wanted => mkState (slides st) wanted
  end.

Definition step (ev : Event) (st : State) : State := syncActive (handle ev st).

(** [useState(() => [defaultSlide()])] and [useState(() => slides[0]?.id)]. *)
Definition initial (firstNewId : string) : State :=
  mkState [defaultSlide firstNewId] firstNewId.

Definition ids (st : State) : list string := map id (slides st).

(** An event is fresh when the identifier it brings is not in use. *)
Definition fresh (ev : Event) (st : State) : Prop :=
  match ev with
  | AddSlide newId | DuplicateSlide _ newId => ~ In newId (ids st)
  | _ => True
  end.

Fixpoint run (evs : list Event) (st : State) : State :=
  match evs with
  | [] => st
  | ev :: rest => run rest (step ev st)
  end.

Fixpoint allFresh (evs : list Event) (st : State) : Prop :=
  match evs with
  | [] => True
  | ev :: rest => fresh ev st /\ allFresh rest (step ev st)
  end.

(** The state the editor is meant to be in: at least one slide, no identifier
    twice, and the active identifier that of a slide in the list. *)
Definition wellFormed (st : State) : Prop :=
  slides st <> [] /\ NoDup (ids st) /\ In (activeSlideId st) (ids st).

End Editor.

(** ** The preview player *)

(** The index of the slide on show: [%] is the remainder that takes the sign
    of the dividend. *)
Definition activeIndex (indexCounter : Z) (slideCount : nat) : Z :=
  if (slideCount =? 0)%nat then 0%Z
  else Z.rem (Z.rem indexCounter (Z.of_nat slideCount) + Z.of_nat slideCount)
             (Z.of_nat slideCount).

Module Samples.

(** Three fresh slides in the editor. *)
Definition threeSlides : Editor.State :=
  Editor.mkState [defaultSlide "a"; defaultSlide "b"; defaultSlide "c"] "a".

(** A host whose canvas gives no 2D context. *)
Definition hostWithoutContext : Host :=
  mkHost true true false None (newMediaRecorder Sample.goodHost)
         (fun _ => None) false (fun _ => []) [].

(** A host whose recorder hands over an empty chunk, a chunk, the [stop]
    event and one more chunk. *)
Definition chattyHost : Host :=
  mkHost true true true None (newMediaRecorder Sample.goodHost)
         (fun _ => None) false (fun _ => [])
         [EvDataAvailable (Some (mkChunk 0 0));
          EvDataAvailable (Some (mkChunk 1 5));
          EvStop;
          EvDataAvailable (Some (mkChunk 2 7))].

(** A host that reports every type as unsupported, and whose recorder,
    built with no type requested, reports no type. *)
Definition plainHost : Host :=
  mkHost true true true (Some (fun _ => false))
         (newMediaRecorder Sample.goodHost)
         (fun _ => None) false (fun _ => [])
         [EvDataAvailable (Some (mkChunk 0 10)); EvStop].

End Samples.

(** ** Definitions used to state further properties of the export *)

(** What the render loop may add to the log. *)
Definition isRender (a : Action) : bool :=
  match a with
  | DrawFrame _ _ _ _ | RequestFrame | OnProgress _ | Sleep _
  | CallResolve | CallReject _ => true
  | _ => false
  end.

(** [Logs P m]: running [m] only appends to the log, and only actions that
    satisfy [P], whether [m] returns or throws. *)
Definition Logs (P : Action -> bool) {A} (m : M A) : Prop :=
  forall r r' res,
    m r = (r', res) ->
    exists l, log r' = log r ++ l /\ forallb P l = true.

(** A candidate the negotiation can settle on: the host does not report the
    type as unsupported and builds a recorder for it. *)
Definition usable (host : Host) (mime : string) : bool :=
  match isTypeSupported host with
  | Some supported => supported mime
  | None => true
  end
  && match newMediaRecorder host (Some mime) with
     | inr _ => true
     | inl _ => false
     end.

(** What the negotiation is expected to come to. *)
Definition negotiationResult (host : Host) : Thrown + MediaRecorder :=
  match find (usable host) mimeCandidates with
  | Some mime => newMediaRecorder host (Some mime)
  | None => newMediaRecorder host None
  end.

(** The value the [error] listener rejects with. *)
Definition errorOf (payload : ErrorPayload) : Thrown :=
  match payload with
  | ErrorProp (Some name) => HostException name
  | _ => recorderFailedError
  end.

(** What a recorder that stayed silent until it was stopped makes of the
    export by the events it fires afterwards: the first [stop] or [error]
    decides, and the chunks gathered until then are the blob. *)
Fixpoint verdict (recorder : MediaRecorder) (evs : list SinkEvent)
         (gathered : list Chunk) : Outcome :=
  match evs with
  | [] => NeverSettles
  | EvDataAvailable (Some c) :: rest =>
      verdict recorder rest
              (if (0 <? size c)%Z then gathered ++ [c] else gathered)
  | EvDataAvailable None :: rest => verdict recorder rest gathered
  | EvError payload :: _ => Failed (errorOf payload)
  | EvStop :: _ => Fulfilled (mkBlob gathered (blobType recorder))
  end.

(** The run with some more actions in its log. *)
Definition addLog (l : list Action) (r : Run) : Run :=
  mkRun (log r ++ l) (promise r) (chunks r) (recording r) (capturedFrames r).

(** The host does not report the type as unsupported. *)
Definition notRefused (host : Host) (mime : string) : bool :=
  match isTypeSupported host with
  | Some supported => supported mime
  | None => true
  end.

(** What the negotiation may add to the log: probes, warnings, and the
    construction of a recorder with no type or with a type that was not
    refused. *)
Definition negotiates (host : Host) (a : Action) : bool :=
  match a with
  | ProbeType _ | Warn _ | NewRecorder None => true
  | NewRecorder (Some mime) => notRefused host mime
  | _ => false
  end.

(** [OnlyLogs m]: running [m] changes nothing of the run but its log. *)
Definition OnlyLogs {A} (m : M A) : Prop :=
  forall r r' res, m r = (r', res) -> exists l, r' = addLog l r.

(** How the export ends for the caller, given the recorder and the run. *)
Definition outcomeOf (recorder : MediaRecorder) (r : Run) : Outcome :=
  match promise r with
  | Resolved snapshot => Fulfilled (mkBlob snapshot (blobType recorder))
  | Rejected e => Failed e
  | Pending => NeverSettles
  end.

(** A recorder that fires nothing while the loop runs. *)
Definition silent (host : Host) : Prop := forall n, sinkEvents host n = [].

(** ** Reading the calls of a frame *)

(** The vertical shift of the entrance and its opacity. *)
Fixpoint firstTranslate (calls : list CanvasCall) : option Q :=
  match calls with
  | [] => None
  | Translate _ ty :: _ => Some ty
  | _ :: rest => firstTranslate rest
  end.

Fixpoint firstAlpha (calls : list CanvasCall) : option Q :=
  match calls with
  | [] => None
  | SetGlobalAlpha alpha :: _ => Some alpha
  | _ :: rest => firstAlpha rest
  end.

(** The depth of the context's state stack after the calls, [None] when a
    [restore] finds the stack empty. *)
Fixpoint stackAfter (depth : nat) (calls : list CanvasCall) : option nat :=
  match calls with
  | [] => Some depth
  | Save :: rest => stackAfter (S depth) rest
  | Restore :: rest =>
      match depth with
      | O => None
      | S d => stackAfter d rest
      end
  | _ :: rest => stackAfter depth rest
  end.

Definition isFillText (c : CanvasCall) : bool :=
  match c with FillText _ _ _ => true | _ => false end.

Definition isDrawImage (c : CanvasCall) : bool :=
  match c with DrawImage _ _ _ _ _ => true | _ => false end.

(** A line of text drawn at the horizontal position [x]. *)
Definition textAt (x : Q) (c : CanvasCall) : Prop :=
  exists text y, c = FillText text x y.

(** ** Words grouped into lines *)

(** The line a group of words makes: every word followed by one space. *)
Fixpoint lineOf (group : list string) : string :=
  match group with
  | [] => ""%string
  | w :: rest => (w ++ " " ++ lineOf rest)%string
  end.

Section Grouping.

Variable measure : string -> Q.
Variable maxWidth : Q.

(** A line fits when it holds one word only or is not wider than
    [maxWidth]. *)
Definition fitsLine (group : list string) : Prop :=
  List.length group = 1%nat \/
  Num.gtb (measure (lineOf group)) maxWidth = false.

(** The first word of the next line would not have fitted on this one. *)
Definition overflows (group next : list string) : Prop :=
  match next with
  | w :: _ => Num.gtb (measure (lineOf (group ++ [w]))) maxWidth = true
  | [] => True
  end.

Fixpoint chained (groups : list (list string)) : Prop :=
  match groups with
  | [] => True
  | group :: rest =>
      match rest with
      | next :: _ => overflows group next
      | [] => True
      end /\ chained rest
  end.

End Grouping.

(** A line with nothing but white space on it. *)
Definition blankLine (group : list string) : bool :=
  String.eqb (Str.trim (lineOf group)) "".

(** The seconds a list of slides is meant to last. *)
Definition totalDuration (slides : list Slide) : Q :=
  fold_right (fun slide acc => duration slide + acc) 0 slides.

(** A duration the slider of the form can produce: a whole number of half
    seconds, at least one of them.  The slider stops at ten seconds; up to
    [2 ^ 48] half seconds the duration and thirty times the duration are
    numbers a double holds. *)
Definition halfSeconds (slide : Slide) : Prop :=
  exists k, (1 <= k <= 2 ^ 48)%Z /\ duration slide == inject_Z k / 2.

(** ** The export button *)

Inductive ExportState : Type := Idle | Preparing | Rendering | Saving.

(** What [handleExport] does to the page. *)
Inductive UiAction : Type :=
| SetExportState (state : ExportState)
| SetExportProgress (value : Q)
| CreateObjectURL (blob : Blob)
| ClickDownload
| RevokeObjectURL
| ConsoleError (reason : Thrown)
| Alert (reason : Thrown).

(** The callback [handleExport] passes: it sets two pieces of state and
    returns. *)
Definition exportCallback : ProgressCallback := Some (fun _ => None).

(** What follows the [await]: the rest of the [try] block on a blob, the
    [catch] block on a failure, and the [finally] block in both cases; nothing
    as long as the export has not settled. *)
Definition afterExport (out : Outcome) : list UiAction :=
  match out with
  | Fulfilled blob =>
      [SetExportState Saving; CreateObjectURL blob; ClickDownload;
       RevokeObjectURL; SetExportState Idle; SetExportProgress 0]
  | Failed e =>
      [ConsoleError e; Alert e; SetExportState Idle; SetExportProgress 0]
  | NeverSettles => []
  end.

(** The page follows the export: every progress report runs the callback, and
    the code after the [await] runs as soon as the promise is settled, before
    the loop wakes up again; an export that throws while preparing is settled
    when it returns. *)
Fixpoint replay (out : Outcome) (settled : bool) (l : list Action)
  : list UiAction :=
  match l with
  | [] => if settled then [] else afterExport out
  | OnProgress v :: rest =>
      SetExportState Rendering :: SetExportProgress v
      :: replay out settled rest
  | CallResolve :: rest | CallReject _ :: rest =>
      if settled then replay out true rest
      else afterExport out ++ replay out true rest
  | _ :: rest => replay out settled rest
  end.

Definition handleExport (host : Host) (slides : list Slide) : list UiAction :=
  [SetExportState Preparing; SetExportProgress 0]
  ++ replay (snd (exportSlidesToVideo host slides exportCallback)) false
            (fst (exportSlidesToVideo host slides exportCallback)).

(** The export state the page is left in. *)
Fixpoint exportStateAfter (state : ExportState) (trace : list UiAction)
  : ExportState :=
  match trace with
  | [] => state
  | SetExportState s :: rest => exportStateAfter s rest
  | _ :: rest => exportStateAfter state rest
  end.

(** The two state changes one progress report makes. *)
Definition progressUpdates (values : list Q) : list UiAction :=
  flat_map (fun v => [SetExportState Rendering; SetExportProgress v]) values.

(** What the loop adds to the log while the recorder is silent. *)
Definition isFrameOnly (a : Action) : bool :=
  match a with
  | DrawFrame _ _ _ _ | RequestFrame | OnProgress _ | Sleep _ => true
  | _ => false
  end.

(** ** The recorder of a run *)

(** The request of the last [new MediaRecorder] call of a log: the call
    that made the recorder the run goes on with, since the negotiation stops
    at the first call that returns. *)
Fixpoint lastRequest (l : list Action) : option (option string) :=
  match l with
  | [] => None
  | NewRecorder request :: rest =>
      match lastRequest rest with
      | Some later => Some later
      | None => Some request
      end
  | _ :: rest => lastRequest rest
  end.

(** Anything but the construction of a recorder. *)
Definition keepsRecorder (a : Action) : bool :=
  match a with
  | NewRecorder _ => false
  | _ => true
  end.

(** * Properties *)

(** ** Numbers *)

Module NumFacts.

Import Num.

Lemma ltb_lt a b : ltb a b = true <-> a < b.
Proof.
  unfold ltb. rewrite Qlt_alt. destruct (a ?= b); split; congruence.
Qed.

Lemma ltb_ge a b : ltb a b = false <-> b <= a.
Proof.
  unfold ltb. destruct (a ?= b) eqn:E.
  - apply Qeq_alt in E. split; [intros _; lra | reflexivity].
  - apply Qlt_alt in E. split; [discriminate | intros; lra].
  - apply Qgt_alt in E. split; [intros _; lra | reflexivity].
Qed.

Lemma gtb_gt a b : gtb a b = true <-> b < a.
Proof.
  unfold gtb. destruct (a ?= b) eqn:E.
  - apply Qeq_alt in E. split; [discriminate | intros; lra].
  - apply Qlt_alt in E. split; [discriminate | intros; lra].
  - apply Qgt_alt in E. split; [intros _; lra | reflexivity].
Qed.

Lemma gtb_le a b : gtb a b = false <-> a <= b.
Proof.
  unfold gtb. destruct (a ?= b) eqn:E.
  - apply Qeq_alt in E. split; [intros _; lra | reflexivity].
  - apply Qlt_alt in E. split; [intros _; lra | reflexivity].
  - apply Qgt_alt in E. split; [discriminate | intros; lra].
Qed.

Lemma pow3 x : pow x 3 == x * x * x.
Proof. unfold pow. simpl. ring. Qed.

End NumFacts.

(** ** Doubles *)

Module DoubleFacts.

Import Num.

Lemma pow2_pos e : 0 < 2 ^ e.
Proof. apply Qpower_0_lt. reflexivity. Qed.

Lemma pow2_Z n : (0 <= n)%Z -> 2 ^ n == inject_Z (2 ^ n).
Proof. intros H. rewrite Zpower_Qpower by exact H. reflexivity. Qed.

(** The leading bit is not above the number. *)
Lemma log2floor_le x : 0 < x -> 2 ^ log2floor x <= x.
Proof.
  intros Hx. unfold log2floor.
  destruct (Qle_bool _ x) eqn:E; [now apply Qle_bool_iff |].
  clear E. destruct x as [n d]. cbn [Qnum Qden].
  assert (Hn : (0 < n)%Z).
  { unfold Qlt in Hx. cbn in Hx. lia. }
  pose proof (Z.log2_nonneg n) as Hln.
  pose proof (Z.log2_nonneg (Z.pos d)) as Hld.
  destruct (Z.log2_spec n Hn) as [Hn1 _].
  destruct (Z.log2_spec (Z.pos d) ltac:(lia)) as [_ Hd2].
  replace (Z.log2 n - Z.log2 (Z.pos d) - 1)%Z
    with (Z.log2 n - Z.succ (Z.log2 (Z.pos d)))%Z by lia.
  rewrite Qpower_minus by discriminate.
  rewrite !pow2_Z by lia.
  set (a := (2 ^ Z.log2 n)%Z) in *.
  set (b := (2 ^ Z.succ (Z.log2 (Z.pos d)))%Z) in *.
  assert (Hb : (0 < b)%Z) by lia.
  apply Qle_shift_div_r; [change 0 with (inject_Z 0); rewrite <- Zlt_Qlt; lia |].
  unfold Qle, Qmult, inject_Z. cbn [Qnum Qden].
  rewrite Pos.mul_1_r, !Z.mul_1_r.
  assert (Ha : (0 <= a)%Z) by (subst a; apply Z.pow_nonneg; lia).
  nia.
Qed.

Lemma roundEven_cases x :
  roundEven x = Qfloor x \/
  (roundEven x = (Qfloor x + 1)%Z /\ 1 # 2 <= x - inject_Z (Qfloor x)).
Proof.
  unfold roundEven.
  destruct (Qcompare (x - inject_Z (Qfloor x)) (1 # 2)) eqn:E.
  - apply Qeq_alt in E. destruct (Z.even (Qfloor x)); [now left |].
    right. split; [reflexivity | lra].
  - now left.
  - apply Qgt_alt in E. right. split; [reflexivity | lra].
Qed.

Lemma roundEven_le x : inject_Z (roundEven x) <= x + (1 # 2).
Proof.
  pose proof (Qfloor_le x) as Hf.
  destruct (roundEven_cases x) as [-> | [-> H]]; [lra |].
  rewrite inject_Z_plus. change (inject_Z 1) with 1. lra.
Qed.

Lemma roundEven_nonneg x : 0 <= x -> (0 <= roundEven x)%Z.
Proof.
  intros Hx.
  assert (Hf : (0 <= Qfloor x)%Z).
  { change 0%Z with (Qfloor 0). now apply Qfloor_resp_le. }
  destruct (roundEven_cases x) as [-> | [-> _]]; lia.
Qed.

Lemma ulpExponent_le x :
  0 < x -> 2 ^ ulpExponent x <= x * (1 # 2 ^ 52) + (1 # 2 ^ 1074).
Proof.
  intros Hx. unfold ulpExponent.
  destruct (Z.max_spec (-1074) (log2floor x - 52)) as [[_ ->] | [_ ->]].
  - rewrite Qpower_minus by discriminate.
    pose proof (log2floor_le x Hx) as HL.
    assert (H52 : 2 ^ 52 == inject_Z (2 ^ 52)) by (now rewrite pow2_Z).
    rewrite H52.
    assert (Hs : 2 ^ log2floor x / inject_Z (2 ^ 52)
                 == 2 ^ log2floor x * (1 # 2 ^ 52)).
    { unfold Qdiv. apply Qmult_comp; [reflexivity |]. reflexivity. }
    rewrite Hs.
    assert (Hc : 0 < 1 # 2 ^ 52) by reflexivity.
    assert (Hd : 0 < 1 # 2 ^ 1074) by reflexivity.
    apply Qle_trans with (x * (1 # 2 ^ 52)).
    + apply Qmult_le_compat_r; [exact HL | now apply Qlt_le_weak].
    + lra.
  - assert (Hm : 2 ^ (-1074) == 1 # 2 ^ 1074).
    { unfold Qeq. vm_compute. reflexivity. }
    rewrite Hm.
    assert (0 <= x * (1 # 2 ^ 52)).
    { apply Qmult_le_0_compat; [now apply Qlt_le_weak | discriminate]. }
    lra.
Qed.

(** Rounding to a double adds at most half a unit in the last place. *)
Lemma nearestDouble_le x :
  0 < x -> nearestDouble x <= x + (x * (1 # 2 ^ 53) + (1 # 2 ^ 1075)).
Proof.
  intros Hx. unfold nearestDouble.
  pose proof (pow2_pos (ulpExponent x)) as Hp.
  pose proof (ulpExponent_le x Hx) as Hu.
  pose proof (roundEven_le (x / 2 ^ ulpExponent x)) as Hr.
  set (p := 2 ^ ulpExponent x) in *.
  apply Qle_trans with ((x / p + (1 # 2)) * p).
  - apply Qmult_le_compat_r; [exact Hr | now apply Qlt_le_weak].
  - assert (He : (x / p + (1 # 2)) * p == x + p * (1 # 2)).
    { field. intros H0. rewrite H0 in Hp. now apply Qlt_irrefl in Hp. }
    rewrite He.
    assert (H53 : x * (1 # 2 ^ 53) == x * (1 # 2 ^ 52) * (1 # 2)).
    { rewrite <- Qmult_assoc. apply Qmult_comp; reflexivity. }
    assert (H75 : (1 # 2 ^ 1075) == (1 # 2 ^ 1074) * (1 # 2)) by reflexivity.
    rewrite H53, H75. lra.
Qed.

Lemma nearestDouble_nonneg x : 0 < x -> 0 <= nearestDouble x.
Proof.
  intros Hx. unfold nearestDouble.
  pose proof (pow2_pos (ulpExponent x)) as Hp.
  apply Qmult_le_0_compat; [| now apply Qlt_le_weak].
  change 0 with (inject_Z 0). rewrite <- Zle_Qle.
  apply roundEven_nonneg. apply Qle_shift_div_l; [exact Hp |]. lra.
Qed.

Lemma toDouble_comp x y : x == y -> toDouble x = toDouble y.
Proof. intros H. unfold toDouble. now rewrite (Qred_complete _ _ H). Qed.

Lemma Qnum_sign x :
  match Qnum x with
  | Z0 => x == 0
  | Zpos _ => 0 < x
  | Zneg _ => x < 0
  end.
Proof. destruct x as [[| n | n] d]; reflexivity. Qed.

Lemma toDouble_nonneg x : 0 <= x -> 0 <= toDouble x.
Proof.
  intros Hx. unfold toDouble.
  pose proof (Qnum_sign (Qred x)) as Hs. pose proof (Qred_correct x) as Hc.
  destruct (Qnum (Qred x)).
  - lra.
  - rewrite Qred_correct. now apply nearestDouble_nonneg.
  - lra.
Qed.

Lemma toDouble_nonpos x : x <= 0 -> toDouble x <= 0.
Proof.
  intros Hx. unfold toDouble.
  pose proof (Qnum_sign (Qred x)) as Hs. pose proof (Qred_correct x) as Hc.
  destruct (Qnum (Qred x)).
  - lra.
  - lra.
  - rewrite Qred_correct.
    assert (0 <= nearestDouble (- Qred x))
      by (apply nearestDouble_nonneg; lra).
    lra.
Qed.

Lemma toDouble_le x :
  0 <= x -> toDouble x <= x + (x * (1 # 2 ^ 53) + (1 # 2 ^ 1075)).
Proof.
  intros Hx. unfold toDouble.
  pose proof (Qnum_sign (Qred x)) as Hs. pose proof (Qred_correct x) as Hc.
  assert (Hd : 0 < 1 # 2 ^ 1075) by reflexivity.
  assert (Hm : 0 <= x * (1 # 2 ^ 53))
    by (apply Qmult_le_0_compat; [exact Hx | discriminate]).
  destruct (Qnum (Qred x)).
  - lra.
  - rewrite Qred_correct.
    pose proof (nearestDouble_le (Qred x) Hs) as Hn.
    rewrite Hc in Hn at 2 3. exact Hn.
  - lra.
Qed.

(** Less than a sixtieth of a second is less than a frame and a half. *)
Lemma mul_small d : d < 1 # 60 -> mul d 30 < 3 # 2.
Proof.
  intros Hd. unfold mul.
  assert (H30 : toDouble 30 = 30) by (vm_compute; reflexivity).
  rewrite H30.
  destruct (Qlt_le_dec 0 d) as [Hpos | Hneg].
  - pose proof (toDouble_le d (Qlt_le_weak _ _ Hpos)) as H1.
    pose proof (toDouble_nonneg d (Qlt_le_weak _ _ Hpos)) as H0.
    set (a := toDouble d) in *.
    assert (Hy : 0 <= a * 30) by lra.
    pose proof (toDouble_le (a * 30) Hy) as H2.
    set (eps := 1 # 2 ^ 53) in *. set (delta := 1 # 2 ^ 1075) in *.
    assert (He : 0 < eps /\ eps <= 1 # 1000)
      by (split; [reflexivity | vm_compute; discriminate]).
    assert (Hdl : 0 < delta /\ delta <= 1 # 1000)
      by (split; [reflexivity | vm_compute; discriminate]).
    assert (Ha : a <= 1 # 50).
    { assert (d * eps <= (1 # 60) * (1 # 1000)).
      { apply Qle_trans with ((1 # 60) * eps).
        - apply Qmult_le_compat_r; lra.
        - apply Qmult_le_l; [reflexivity | tauto]. }
      lra. }
    assert (a * 30 * eps <= (6 # 10) * (1 # 1000)).
    { apply Qle_trans with ((6 # 10) * eps).
      - apply Qmult_le_compat_r; lra.
      - apply Qmult_le_l; [reflexivity | tauto]. }
    lra.
  - pose proof (toDouble_nonpos d Hneg) as H0.
    assert (toDouble (toDouble d * 30) <= 0) by (apply toDouble_nonpos; lra).
    lra.
Qed.

Lemma roundEven_Z x z : x == inject_Z z -> roundEven x = z.
Proof.
  intros H. unfold roundEven.
  assert (Hf : Qfloor x = z) by (rewrite (Qfloor_comp _ _ H); apply Qfloor_Z).
  rewrite Hf.
  assert (Hc : Qcompare (x - inject_Z z) (1 # 2) = Lt).
  { rewrite <- Qlt_alt. lra. }
  now rewrite Hc.
Qed.

(** A number that has no bit below the last place of its doubles is a
    double. *)
Lemma nearestDouble_exact x m c :
  0 < x -> x == inject_Z m * 2 ^ c ->
  (-1074 <= c)%Z -> x < 2 ^ (c + 53) ->
  nearestDouble x == x.
Proof.
  intros Hx Hm Hc Hlt. unfold nearestDouble.
  assert (He : (ulpExponent x <= c)%Z).
  { unfold ulpExponent.
    assert (HL : 2 ^ log2floor x < 2 ^ (c + 53))
      by (apply Qle_lt_trans with x; [now apply log2floor_le | exact Hlt]).
    apply Qpower_lt_compat_l_inv in HL; [lia | reflexivity]. }
  set (e := ulpExponent x) in *.
  pose proof (pow2_pos e) as Hp.
  assert (Hsplit : 2 ^ c == inject_Z (2 ^ (c - e)) * 2 ^ e).
  { rewrite <- pow2_Z by lia. rewrite <- Qpower_plus by discriminate.
    now replace (c - e + e)%Z with c by lia. }
  assert (Hq : x / 2 ^ e == inject_Z (m * 2 ^ (c - e))).
  { rewrite Hm, Hsplit, inject_Z_mult. field.
    intros H0. rewrite H0 in Hp. now apply Qlt_irrefl in Hp. }
  rewrite (roundEven_Z _ _ Hq), Hm, Hsplit, inject_Z_mult. ring.
Qed.

Lemma toDouble_exact x m c :
  0 < x -> x == inject_Z m * 2 ^ c ->
  (-1074 <= c)%Z -> x < 2 ^ (c + 53) ->
  toDouble x == x.
Proof.
  intros Hx Hm Hc Hlt. unfold toDouble.
  pose proof (Qnum_sign (Qred x)) as Hs. pose proof (Qred_correct x) as Hr.
  destruct (Qnum (Qred x)).
  - lra.
  - rewrite Qred_correct.
    apply Qeq_trans with (Qred x); [| exact Hr].
    apply (nearestDouble_exact (Qred x) m c); try assumption.
    + now rewrite Hr.
    + now rewrite Hr.
  - lra.
Qed.

(** Whole numbers of half seconds are multiplied without rounding. *)
Lemma mul_half_seconds d k :
  (1 <= k <= 2 ^ 48)%Z -> d == inject_Z k / 2 ->
  mul d 30 == inject_Z (15 * k).
Proof.
  intros Hk Hd. unfold mul.
  assert (H30 : toDouble 30 = 30) by (vm_compute; reflexivity).
  assert (Hpos : 0 < inject_Z k).
  { change 0 with (inject_Z 0). rewrite <- Zlt_Qlt. lia. }
  assert (Hk49 : inject_Z k <= inject_Z (2 ^ 48)) by (rewrite <- Zle_Qle; lia).
  assert (Hd' : d == inject_Z k * (1 # 2)) by (rewrite Hd; reflexivity).
  assert (H1 : toDouble d == d).
  { apply (toDouble_exact d k (-1)).
    - lra.
    - exact Hd'.
    - lia.
    - rewrite pow2_Z by lia.
      apply Qlt_le_trans with (inject_Z (2 ^ 48)).
      + lra.
      + rewrite <- Zle_Qle. vm_compute. discriminate. }
  rewrite H30.
  assert (H2 : toDouble d * 30 == inject_Z (15 * k)).
  { rewrite H1, Hd', inject_Z_mult. change (inject_Z 15) with 15. ring. }
  rewrite (toDouble_comp _ _ H2).
  apply (toDouble_exact _ (15 * k) 0).
  - change 0 with (inject_Z 0). rewrite <- Zlt_Qlt. lia.
  - change (2 ^ 0) with 1. ring.
  - lia.
  - rewrite pow2_Z by lia. rewrite <- Zlt_Qlt.
    apply Z.le_lt_trans with (15 * 2 ^ 48)%Z; [lia |]. vm_compute. reflexivity.
Qed.

End DoubleFacts.

Example ease_quarter : easeInOutCubic (1 # 4) == 1 # 16.
Proof. reflexivity. Qed.

Lemma ease_low t : t < 1 # 2 -> easeInOutCubic t == 4 * t * t * t.
Proof.
  intros H. unfold easeInOutCubic.
  apply NumFacts.ltb_lt in H. rewrite H. reflexivity.
Qed.

Lemma ease_high t :
  1 # 2 <= t -> easeInOutCubic t == 1 - (2 - 2 * t) * (2 - 2 * t) * (2 - 2 * t) / 2.
Proof.
  intros H. unfold easeInOutCubic.
  apply NumFacts.ltb_ge in H. rewrite H. rewrite NumFacts.pow3. field.
Qed.

Lemma cube_mono a b : 0 <= a -> a <= b -> a * a * a <= b * b * b.
Proof.
  intros Ha Hab.
  assert (Hb : 0 <= b) by lra.
  assert (H1 : a * a <= b * b).
  { apply Qle_trans with (a * b).
    - rewrite (Qmult_comm a b). apply Qmult_le_compat_r; assumption.
    - apply Qmult_le_compat_r; assumption. }
  assert (H2 : 0 <= b * b) by (apply Qmult_le_0_compat; assumption).
  apply Qle_trans with (b * b * a).
  - apply Qmult_le_compat_r; assumption.
  - rewrite (Qmult_comm (b * b) a), (Qmult_comm (b * b) b).
    apply Qmult_le_compat_r; assumption.
Qed.

(** ** The easing curve *)

Lemma ease_below_half t : 0 <= t -> t < 1 # 2 -> easeInOutCubic t <= 1 # 2.
Proof.
  intros H0 H1. rewrite (ease_low t H1).
  assert (H := cube_mono t (1 # 2) H0 (Qlt_le_weak _ _ H1)).
  setoid_replace ((1 # 2) * (1 # 2) * (1 # 2)) with (1 # 8) in H by reflexivity.
  setoid_replace (4 * t * t * t) with (4 * (t * t * t)) by ring.
  lra.
Qed.

Lemma ease_above_half t : 1 # 2 <= t -> t <= 1 -> 1 # 2 <= easeInOutCubic t.
Proof.
  intros H0 H1. rewrite (ease_high t H0).
  assert (Hu : 0 <= 2 - 2 * t) by lra.
  assert (Hv : 2 - 2 * t <= 1) by lra.
  assert (H := cube_mono (2 - 2 * t) 1 Hu Hv).
  setoid_replace (1 * 1 * 1) with 1 in H by reflexivity.
  set (c := (2 - 2 * t) * (2 - 2 * t) * (2 - 2 * t)) in *.
  setoid_replace (c / 2) with (c * (1 # 2)) by (unfold Qdiv; reflexivity).
  lra.
Qed.

(** C6. [easeInOutCubic] is 0 at 0, 1 at 1, one half at one half, and
    non-decreasing on the interval from 0 to 1. *)
Theorem easeInOutCubic_fixed_points_and_monotone :
  easeInOutCubic 0 == 0 /\
  easeInOutCubic 1 == 1 /\
  easeInOutCubic (1 # 2) == 1 # 2 /\
  forall a b, 0 <= a -> a <= b -> b <= 1 ->
              easeInOutCubic a <= easeInOutCubic b.
Proof.
  repeat split; try reflexivity.
  intros a b Ha Hab Hb.
  destruct (Qlt_le_dec a (1 # 2)) as [La | La];
    destruct (Qlt_le_dec b (1 # 2)) as [Lb | Lb].
  - rewrite (ease_low a La), (ease_low b Lb).
    assert (H := cube_mono a b Ha Hab).
    setoid_replace (4 * a * a * a) with (4 * (a * a * a)) by ring.
    setoid_replace (4 * b * b * b) with (4 * (b * b * b)) by ring.
    lra.
  - apply Qle_trans with (1 # 2).
    + apply ease_below_half; assumption.
    + apply ease_above_half; assumption.
  - lra.
  - rewrite (ease_high a La), (ease_high b Lb).
    assert (Hu : 0 <= 2 - 2 * b) by lra.
    assert (Hv : 2 - 2 * b <= 2 - 2 * a) by lra.
    assert (H := cube_mono _ _ Hu Hv).
    set (cb := (2 - 2 * b) * (2 - 2 * b) * (2 - 2 * b)) in *.
    set (ca := (2 - 2 * a) * (2 - 2 * a) * (2 - 2 * a)) in *.
    setoid_replace (ca / 2) with (ca * (1 # 2)) by (unfold Qdiv; reflexivity).
    setoid_replace (cb / 2) with (cb * (1 # 2)) by (unfold Qdiv; reflexivity).
    lra.
Qed.

Lemma easeInOutCubic_monotone_witness :
  easeInOutCubic (1 # 4) <= easeInOutCubic (3 # 4).
Proof.
  apply (proj2 (proj2 (proj2 easeInOutCubic_fixed_points_and_monotone)));
    unfold Qle; simpl; lia.
Defined.

(** ** The compositor *)

Lemma clamp01_below t : t < 0 -> clamp01 t = 0.
Proof.
  intros H. unfold clamp01, Num.max.
  apply NumFacts.ltb_lt in H. rewrite H. reflexivity.
Qed.

Lemma clamp01_above t : 1 < t -> clamp01 t = 1.
Proof.
  intros H. unfold clamp01, Num.max, Num.min.
  assert (H0 : Num.ltb t 0 = false) by (apply NumFacts.ltb_ge; lra).
  rewrite H0. apply NumFacts.gtb_gt in H. rewrite H. reflexivity.
Qed.

Lemma clamp01_fixed : clamp01 0 = 0 /\ clamp01 1 = 1.
Proof. split; reflexivity. Qed.

Lemma drawSlideFrame_clamp01 measureText cw ch slide image t c :
  clamp01 t = clamp01 c ->
  drawSlideFrame measureText cw ch slide image t
  = drawSlideFrame measureText cw ch slide image c.
Proof. intros H. unfold drawSlideFrame. rewrite H. reflexivity. Qed.

(** C7. A progress value outside the interval from 0 to 1 is clamped before
    the easing: the calls made for a negative [t] are those made for 0, and
    the calls made for a [t] above 1 are those made for 1. *)
Theorem drawSlideFrame_out_of_range measureText cw ch slide image t :
  (t < 0 ->
   clamp01 t = 0 /\
   drawSlideFrame measureText cw ch slide image t
   = drawSlideFrame measureText cw ch slide image 0) /\
  (1 < t ->
   clamp01 t = 1 /\
   drawSlideFrame measureText cw ch slide image t
   = drawSlideFrame measureText cw ch slide image 1).
Proof.
  split; intros H.
  - split; [apply clamp01_below; assumption |].
    apply drawSlideFrame_clamp01.
    rewrite (clamp01_below t H). symmetry. apply clamp01_fixed.
  - split; [apply clamp01_above; assumption |].
    apply drawSlideFrame_clamp01.
    rewrite (clamp01_above t H). symmetry. apply clamp01_fixed.
Qed.

Lemma drawSlideFrame_out_of_range_witness :
  drawSlideFrame (fun _ => charWidth 10) CANVAS_WIDTH CANVAS_HEIGHT
                 (Sample.slide 3 None) None (-(1))
  = drawSlideFrame (fun _ => charWidth 10) CANVAS_WIDTH CANVAS_HEIGHT
                   (Sample.slide 3 None) None 0
  /\
  drawSlideFrame (fun _ => charWidth 10) CANVAS_WIDTH CANVAS_HEIGHT
                 (Sample.slide 3 None) (Some Sample.picture) 2
  = drawSlideFrame (fun _ => charWidth 10) CANVAS_WIDTH CANVAS_HEIGHT
                   (Sample.slide 3 None) (Some Sample.picture) 1.
Proof.
  split.
  - apply (proj1 (drawSlideFrame_out_of_range (fun _ => charWidth 10)
                    CANVAS_WIDTH CANVAS_HEIGHT (Sample.slide 3 None) None
                    (-(1)))).
    reflexivity.
  - apply (proj2 (drawSlideFrame_out_of_range (fun _ => charWidth 10)
                    CANVAS_WIDTH CANVAS_HEIGHT (Sample.slide 3 None)
                    (Some Sample.picture) 2)).
    reflexivity.
Defined.

Lemma afterTranslate_app_no pre rest :
  (forall c, In c pre -> match c with Translate _ _ => False | _ => True end) ->
  afterTranslate (pre ++ rest) = afterTranslate rest.
Proof.
  induction pre as [| c pre IH]; intros H; [reflexivity |].
  simpl. assert (Hc := H c (or_introl eq_refl)).
  destruct c; try contradiction; apply IH; intros c' Hin; apply H; right;
    assumption.
Qed.

Lemma drawImageCover_no_translate cw ch img c :
  In c (drawImageCover cw ch img) ->
  match c with Translate _ _ => False | _ => True end.
Proof.
  unfold drawImageCover.
  destruct (Num.gtb (width img / height img) (cw / ch)); simpl;
    intros [<- | [<- | [<- | []]]]; exact I.
Qed.

(** The accent bar of every frame, read off the calls. *)
Lemma accentBar_drawSlideFrame measureText cw ch slide image t :
  accentBar (drawSlideFrame measureText cw ch slide image t)
  = Some (cw * (75 # 1000),
          baseYOf ch (alignment slide),
          Num.max (cw * (28 # 100) * easeInOutCubic (clamp01 t)) 1,
          ch * (75 # 10000)).
Proof.
  unfold accentBar, drawSlideFrame.
  destruct (renderWrappedText _ _ _ _ (title slide) _) as [titleCalls y1].
  destruct (renderWrappedText _ _ _ _ (subtitle slide) _) as [subCalls y2].
  cbn [app afterTranslate].
  rewrite afterTranslate_app_no.
  - reflexivity.
  - destruct image as [img |]; [apply drawImageCover_no_translate |].
    intros c [].
Qed.

(** C3, as the code has it.  The accent bar is drawn at [x] 7.5% of the canvas
    width and [y = baseY], and its width is the larger of
    [canvasWidth * 0.28 * eased] and one pixel: the animated width once that
    reaches one pixel, and one pixel below that. *)
Theorem accentBar_geometry measureText cw ch slide image t :
  exists w,
    accentBar (drawSlideFrame measureText cw ch slide image t)
    = Some (cw * (75 # 1000), baseYOf ch (alignment slide), w,
            ch * (75 # 10000)) /\
    (1 <= cw * (28 # 100) * easeInOutCubic (clamp01 t) ->
     w == cw * (28 # 100) * easeInOutCubic (clamp01 t)) /\
    (cw * (28 # 100) * easeInOutCubic (clamp01 t) < 1 -> w == 1).
Proof.
  eexists. split; [apply accentBar_drawSlideFrame |].
  unfold Num.max. split; intros H.
  - destruct (Num.ltb _ 1) eqn:E; [| reflexivity].
    apply NumFacts.ltb_lt in E. lra.
  - apply NumFacts.ltb_lt in H. rewrite H. reflexivity.
Qed.

Lemma accentBar_geometry_witness :
  exists w,
    accentBar (drawSlideFrame (fun _ => charWidth 10) CANVAS_WIDTH
                 CANVAS_HEIGHT (Sample.slide 3 None) None 1)
    = Some (CANVAS_WIDTH * (75 # 1000), baseYOf CANVAS_HEIGHT AlignCenter, w,
            CANVAS_HEIGHT * (75 # 10000)) /\
    w == 2016 # 10.
Proof.
  destruct (accentBar_geometry (fun _ => charWidth 10) CANVAS_WIDTH
              CANVAS_HEIGHT (Sample.slide 3 None) None 1)
    as [w [Hbar [Hwide _]]].
  exists w. split; [exact Hbar |].
  rewrite Hwide; [reflexivity |].
  unfold Qle; simpl; lia.
Defined.

(** C3, as the specification words it, fails at the first frame of an entrance: with
    eased progress 0 the animated width is 0, and the bar is drawn one pixel
    wide. *)
Lemma accentBar_width_at_zero :
  easeInOutCubic (clamp01 0) == 0 /\
  exists x y w h,
    accentBar (drawSlideFrame (fun _ => charWidth 10) CANVAS_WIDTH
                 CANVAS_HEIGHT (Sample.slide 3 None) None 0)
    = Some (x, y, w, h) /\
    w == 1 /\
    ~ w == CANVAS_WIDTH * (28 # 100) * easeInOutCubic (clamp01 0).
Proof.
  split; [reflexivity |].
  rewrite accentBar_drawSlideFrame.
  do 4 eexists. split; [reflexivity |].
  split; [reflexivity | discriminate].
Qed.

(** ** Text layout *)

Module StrFacts.

Import Str.
Local Open Scope string_scope.

Example split_two : split space "ab cd" = ["ab"; "cd"].
Proof. reflexivity. Qed.

Example split_gap : split space "a  b " = ["a"; ""; "b"; ""].
Proof. reflexivity. Qed.

Example split_empty : split space "" = [""].
Proof. reflexivity. Qed.

Example trimEnd_ex : trimEnd " a b  " = " a b".
Proof. reflexivity. Qed.

Example trim_ex : trim "  " = "".
Proof. reflexivity. Qed.

Lemma length_app (a b : string) :
  String.length (a ++ b) = (String.length a + String.length b)%nat.
Proof. induction a as [| c a IH]; simpl; [reflexivity | now rewrite IH]. Qed.

Lemma solid_no_space c w : solid (String c w) = true -> Ascii.eqb c space = false.
Proof.
  simpl. intros H. apply andb_prop in H. destruct H as [H _].
  destruct (Ascii.eqb_spec c space) as [-> | _]; [discriminate | reflexivity].
Qed.

Lemma split_solid w : solid w = true -> split space w = [w].
Proof.
  induction w as [| c w IH]; intros H; [reflexivity |].
  cbn [split]. rewrite (solid_no_space c w H).
  simpl in H. apply andb_prop in H. destruct H as [_ H].
  rewrite (IH H). reflexivity.
Qed.

Lemma split_solid_then w rest :
  solid w = true ->
  split space (w ++ String space rest) = w :: split space rest.
Proof.
  induction w as [| c w IH]; intros H.
  - reflexivity.
  - cbn [append split]. rewrite (solid_no_space c w H).
    simpl in H. apply andb_prop in H. destruct H as [_ H].
    rewrite (IH H). reflexivity.
Qed.

Lemma split_join ws :
  ws <> [] -> Forall (fun w => solid w = true) ws ->
  split space (join space ws) = ws.
Proof.
  induction ws as [| w rest IH]; intros Hne Hall; [congruence |].
  inversion Hall as [| ? ? Hw Hrest]; subst.
  destruct rest as [| w' rest'].
  - simpl. apply split_solid; assumption.
  - change (join space (w :: w' :: rest'))
      with (w ++ String space (join space (w' :: rest'))).
    rewrite (split_solid_then _ _ Hw), IH; [reflexivity | discriminate |].
    assumption.
Qed.

Lemma trimEnd_solid_space w : solid w = true -> trimEnd (w ++ " ") = w.
Proof.
  induction w as [| c w IH]; intros H; [reflexivity |].
  simpl in H. apply andb_prop in H. destruct H as [Hc Hw].
  cbn [append trimEnd]. rewrite (IH Hw).
  apply negb_true_iff in Hc.
  destruct w; [rewrite Hc |]; reflexivity.
Qed.

Lemma trim_solid_space w :
  solid w = true -> w <> "" -> trim (w ++ " ") = w.
Proof.
  intros H Hne. destruct w as [| c w]; [congruence |].
  unfold trim. cbn [append trimStart].
  assert (Hc : isWhite c = false).
  { simpl in H. apply andb_prop in H. destruct H as [Hc _].
    now apply negb_true_iff in Hc. }
  rewrite Hc.
  exact (trimEnd_solid_space (String c w) H).
Qed.

Lemma app_space_nonempty w : (w ++ " " =? "") = false.
Proof. destruct w; reflexivity. Qed.

End StrFacts.

Lemma cursorAfter_shift lh n y :
  cursorAfter lh n (y + lh) = cursorAfter lh n y + lh.
Proof. induction n as [| n IH]; simpl; [reflexivity | now rewrite IH]. Qed.

Lemma cursorAfter_linear lh n y :
  cursorAfter lh n y == y + inject_Z (Z.of_nat n) * lh.
Proof.
  induction n as [| n IH].
  - simpl. ring.
  - cbn [cursorAfter]. rewrite IH, Nat2Z.inj_succ. unfold Z.succ.
    rewrite inject_Z_plus. ring.
Qed.

Lemma linesAt_length x lh ws y : List.length (linesAt x lh ws y) = List.length ws.
Proof.
  revert y. induction ws as [| w rest IH]; intros y; simpl;
    [reflexivity | now rewrite IH].
Qed.

Lemma linesAt_nth x lh ws : forall y i w,
  nth_error ws i = Some w ->
  nth_error (linesAt x lh ws y) i = Some (FillText w x (cursorAfter lh i y)).
Proof.
  induction ws as [| w0 rest IH]; intros y i w H.
  - destruct i; discriminate.
  - destruct i as [| i]; simpl in *.
    + congruence.
    + rewrite (IH (y + lh) i w H), cursorAfter_shift. reflexivity.
Qed.

Lemma linesAt_snoc x lh ws w y :
  linesAt x lh (ws ++ [w]) y
  = linesAt x lh ws y ++ [FillText w x (cursorAfter lh (List.length ws) y)].
Proof.
  revert y. induction ws as [| w0 rest IH]; intros y; simpl.
  - reflexivity.
  - rewrite IH, cursorAfter_shift. reflexivity.
Qed.

Lemma last_default_irrelevant {A} (a : A) l d d' :
  last (a :: l) d = last (a :: l) d'.
Proof.
  revert a. induction l as [| b l IH]; intros a; [reflexivity |].
  change (last (b :: l) d = last (b :: l) d'). apply IH.
Qed.

Lemma last_cons {A} (a : A) l d : last (a :: l) d = last l a.
Proof.
  destruct l as [| b l]; [reflexivity |].
  change (last (b :: l) d = last (b :: l) a). apply last_default_irrelevant.
Qed.

Lemma removelast_cons_length {A} (a : A) l :
  List.length (removelast (a :: l)) = List.length l.
Proof.
  revert a. induction l as [| b l IH]; intros a; [reflexivity |].
  change (S (List.length (removelast (b :: l))) = S (List.length l)).
  now rewrite IH.
Qed.

Lemma linesAt_removelast_last x lh w rest y :
  linesAt x lh (removelast (w :: rest)) y
  ++ [FillText (last rest w) x (cursorAfter lh (List.length rest) y)]
  = linesAt x lh (w :: rest) y.
Proof.
  rewrite <- (last_cons w rest w).
  rewrite <- (removelast_cons_length w rest).
  rewrite <- linesAt_snoc, <- app_removelast_last by discriminate.
  reflexivity.
Qed.

Section Wrapping.

Variables (k x maxWidth lineHeight : Q).
Hypothesis k_nonneg : 0 <= k.

Local Abbreviation wide := (wideWord k maxWidth).

Lemma two_wide_overflow a b :
  wide a -> wide b ->
  Num.gtb (charWidth k ((a ++ " ") ++ b ++ " ")) maxWidth = true.
Proof.
  intros [_ [_ Ha]] [_ [_ Hb]]. apply NumFacts.gtb_gt.
  unfold charWidth in *.
  rewrite !StrFacts.length_app. simpl String.length.
  rewrite !Nat2Z.inj_add, !inject_Z_plus. simpl (Z.of_nat 1).
  set (la := inject_Z (Z.of_nat (String.length a))) in *.
  set (lb := inject_Z (Z.of_nat (String.length b))) in *.
  setoid_replace (maxWidth / 2) with (maxWidth * (1 # 2)) in Ha
    by (unfold Qdiv; reflexivity).
  setoid_replace (maxWidth / 2) with (maxWidth * (1 # 2)) in Hb
    by (unfold Qdiv; reflexivity).
  setoid_replace (k * (la + inject_Z 1 + (lb + inject_Z 1)))
    with (k * la + k * lb + 2 * k) by (simpl; ring).
  lra.
Qed.

(** Once a wide word is pending on the line, every further wide word
    commits the pending one and takes its place. *)
Lemma wrapWords_wide : forall ws prev y,
  wide prev -> Forall wide ws ->
  wrapWords (charWidth k) x maxWidth lineHeight ws (prev ++ " ") y
  = (linesAt x lineHeight (removelast (prev :: ws)) y,
     ((last ws prev ++ " ")%string,
      cursorAfter lineHeight (List.length ws) y)).
Proof.
  induction ws as [| w rest IH]; intros prev y Hprev Hall.
  - reflexivity.
  - inversion Hall as [| ? ? Hw Hrest]; subst.
    cbn [wrapWords].
    rewrite (two_wide_overflow prev w Hprev Hw).
    rewrite StrFacts.app_space_nonempty. cbn [negb andb].
    rewrite (IH w (y + lineHeight) Hw Hrest).
    destruct Hprev as [_ [Hsolid _]].
    rewrite (StrFacts.trimEnd_solid_space prev Hsolid).
    cbn [List.length cursorAfter]. rewrite cursorAfter_shift.
    destruct rest as [| w' rest']; [reflexivity |].
    change (last (w :: w' :: rest') prev) with (last (w' :: rest') prev).
    rewrite (last_default_irrelevant w' rest' prev w).
    reflexivity.
Qed.

Lemma last_wide ws prev :
  wide prev -> Forall wide ws -> wide (last ws prev).
Proof.
  revert prev. induction ws as [| w rest IH]; intros prev Hp Hall.
  - exact Hp.
  - inversion Hall; subst. destruct rest as [| w' rest']; [assumption |].
    change (wide (last (w' :: rest') prev)).
    apply IH; assumption.
Qed.

Lemma renderWrappedText_wide ws y :
  ws <> [] -> Forall wide ws ->
  renderWrappedText (charWidth k) x maxWidth lineHeight
                    (Str.join Str.space ws) y
  = (linesAt x lineHeight ws y, cursorAfter lineHeight (List.length ws) y).
Proof.
  intros Hne Hall. unfold renderWrappedText.
  rewrite StrFacts.split_join;
    [| assumption
     | eapply Forall_impl; [| exact Hall]; intros w [_ [H _]]; exact H].
  destruct ws as [| w rest]; [congruence |].
  inversion Hall as [| ? ? Hw Hrest]; subst.
  cbn [wrapWords]. rewrite andb_false_r.
  change (("" ++ w ++ " ")%string) with ((w ++ " ")%string).
  rewrite (wrapWords_wide rest w y Hw Hrest).
  assert (Hl := last_wide rest w Hw Hrest).
  destruct Hl as [Hl1 [Hl2 _]].
  rewrite (StrFacts.trim_solid_space _ Hl2 Hl1).
  rewrite (StrFacts.trimEnd_solid_space _ Hl2).
  apply String.eqb_neq in Hl1. rewrite Hl1. cbn [negb].
  f_equal. apply linesAt_removelast_last.
Qed.

End Wrapping.

Lemma renderWrappedText_empty measure x maxWidth lineHeight y :
  renderWrappedText measure x maxWidth lineHeight "" y = ([], y + lineHeight).
Proof.
  unfold renderWrappedText. simpl. rewrite andb_false_r. reflexivity.
Qed.

(** C8. Under a measurer that reports [k] per character, a text made of [N]
    words separated by single spaces, each word wider than half of
    [maxWidth], is committed as [N] lines, the [i]-th word alone on the
    [i]-th line at [y + i * lineHeight], and the cursor returned is
    [y + N * lineHeight].  The empty text commits no line and returns
    [y + lineHeight], under any measurer. *)
Theorem renderWrappedText_greedy k x maxWidth lineHeight y :
  (forall words,
      0 <= k -> words <> [] -> Forall (wideWord k maxWidth) words ->
      exists calls cursor,
        renderWrappedText (charWidth k) x maxWidth lineHeight
                          (Str.join Str.space words) y
        = (calls, cursor) /\
        List.length calls = List.length words /\
        (forall i w,
            nth_error words i = Some w ->
            exists yi,
              nth_error calls i = Some (FillText w x yi) /\
              yi == y + inject_Z (Z.of_nat i) * lineHeight) /\
        cursor == y + inject_Z (Z.of_nat (List.length words)) * lineHeight) /\
  (forall measure,
      renderWrappedText measure x maxWidth lineHeight "" y
      = ([], y + lineHeight)).
Proof.
  split.
  - intros words Hk Hne Hall.
    exists (linesAt x lineHeight words y),
           (cursorAfter lineHeight (List.length words) y).
    split; [apply renderWrappedText_wide; assumption |].
    split; [apply linesAt_length |].
    split; [| apply cursorAfter_linear].
    intros i w Hi. exists (cursorAfter lineHeight i y).
    split; [apply linesAt_nth; assumption | apply cursorAfter_linear].
  - intros measure. apply renderWrappedText_empty.
Qed.

Lemma renderWrappedText_greedy_witness :
  exists calls cursor,
    renderWrappedText (charWidth 10) 54 80 20 "hello world" 5
    = (calls, cursor) /\
    List.length calls = 2%nat /\
    cursor == 45.
Proof.
  destruct (proj1 (renderWrappedText_greedy 10 54 80 20 5)
              ["hello"; "world"]%string)
    as [calls [cursor [Hrun [Hlen [_ Hcur]]]]].
  - unfold Qle; simpl; lia.
  - discriminate.
  - repeat constructor; try discriminate; reflexivity.
  - exists calls, cursor. split; [exact Hrun |]. split; [exact Hlen |].
    rewrite Hcur. reflexivity.
Defined.

Example wrap_hello_world :
  renderWrappedText (charWidth 10) 54 80 20 "hello world" 5
  = ([FillText "hello" 54 5; FillText "world" 54 (5 + 20)], 5 + 20 + 20).
Proof. reflexivity. Qed.

Example wrap_fits_on_one_line :
  renderWrappedText (charWidth 10) 54 200 20 "hello world" 5
  = ([FillText "hello world" 54 5], 5 + 20).
Proof. reflexivity. Qed.

(** ** The export run *)

(** *** What a computation may add to the log *)

Lemma Emits_ret P {A} (a : A) : Emits P (ret a).
Proof.
  intros r r' res H. inversion H; subst. split; [reflexivity |].
  exists []. now rewrite app_nil_r.
Qed.

Lemma Emits_throw P {A} e : Emits P (@throw A e).
Proof.
  intros r r' res H. inversion H; subst. split; [reflexivity |].
  exists []. now rewrite app_nil_r.
Qed.

Lemma Emits_emit (P : Action -> bool) a : P a = true -> Emits P (emit a).
Proof.
  intros Ha r r' res H. inversion H; subst. split; [reflexivity |].
  exists [a]. split; [reflexivity |]. simpl. now rewrite Ha.
Qed.

Lemma Emits_update P f :
  (forall r, log (f r) = log r /\ capturedFrames (f r) = capturedFrames r) ->
  Emits P (update f).
Proof.
  intros Hf r r' res H. inversion H; subst.
  destruct (Hf r) as [Hl Hc]. split; [exact Hc |].
  exists []. now rewrite app_nil_r.
Qed.

Lemma Emits_bind P {A B} (m : M A) (k : A -> M B) :
  Emits P m -> (forall a, Emits P (k a)) -> Emits P (bind m k).
Proof.
  intros Hm Hk r r' res H. unfold bind in H.
  destruct (m r) as [r1 [e | a]] eqn:E.
  - inversion H; subst. exact (Hm _ _ _ E).
  - destruct (Hm _ _ _ E) as [Hc1 [l1 [Hl1 Hp1]]].
    destruct (Hk a _ _ _ H) as [Hc2 [l2 [Hl2 Hp2]]].
    split; [congruence |].
    exists (l1 ++ l2). rewrite Hl2, Hl1, app_assoc. split; [reflexivity |].
    rewrite forallb_app, Hp1, Hp2. reflexivity.
Qed.

Lemma Emits_when P b m : Emits P m -> Emits P (when b m).
Proof. intros H. unfold when. destruct b; [exact H | apply Emits_ret]. Qed.

Ltac emits :=
  repeat first
    [ apply Emits_bind; [| intros ?]
    | apply Emits_ret
    | apply Emits_throw
    | apply Emits_when
    | apply Emits_emit; reflexivity
    | apply Emits_update; intros ?; split; reflexivity ].

Lemma Emits_ensure host : Emits isPrep (ensureMediaRecorder host).
Proof.
  unfold ensureMediaRecorder.
  destruct (hasWindow host), (hasMediaRecorder host); emits.
Qed.

Lemma Emits_pick host candidates : Emits isPrep (pickRecorder host candidates).
Proof.
  induction candidates as [| mime rest IH]; cbn [pickRecorder]; [emits |].
  apply Emits_bind.
  - destruct (isTypeSupported host); emits.
  - intros [|]; [exact IH |].
    apply Emits_bind; [emits |]. intros _.
    destruct (newMediaRecorder host (Some mime)); [| emits].
    apply Emits_bind; [emits | intros _; exact IH].
Qed.

Lemma Emits_negotiate host : Emits isPrep (negotiateRecorder host).
Proof.
  unfold negotiateRecorder. apply Emits_bind; [apply Emits_pick |].
  intros [recorder |]; [emits |].
  apply Emits_bind; [emits |]. intros _.
  destruct (newMediaRecorder host None); emits.
Qed.

Lemma Emits_loadImage host url : Emits isPrep (loadImage host url).
Proof.
  unfold loadImage. destruct url as [u |]; [| emits].
  destruct (String.eqb u ""); emits.
Qed.

Lemma Emits_mapM P {A B} (f : A -> M B) l :
  (forall a, Emits P (f a)) -> Emits P (mapM f l).
Proof.
  intros Hf. induction l as [| a rest IH]; cbn [mapM]; [emits |].
  apply Emits_bind; [apply Hf |]. intros b.
  apply Emits_bind; [exact IH |]. intros bs. emits.
Qed.

Lemma Emits_prefetch host slides : Emits isPrep (prefetchImages host slides).
Proof. apply Emits_mapM. intros s. apply Emits_loadImage. Qed.

Lemma Emits_resolve : Emits isSettle resolve.
Proof.
  unfold resolve. apply Emits_bind; [emits |]. intros _.
  apply Emits_update. intros r. destruct (promise r); split; reflexivity.
Qed.

Lemma Emits_reject e : Emits isSettle (reject e).
Proof.
  unfold reject. apply Emits_bind; [emits |]. intros _.
  apply Emits_update. intros r. destruct (promise r); split; reflexivity.
Qed.

Lemma Emits_dispatch ev : Emits isSettle (dispatch ev).
Proof.
  destruct ev as [[c |] | [| [name |]] |]; cbn [dispatch onDataAvailable onError onStop];
    try apply Emits_reject; try (emits; fail).
  apply Emits_bind; [emits | intros _; apply Emits_resolve].
Qed.

Lemma Emits_dispatchAll evs : Emits isSettle (dispatchAll evs).
Proof.
  induction evs as [| ev rest IH]; cbn [dispatchAll]; [emits |].
  apply Emits_bind; [apply Emits_dispatch | intros _; exact IH].
Qed.

(** The recorder's handlers never throw. *)
Lemma dispatchAll_returns evs r : exists r', dispatchAll evs r = (r', inr tt).
Proof.
  revert r. induction evs as [| ev rest IH]; intros r; [eexists; reflexivity |].
  cbn [dispatchAll]. unfold bind.
  assert (H : exists r1, dispatch ev r = (r1, inr tt)).
  { destruct ev as [[c |] | [| [name |]] |];
      cbn; try destruct (0 <? size c)%Z; eexists; reflexivity. }
  destruct H as [r1 ->]. apply IH.
Qed.

(** *** Reading frames and progress reports off a log *)

Lemma drawnFrames_app l l' :
  drawnFrames (l ++ l') = drawnFrames l ++ drawnFrames l'.
Proof.
  induction l as [| a l IH]; [reflexivity |].
  destruct a; simpl; rewrite ?IH; reflexivity.
Qed.

Lemma progressValues_app l l' :
  progressValues (l ++ l') = progressValues l ++ progressValues l'.
Proof.
  induction l as [| a l IH]; [reflexivity |].
  destruct a; simpl; rewrite ?IH; reflexivity.
Qed.

Lemma reportState_app l l' :
  reportState (l ++ l') = fold_left reportStep l' (reportState l).
Proof. unfold reportState. apply fold_left_app. Qed.

Lemma inert_drawn l : forallb inert l = true -> drawnFrames l = [].
Proof.
  induction l as [| a l IH]; [reflexivity |].
  simpl. intros H. apply andb_prop in H. destruct H as [Ha Hl].
  destruct a; try discriminate; auto.
Qed.

Lemma inert_progress l : forallb inert l = true -> progressValues l = [].
Proof.
  induction l as [| a l IH]; [reflexivity |].
  simpl. intros H. apply andb_prop in H. destruct H as [Ha Hl].
  destruct a; try discriminate; auto.
Qed.

Lemma inert_report l st : forallb inert l = true -> fold_left reportStep l st = st.
Proof.
  revert st. induction l as [| a l IH]; intros st H; [reflexivity |].
  simpl in H. apply andb_prop in H. destruct H as [Ha Hl].
  simpl. rewrite (IH _ Hl).
  destruct st as [[|] |], a; try discriminate; reflexivity.
Qed.

Lemma prep_inert a : isPrep a = true -> inert a = true.
Proof. destruct a; auto. Qed.

Lemma settle_inert a : isSettle a = true -> inert a = true.
Proof. destruct a; auto; discriminate. Qed.

Lemma forallb_impl {A} (P Q : A -> bool) l :
  (forall a, P a = true -> Q a = true) ->
  forallb P l = true -> forallb Q l = true.
Proof. intros H. rewrite !forallb_forall. auto. Qed.

(** *** What the render loop is expected to produce *)

Lemma countUp_app from n m :
  countUp from (n + m) = countUp from n ++ countUp (from + Z.of_nat n) m.
Proof.
  revert from. induction n as [| n IH]; intros from.
  - simpl. now rewrite Z.add_0_r.
  - cbn [Nat.add countUp app]. rewrite IH. do 3 f_equal. lia.
Qed.

Lemma reportsOf_app cb total from n m :
  reportsOf cb total from (n + m)
  = reportsOf cb total from n ++ reportsOf cb total (from + Z.of_nat n) m.
Proof.
  unfold reportsOf. destruct cb; [| reflexivity].
  now rewrite countUp_app, map_app.
Qed.

Lemma frameCountOf_pos slide : (1 <= frameCountOf slide)%Z.
Proof. unfold frameCountOf. lia. Qed.

Lemma totalFramesOf_from acc slides :
  fold_left (fun a s => (a + frameCountOf s)%Z) slides acc
  = (acc + totalFramesOf slides)%Z.
Proof.
  unfold totalFramesOf. revert acc.
  induction slides as [| s rest IH]; intros acc; simpl; [lia |].
  rewrite IH, (IH (frameCountOf s)). lia.
Qed.

Lemma totalFramesOf_cons s rest :
  totalFramesOf (s :: rest) = (frameCountOf s + totalFramesOf rest)%Z.
Proof. unfold totalFramesOf at 1. simpl. apply totalFramesOf_from. Qed.

Lemma totalFramesOf_nonneg slides : (0 <= totalFramesOf slides)%Z.
Proof.
  induction slides as [| s rest IH]; [reflexivity |].
  rewrite totalFramesOf_cons. pose proof (frameCountOf_pos s). lia.
Qed.

Section RenderFacts.

Variable host : Host.
Variable onProgress : ProgressCallback.
Variable totalFrames : Z.
Variable images : list (option HTMLImageElement).
Hypothesis normal : returnsNormally onProgress.

Lemma frameLoop_unfold index slide image frameCount todo frame r :
  frameLoop host onProgress totalFrames index slide image frameCount
            (S todo) frame r
  = bind (dispatchAll (sinkEvents host (capturedFrames r + 1)%Z))
         (fun _ => frameLoop host onProgress totalFrames index slide image
                             frameCount todo (frame + 1)%Z)
         (mkRun (log r ++ frameActions host onProgress totalFrames index slide image frameCount frame
                                       (capturedFrames r + 1)%Z)
                (promise r) (chunks r) (recording r)
                (capturedFrames r + 1)%Z).
Proof.
  cbn [frameLoop]. unfold frameActions, callProgress.
  destruct onProgress as [callback |].
  - destruct (trackRequestFrame host);
      unfold bind at 1 2 3 4 5 6; cbn -[Z.add Qdiv inject_Z sleepMs];
      rewrite normal; cbn -[Z.add Qdiv inject_Z sleepMs];
      rewrite <- !app_assoc; reflexivity.
  - destruct (trackRequestFrame host);
      unfold bind at 1 2 3 4 5 6; cbn -[Z.add Qdiv inject_Z sleepMs];
      rewrite <- !app_assoc; reflexivity.
Qed.

Lemma frameActions_drawn index slide image frameCount frame captured :
  drawnFrames (frameActions host onProgress totalFrames index slide image frameCount frame captured)
  = [(index, slide, image, frameProgressOf frameCount frame)].
Proof.
  unfold frameActions.
  destruct (trackRequestFrame host), onProgress; reflexivity.
Qed.

Lemma frameActions_progress index slide image frameCount frame from :
  progressValues
    (frameActions host onProgress totalFrames index slide image frameCount frame (from + 1)%Z)
  = reportsOf onProgress totalFrames from 1.
Proof.
  unfold frameActions, reportsOf.
  destruct (trackRequestFrame host), onProgress; reflexivity.
Qed.

Lemma frameActions_report index slide image frameCount frame captured st :
  fold_left reportStep
            (frameActions host onProgress totalFrames index slide image frameCount frame captured) st
  = settled onProgress st.
Proof.
  unfold frameActions, settled.
  destruct (trackRequestFrame host), onProgress, st as [[|] |]; reflexivity.
Qed.

Lemma settled_idem st : settled onProgress (settled onProgress st) = settled onProgress st.
Proof. unfold settled. destruct st, onProgress; reflexivity. Qed.

(** Recorder events leave frames, reports and the counter alone. *)
Lemma dispatchAll_quiet evs r :
  exists r',
    dispatchAll evs r = (r', inr tt) /\
    capturedFrames r' = capturedFrames r /\
    drawnFrames (log r') = drawnFrames (log r) /\
    progressValues (log r') = progressValues (log r) /\
    reportState (log r') = reportState (log r).
Proof.
  destruct (dispatchAll_returns evs r) as [r' E]. exists r'.
  destruct (Emits_dispatchAll evs _ _ _ E) as [Hc [l [Hl Hp]]].
  apply (forallb_impl _ _ _ settle_inert) in Hp.
  rewrite Hl, drawnFrames_app, progressValues_app, reportState_app.
  rewrite (inert_drawn _ Hp), (inert_progress _ Hp), (inert_report _ _ Hp).
  rewrite !app_nil_r. auto.
Qed.

Lemma frameLoop_runs index slide image frameCount :
  forall todo frame r,
  exists r',
    frameLoop host onProgress totalFrames index slide image frameCount
              todo frame r = (r', inr tt) /\
    capturedFrames r' = (capturedFrames r + Z.of_nat todo)%Z /\
    drawnFrames (log r')
    = drawnFrames (log r)
      ++ map (fun f => (index, slide, image,
                        frameProgressOf frameCount (frame + Z.of_nat f)))
             (seq 0 todo) /\
    progressValues (log r')
    = progressValues (log r)
      ++ reportsOf onProgress totalFrames (capturedFrames r) todo /\
    reportState (log r')
    = match todo with
      | O => reportState (log r)
      | S _ => settled onProgress (reportState (log r))
      end.
Proof.
  induction todo as [| todo IH]; intros frame r.
  - exists r. cbn. rewrite !app_nil_r, Z.add_0_r.
    unfold reportsOf. destruct onProgress; cbn; rewrite ?app_nil_r; auto.
  - rewrite frameLoop_unfold. unfold bind.
    set (r1 := mkRun _ _ _ _ _).
    destruct (dispatchAll_quiet (sinkEvents host (capturedFrames r + 1)%Z) r1)
      as [r2 [E2 [Hc2 [Hd2 [Hp2 Hs2]]]]].
    rewrite E2.
    destruct (IH (frame + 1)%Z r2) as [r3 [E3 [Hc3 [Hd3 [Hp3 Hs3]]]]].
    exists r3. split; [exact E3 |].
    subst r1. cbn [log capturedFrames] in *.
    rewrite drawnFrames_app, frameActions_drawn in Hd2.
    rewrite progressValues_app, frameActions_progress in Hp2.
    rewrite reportState_app, frameActions_report in Hs2.
    split; [lia |]. split; [| split].
    + rewrite Hd3, Hd2, <- app_assoc. f_equal.
      cbn [seq map app]. rewrite Z.add_0_r. f_equal.
      rewrite <- seq_shift, map_map. apply map_ext. intros f.
      do 2 f_equal. lia.
    + rewrite Hp3, Hp2, Hc2, <- app_assoc. f_equal.
      change (S todo) with (1 + todo)%nat. rewrite reportsOf_app.
      reflexivity.
    + rewrite Hs3, Hs2. destruct todo; [reflexivity | apply settled_idem].
Qed.

Lemma slideLoop_runs : forall slides index r,
  exists r',
    slideLoop host onProgress totalFrames images index slides r
    = (r', inr tt) /\
    capturedFrames r' = (capturedFrames r + totalFramesOf slides)%Z /\
    drawnFrames (log r')
    = drawnFrames (log r) ++ expectedFrames images index slides /\
    progressValues (log r')
    = progressValues (log r)
      ++ reportsOf onProgress totalFrames (capturedFrames r)
                   (Z.to_nat (totalFramesOf slides)) /\
    reportState (log r')
    = match slides with
      | [] => reportState (log r)
      | _ :: _ => settled onProgress (reportState (log r))
      end.
Proof.
  induction slides as [| slide rest IH]; intros index r.
  - exists r. cbn. rewrite !app_nil_r, Z.add_0_r.
    unfold reportsOf. destruct onProgress; cbn; rewrite ?app_nil_r; auto.
  - cbn [slideLoop]. unfold bind.
    destruct (frameLoop_runs index slide (imageAt images index)
                (frameCountOf slide) (Z.to_nat (frameCountOf slide)) 0%Z r)
      as [r1 [E1 [Hc1 [Hd1 [Hp1 Hs1]]]]].
    rewrite E1.
    destruct (IH (S index) r1) as [r2 [E2 [Hc2 [Hd2 [Hp2 Hs2]]]]].
    exists r2. split; [exact E2 |].
    pose proof (frameCountOf_pos slide) as Hpos.
    pose proof (totalFramesOf_nonneg rest) as Hnn.
    rewrite totalFramesOf_cons.
    rewrite Z2Nat.id in Hc1 by lia.
    split; [lia |]. split; [| split].
    + rewrite Hd2, Hd1, <- app_assoc. reflexivity.
    + rewrite Hp2, Hp1, Hc1, <- app_assoc. f_equal.
      rewrite Z2Nat.inj_add by lia. rewrite reportsOf_app.
      rewrite Z2Nat.id by lia. reflexivity.
    + rewrite Hs2, Hs1.
      destruct (Z.to_nat (frameCountOf slide)) eqn:En; [lia |].
      destruct rest; [reflexivity | apply settled_idem].
Qed.

End RenderFacts.

(** *** The two halves of the export *)

Lemma bind_assoc {A B C} (m : M A) (f : A -> M B) (g : B -> M C) r :
  bind (bind m f) g r = bind m (fun a => bind (f a) g) r.
Proof. unfold bind. destruct (m r) as [r' [e | a]]; reflexivity. Qed.

Lemma bind_cong {A B} (m : M A) (k1 k2 : A -> M B) r :
  (forall a r', k1 a r' = k2 a r') -> bind m k1 r = bind m k2 r.
Proof. intros H. unfold bind. destruct (m r) as [r' [e | a]]; auto. Qed.

Lemma exportBody_split host slides onProgress r :
  exportBody host slides onProgress r
  = bind (prepare host slides)
         (fun p => perform host slides onProgress (fst p) (snd p)) r.
Proof.
  unfold exportBody, prepare. symmetry. revert r.
  repeat (intros ?; rewrite bind_assoc; apply bind_cong; intros ?).
  intros ?. reflexivity.
Qed.

Lemma bind_inr {A B} (m : M A) (k : A -> M B) r r' b :
  bind m k r = (r', inr b) ->
  exists r1 a, m r = (r1, inr a) /\ k a r1 = (r', inr b).
Proof.
  unfold bind. destruct (m r) as [r1 [e | a]]; intros H; [discriminate |].
  exists r1, a. auto.
Qed.

Ltac bind_inv H :=
  let r1 := fresh "r" in
  let a := fresh "a" in
  let E := fresh "E" in
  apply bind_inr in H; destruct H as [r1 [a [E H]]].

Lemma Emits_prepare host slides : Emits isPrep (prepare host slides).
Proof.
  unfold prepare.
  apply Emits_bind; [apply Emits_ensure | intros _].
  apply Emits_bind; [destruct (List.length slides =? 0)%nat; emits | intros _].
  apply Emits_bind; [emits | intros _].
  apply Emits_bind; [emits | intros _].
  apply Emits_bind; [destruct (context2d host); emits | intros _].
  apply Emits_bind; [emits | intros _].
  apply Emits_bind; [apply Emits_negotiate | intros recorder].
  apply Emits_bind; [apply Emits_prefetch | intros images].
  emits.
Qed.

Lemma pickRecorder_result host : forall candidates r r' recorder,
  pickRecorder host candidates r = (r', inr (Some recorder)) ->
  exists mime, In mime candidates /\
               newMediaRecorder host (Some mime) = inr recorder.
Proof.
  induction candidates as [| mime rest IH]; intros r r' recorder H.
  - inversion H.
  - cbn [pickRecorder] in H. bind_inv H.
    destruct a as [|].
    + destruct (IH _ _ _ H) as [m [Hin Hm]]. exists m. split; [now right | exact Hm].
    + bind_inv H.
      destruct (newMediaRecorder host (Some mime)) as [e | rec] eqn:En.
      * bind_inv H. destruct (IH _ _ _ H) as [m [Hin Hm]].
        exists m. split; [now right | exact Hm].
      * inversion H; subst. exists mime. split; [now left | exact En].
Qed.

Lemma negotiateRecorder_result host r r' recorder :
  negotiateRecorder host r = (r', inr recorder) -> negotiatedBy host recorder.
Proof.
  unfold negotiateRecorder. intros H. bind_inv H.
  destruct a as [rec |].
  - inversion H; subst.
    destruct (pickRecorder_result _ _ _ _ _ E) as [m [Hin Hm]].
    exists (Some m). auto.
  - bind_inv H.
    destruct (newMediaRecorder host None) as [e | rec] eqn:En;
      inversion H; subst.
    exists None. auto.
Qed.

Lemma loadImage_result host slide r :
  exists r',
    loadImage host (imageDataUrl slide) r = (r', inr (resolveImage host slide)).
Proof.
  unfold loadImage, resolveImage.
  destruct (imageDataUrl slide) as [u |]; [| eexists; reflexivity].
  destruct (String.eqb u ""); eexists; reflexivity.
Qed.

Lemma prefetchImages_result host : forall slides r,
  exists r',
    prefetchImages host slides r = (r', inr (map (resolveImage host) slides)).
Proof.
  unfold prefetchImages.
  induction slides as [| slide rest IH]; intros r; [eexists; reflexivity |].
  cbn [mapM map]. unfold bind at 1.
  destruct (loadImage_result host slide r) as [r1 ->].
  unfold bind at 1.
  destruct (IH r1) as [r2 ->]. eexists; reflexivity.
Qed.

Lemma prepare_result host slides r r' recorder images :
  prepare host slides r = (r', inr (recorder, images)) ->
  slides <> [] /\
  negotiatedBy host recorder /\
  images = map (resolveImage host) slides.
Proof.
  unfold prepare. intros H.
  bind_inv H. bind_inv H.
  assert (Hne : slides <> []).
  { destruct slides; [discriminate | discriminate]. }
  do 4 bind_inv H. bind_inv H. bind_inv H.
  inversion H; subst.
  split; [exact Hne |]. split.
  - eapply negotiateRecorder_result; eassumption.
  - match goal with
    | Hp : prefetchImages _ _ ?s = _ |- _ =>
        destruct (prefetchImages_result host slides s) as [? Hr];
        rewrite Hr in Hp; inversion Hp; reflexivity
    end.
Qed.

Lemma export_cases host slides onProgress :
  (exists r e,
      prepare host slides initialRun = (r, inl e) /\
      exportSlidesToVideo host slides onProgress = (log r, Failed e)) \/
  (exists r recorder images,
      prepare host slides initialRun = (r, inr (recorder, images)) /\
      exportBody host slides onProgress initialRun
      = perform host slides onProgress recorder images r).
Proof.
  unfold exportSlidesToVideo. rewrite exportBody_split. unfold bind.
  destruct (prepare host slides initialRun) as [r [e | [recorder images]]].
  - left. exists r, e. auto.
  - right. exists r, recorder, images. auto.
Qed.

Lemma prepare_log host slides r res :
  prepare host slides initialRun = (r, res) ->
  capturedFrames r = 0%Z /\ forallb isPrep (log r) = true.
Proof.
  intros H. destruct (Emits_prepare host slides _ _ _ H) as [Hc [l [Hl Hp]]].
  split; [exact Hc |]. now rewrite Hl.
Qed.

Lemma perform_returns host slides onProgress recorder images r r' recorder' :
  perform host slides onProgress recorder images r = (r', inr recorder') ->
  recorder' = recorder.
Proof.
  unfold perform. intros H.
  bind_inv H. bind_inv H. bind_inv H. inversion H; subst. reflexivity.
Qed.

Lemma recorderStart_run r :
  recorderStart r
  = (mkRun (log r ++ [RecorderStart]) (promise r) (chunks r) true
           (capturedFrames r), inr tt).
Proof. reflexivity. Qed.

Lemma recorderStop_run r :
  recorderStop r
  = (mkRun (log r ++ [RecorderStop]) (promise r) (chunks r) false
           (capturedFrames r), inr tt).
Proof. reflexivity. Qed.

Lemma perform_runs host slides onProgress recorder images r :
  returnsNormally onProgress ->
  exists r',
    perform host slides onProgress recorder images r = (r', inr recorder) /\
    drawnFrames (log r')
    = drawnFrames (log r) ++ expectedFrames images 0 slides /\
    progressValues (log r')
    = progressValues (log r)
      ++ reportsOf onProgress (totalFramesOf slides) (capturedFrames r)
                   (Z.to_nat (totalFramesOf slides)) /\
    reportState (log r')
    = match slides with
      | [] => reportState (log r)
      | _ :: _ => settled onProgress (reportState (log r))
      end.
Proof.
  intros normal. unfold perform, renderTask, catch.
  unfold bind at 1. rewrite recorderStart_run.
  set (r0 := mkRun (log r ++ [RecorderStart]) _ _ _ _).
  unfold bind at 1. unfold bind at 1.
  destruct (slideLoop_runs host onProgress (totalFramesOf slides) images
              normal slides 0%nat r0) as [r1 [E1 [Hc1 [Hd1 [Hp1 Hs1]]]]].
  rewrite E1, recorderStop_run.
  set (r2 := mkRun (log r1 ++ [RecorderStop]) _ _ _ _).
  unfold bind at 1.
  destruct (dispatchAll_quiet (finalEvents host) r2)
    as [r3 [E3 [Hc3 [Hd3 [Hp3 Hs3]]]]].
  rewrite E3. exists r3. split; [reflexivity |].
  subst r0 r2. cbn [log capturedFrames] in *.
  rewrite drawnFrames_app, app_nil_r in Hd3.
  rewrite progressValues_app, app_nil_r in Hp3.
  rewrite reportState_app in Hs3. cbn [fold_left] in Hs3.
  rewrite drawnFrames_app, app_nil_r in Hd1.
  rewrite progressValues_app, app_nil_r in Hp1.
  rewrite reportState_app in Hs1. cbn [fold_left] in Hs1.
  assert (Hstep : forall st, reportStep st RecorderStart = st
                             /\ reportStep st RecorderStop = st).
  { intros [[|] |]; split; reflexivity. }
  rewrite (proj1 (Hstep _)) in Hs1. rewrite (proj2 (Hstep _)) in Hs3.
  split; [congruence |]. split; [congruence |].
  rewrite Hs3, Hs1. reflexivity.
Qed.

Lemma prep_no_start l : forallb isPrep l = true -> ~ In RecorderStart l.
Proof.
  intros H Hin. rewrite forallb_forall in H. specialize (H _ Hin).
  discriminate.
Qed.

(** A run that got as far as starting the recorder, with a callback that
    returns normally, renders every frame and reports each of them. *)
Lemma export_completes host slides onProgress log0 out :
  returnsNormally onProgress ->
  exportSlidesToVideo host slides onProgress = (log0, out) ->
  In RecorderStart log0 \/ (exists blob, out = Fulfilled blob) ->
  slides <> [] /\
  drawnFrames log0
  = expectedFrames (map (resolveImage host) slides) 0 slides /\
  progressValues log0
  = reportsOf onProgress (totalFramesOf slides) 0
              (Z.to_nat (totalFramesOf slides)) /\
  reportState log0 = settled onProgress (Some false).
Proof.
  intros normal Hrun Hstarted.
  destruct (export_cases host slides onProgress)
    as [[r [e [Hprep Hfail]]] | [r [recorder [images [Hprep Hbody]]]]].
  - rewrite Hfail in Hrun. inversion Hrun; subst.
    destruct (prepare_log _ _ _ _ Hprep) as [_ Hp].
    destruct Hstarted as [Hin | [blob Hb]]; [| discriminate].
    exfalso. exact (prep_no_start _ Hp Hin).
  - destruct (prepare_log _ _ _ _ Hprep) as [Hc Hp].
    destruct (prepare_result _ _ _ _ _ _ Hprep) as [Hne [_ Himages]].
    destruct (perform_runs host slides onProgress recorder images r normal)
      as [r' [Hperf [Hd [Hv Hs]]]].
    unfold exportSlidesToVideo in Hrun. rewrite Hbody, Hperf in Hrun.
    inversion Hrun; subst log0.
    apply (forallb_impl _ _ _ prep_inert) in Hp.
    rewrite (inert_drawn _ Hp) in Hd. rewrite (inert_progress _ Hp), Hc in Hv.
    unfold reportState at 2 3 in Hs. rewrite (inert_report _ _ Hp) in Hs.
    subst images. split; [exact Hne |]. split; [exact Hd |].
    split; [exact Hv |].
    destruct slides; [congruence | exact Hs].
Qed.

Lemma slideFrames_length index slide image :
  List.length (slideFrames index slide image) = Z.to_nat (frameCountOf slide).
Proof. unfold slideFrames. now rewrite length_map, length_seq. Qed.

Lemma expectedFrames_length images : forall slides index,
  List.length (expectedFrames images index slides)
  = Z.to_nat (totalFramesOf slides).
Proof.
  induction slides as [| slide rest IH]; intros index; [reflexivity |].
  cbn [expectedFrames]. rewrite length_app, slideFrames_length, IH.
  rewrite totalFramesOf_cons.
  pose proof (frameCountOf_pos slide). pose proof (totalFramesOf_nonneg rest).
  rewrite Z2Nat.inj_add by lia. reflexivity.
Qed.

Lemma round_near x :
  inject_Z (Num.round x) - (1 # 2) <= x /\ x < inject_Z (Num.round x) + (1 # 2).
Proof.
  unfold Num.round.
  pose proof (Qfloor_le (x + (1 # 2))) as Hle.
  pose proof (Qlt_floor (x + (1 # 2))) as Hlt.
  rewrite inject_Z_plus in Hlt. change (inject_Z 1) with 1 in Hlt.
  split; lra.
Qed.

Lemma round_small x : x < 3 # 2 -> (Num.round x <= 1)%Z.
Proof.
  intros Hx. destruct (round_near x) as [Hle _].
  assert (H : inject_Z (Num.round x) < inject_Z 2)
    by (change (inject_Z 2) with 2; lra).
  rewrite <- Zlt_Qlt in H. lia.
Qed.

Lemma round_large x : 3 # 2 <= x -> (2 <= Num.round x)%Z.
Proof.
  intros Hx. destruct (round_near x) as [_ Hlt].
  assert (H : inject_Z 1 < inject_Z (Num.round x))
    by (change (inject_Z 1) with 1; lra).
  rewrite <- Zlt_Qlt in H. lia.
Qed.

(** C2. In a run that starts the recorder, with a callback that returns
    normally, the frames drawn are, slide by slide in order, the frames of
    indices 0 to [frameCount - 1] of that slide, where
    [frameCount = max(1, round(duration * 30))] and the progress of frame [f]
    is 1 when [frameCount] is 1 and [f / (frameCount - 1)] otherwise.  The
    product is the product of doubles, and [round] takes the integer nearest
    to it, a half going up: a product below a frame and a half gives one
    frame, any other product [p] the count [n] with [n - 1/2 <= p < n + 1/2].
    Three seconds make 90 frames and a tenth of a second makes 3; 2.05
    seconds make 61 frames, 0.35 seconds 11, three quarters of a second
    23. *)
Theorem export_frame_schedule host slides onProgress log0 out :
  returnsNormally onProgress ->
  exportSlidesToVideo host slides onProgress = (log0, out) ->
  In RecorderStart log0 ->
  drawnFrames log0
  = expectedFrames (map (resolveImage host) slides) 0 slides /\
  (forall index slide image,
      slideFrames index slide image
      = map (fun f =>
               (index, slide, image,
                if (frameCountOf slide =? 1)%Z then 1
                else inject_Z (Z.of_nat f) / inject_Z (frameCountOf slide - 1)))
            (seq 0 (Z.to_nat (frameCountOf slide)))) /\
  (forall slide,
      (Num.mul (duration slide) 30 < 3 # 2 -> frameCountOf slide = 1%Z) /\
      (3 # 2 <= Num.mul (duration slide) 30 ->
       inject_Z (frameCountOf slide) - (1 # 2) <= Num.mul (duration slide) 30 /\
       Num.mul (duration slide) 30 < inject_Z (frameCountOf slide) + (1 # 2))) /\
  frameCountOf (Sample.slide 3 None) = 90%Z /\
  frameCountOf (Sample.slide (1 # 10) None) = 3%Z /\
  frameCountOf (Sample.slide (205 # 100) None) = 61%Z /\
  frameCountOf (Sample.slide (35 # 100) None) = 11%Z /\
  frameCountOf (Sample.slide (3 # 4) None) = 23%Z.
Proof.
  intros normal Hrun Hstart.
  destruct (export_completes host slides onProgress log0 out normal Hrun
              (or_introl Hstart)) as [_ [Hd _]].
  split; [exact Hd |]. split; [reflexivity |]. split.
  - intros slide. unfold frameCountOf. change (inject_Z FPS) with 30.
    split.
    + intros Hp. apply round_small in Hp. lia.
    + intros Hp. pose proof (round_large _ Hp) as H2.
      replace (Z.max 1 (Num.round (Num.mul (duration slide) 30)))
        with (Num.round (Num.mul (duration slide) 30)) by lia.
      apply round_near.
  - repeat split; vm_compute; reflexivity.
Qed.

Lemma export_frame_schedule_witness :
  drawnFrames
    (fst (exportSlidesToVideo Sample.goodHost
            [Sample.slide (205 # 100) None; Sample.slide (35 # 100) None]
            Sample.quiet))
  = expectedFrames (map (resolveImage Sample.goodHost)
                        [Sample.slide (205 # 100) None;
                         Sample.slide (35 # 100) None])
                   0 [Sample.slide (205 # 100) None;
                      Sample.slide (35 # 100) None].
Proof.
  assert (Hstart : In RecorderStart
                      (fst (exportSlidesToVideo Sample.goodHost
                              [Sample.slide (205 # 100) None;
                               Sample.slide (35 # 100) None] Sample.quiet))).
  { vm_compute. do 8 right. left. reflexivity. }
  exact (proj1 (export_frame_schedule Sample.goodHost
                  [Sample.slide (205 # 100) None; Sample.slide (35 # 100) None]
                  Sample.quiet _ _
                  (fun v => eq_refl)
                  (surjective_pairing _)
                  Hstart)).
Defined.

(** *** Progress reports *)

Lemma ratio_le (a b total : Z) :
  (a <= b)%Z -> (0 < total)%Z ->
  inject_Z a / inject_Z total <= inject_Z b / inject_Z total.
Proof.
  intros Hab Ht. unfold Qdiv. apply Qmult_le_compat_r.
  - now rewrite <- Zle_Qle.
  - apply Qinv_le_0_compat.
    change 0 with (inject_Z 0). rewrite <- Zle_Qle. lia.
Qed.

Lemma ratio_one (total : Z) :
  (0 < total)%Z -> inject_Z total / inject_Z total == 1.
Proof.
  intros Ht. unfold Qdiv. apply Qmult_inv_r.
  intros H. unfold Qeq in H. simpl in H. lia.
Qed.

Lemma countUp_sorted total : (0 < total)%Z -> forall n from,
  Sorted Qle (map (fun c => inject_Z c / inject_Z total) (countUp from n)).
Proof.
  intros Ht. induction n as [| n IH]; intros from; [constructor |].
  cbn [countUp map]. constructor; [apply IH |].
  destruct n as [| n]; cbn [countUp map]; constructor.
  apply ratio_le; [lia | exact Ht].
Qed.

Lemma countUp_last from n :
  countUp from (S n) = countUp from n ++ [(from + Z.of_nat (S n))%Z].
Proof.
  replace (S n) with (n + 1)%nat at 1 by lia.
  rewrite countUp_app. cbn [countUp]. do 2 f_equal. lia.
Qed.

Lemma reportsOf_length cb total from n :
  (List.length (reportsOf cb total from n) <= n)%nat.
Proof.
  unfold reportsOf. destruct cb; cbn [List.length]; [| lia].
  rewrite length_map.
  assert (H : forall m f, List.length (countUp f m) = m).
  { induction m as [| m IH]; intros f; cbn; [reflexivity | now rewrite IH]. }
  now rewrite H.
Qed.

Lemma totalFramesOf_pos slides : slides <> [] -> (0 < totalFramesOf slides)%Z.
Proof.
  destruct slides as [| s rest]; [congruence |]. intros _.
  rewrite totalFramesOf_cons.
  pose proof (frameCountOf_pos s). pose proof (totalFramesOf_nonneg rest). lia.
Qed.

(** C5. In a successful export of at least one slide, with a callback that
    returns normally, the values passed to [onProgress] never decrease, each
    report follows a drawn frame that had not been reported before (so there
    are no more reports than frames), and, when a callback is given, the last
    value is 1. *)
Theorem export_progress_reports host slides onProgress log0 blob :
  returnsNormally onProgress ->
  slides <> [] ->
  exportSlidesToVideo host slides onProgress = (log0, Fulfilled blob) ->
  Sorted Qle (progressValues log0) /\
  reportState log0 <> None /\
  (List.length (progressValues log0) <= List.length (drawnFrames log0))%nat /\
  (onProgress <> None ->
   exists front final,
     progressValues log0 = front ++ [final] /\ final == 1).
Proof.
  intros normal Hne Hrun.
  destruct (export_completes host slides onProgress log0 _ normal Hrun)
    as [_ [Hd [Hv Hs]]]; [right; eexists; reflexivity |].
  pose proof (totalFramesOf_pos slides Hne) as Hpos.
  rewrite Hv, Hd, Hs. split; [| split; [| split]].
  - unfold reportsOf. destruct onProgress; [| constructor].
    apply countUp_sorted. exact Hpos.
  - unfold settled. destruct onProgress; discriminate.
  - rewrite expectedFrames_length. apply reportsOf_length.
  - intros Hcb. unfold reportsOf.
    destruct onProgress as [callback |]; [| congruence].
    destruct (Z.to_nat (totalFramesOf slides)) as [| n] eqn:En; [lia |].
    rewrite countUp_last, map_app. cbn [map].
    eexists. eexists. split; [reflexivity |].
    rewrite <- En, Z2Nat.id by lia. apply ratio_one. exact Hpos.
Qed.

Lemma export_progress_reports_witness :
  exists front final,
    progressValues
      (fst (exportSlidesToVideo Sample.goodHost
              [Sample.slide 2 None; Sample.slide 1 (Some "data:ok"%string)]
              Sample.quiet))
    = front ++ [final] /\ final == 1.
Proof.
  assert (Hrun : exists blob,
             snd (exportSlidesToVideo Sample.goodHost
                    [Sample.slide 2 None;
                     Sample.slide 1 (Some "data:ok"%string)]
                    Sample.quiet) = Fulfilled blob).
  { eexists. vm_compute. reflexivity. }
  destruct Hrun as [blob Hblob].
  refine (proj2 (proj2 (proj2
            (export_progress_reports Sample.goodHost
               [Sample.slide 2 None; Sample.slide 1 (Some "data:ok"%string)]
               Sample.quiet _ blob (fun v => eq_refl) _ _))) _).
  - discriminate.
  - rewrite <- Hblob. apply surjective_pairing.
  - discriminate.
Defined.

(** *** Image prefetch *)

(** C9. The prefetch never fails, whatever the decoder does, and returns one
    entry per slide, in slide order: the decoded image where the slide has a
    reference that decodes, and null where the reference is absent, empty or
    fails to decode. *)
Theorem prefetchImages_aligned host slides r :
  exists r' images,
    prefetchImages host slides r = (r', inr images) /\
    List.length images = List.length slides /\
    forall i slide,
      nth_error slides i = Some slide ->
      exists image,
        nth_error images i = Some image /\
        (imageDataUrl slide = None -> image = None) /\
        (imageDataUrl slide = Some ""%string -> image = None) /\
        (forall u, imageDataUrl slide = Some u -> u <> ""%string ->
                   decodeImage host u = None -> image = None) /\
        (forall u decoded, imageDataUrl slide = Some u -> u <> ""%string ->
                           decodeImage host u = Some decoded ->
                           image = Some decoded).
Proof.
  destruct (prefetchImages_result host slides r) as [r' Hrun].
  exists r', (map (resolveImage host) slides).
  split; [exact Hrun |]. split; [apply length_map |].
  intros i slide Hi. exists (resolveImage host slide).
  split; [now apply map_nth_error |].
  unfold resolveImage.
  split; [intros ->; reflexivity |].
  split; [intros ->; reflexivity |].
  split.
  - intros u -> Hu Hdec. apply String.eqb_neq in Hu. now rewrite Hu.
  - intros u decoded -> Hu Hdec. apply String.eqb_neq in Hu. now rewrite Hu.
Qed.

Lemma prefetchImages_aligned_witness :
  exists r' images,
    prefetchImages Sample.goodHost
                   [Sample.slide 1 (Some "data:broken"%string);
                    Sample.slide 1 (Some "data:ok"%string)]
                   initialRun
    = (r', inr images) /\
    nth_error images 0 = Some None /\
    nth_error images 1 = Some (Some Sample.picture).
Proof.
  destruct (prefetchImages_aligned Sample.goodHost
              [Sample.slide 1 (Some "data:broken"%string);
               Sample.slide 1 (Some "data:ok"%string)]
              initialRun) as [r' [images [Hrun [_ Hnth]]]].
  exists r', images. split; [exact Hrun |]. split.
  - destruct (Hnth 0%nat _ eq_refl) as [image [H0 [_ [_ [Hfail _]]]]].
    rewrite H0. f_equal.
    apply (Hfail "data:broken"%string); [reflexivity | discriminate | reflexivity].
  - destruct (Hnth 1%nat _ eq_refl) as [image [H1 [_ [_ [_ Hok]]]]].
    rewrite H1. f_equal.
    apply (Hok "data:ok"%string); [reflexivity | discriminate | reflexivity].
Defined.

(** *** The empty slide list *)

(** C1, as the code has it.  With no slide the export always fails, having
    drawn nothing and done nothing but check that the host has a window and a
    MediaRecorder: no canvas, no codec probe, no recorder.  That check comes
    first: the failure is the one about the missing slide when the host
    passes it, and the one about the missing capability when it does not. *)
Theorem export_without_slides host onProgress :
  exists log0 reason,
    exportSlidesToVideo host [] onProgress = (log0, Failed reason) /\
    drawnFrames log0 = [] /\
    (forall a, In a log0 -> a = ProbeWindow \/ a = ProbeMediaRecorder) /\
    (hasWindow host = true -> hasMediaRecorder host = true ->
     reason = noSlidesError) /\
    (hasWindow host = false -> reason = clientOnlyError) /\
    (hasWindow host = true -> hasMediaRecorder host = false ->
     reason = unsupportedError).
Proof.
  unfold exportSlidesToVideo, exportBody, ensureMediaRecorder.
  destruct (hasWindow host) eqn:Hw; [destruct (hasMediaRecorder host) eqn:Hm |];
    cbn; do 2 eexists; (split; [reflexivity |]); (split; [reflexivity |]);
    (split; [cbn; intuition auto |]); repeat split; congruence.
Qed.

Lemma export_without_slides_witness :
  exists log0,
    exportSlidesToVideo Sample.goodHost [] Sample.quiet
    = (log0, Failed noSlidesError).
Proof.
  destruct (export_without_slides Sample.goodHost Sample.quiet)
    as [log0 [reason [Hrun [_ [_ [Hreason _]]]]]].
  exists log0. rewrite <- (Hreason eq_refl eq_refl). exact Hrun.
Defined.

(** C1, as the specification words it, fails: the capability is probed before the
    slides are counted, and on a host without MediaRecorder the empty export
    fails with the capability error, not with the validation error. *)
Lemma export_without_slides_probes_first :
  exportSlidesToVideo hostWithoutRecorder [] None
  = ([ProbeWindow; ProbeMediaRecorder], Failed unsupportedError) /\
  unsupportedError <> noSlidesError /\
  exportSlidesToVideo Sample.goodHost [] None
  = ([ProbeWindow; ProbeMediaRecorder], Failed noSlidesError).
Proof.
  split; [reflexivity |]. split; [discriminate | reflexivity].
Qed.

(** *** A recorder error in mid-run *)

(** C4.  The [error] listener rejects and leaves the recorder as it is.  On
    the host of [Faulty], which reports an error after the first of three
    frames, the export is rejected while the recorder is still recording, two
    more frames are drawn after the rejection, and the recorder is stopped
    only when the loop ends.  The handler of an exception thrown inside the
    loop, by contrast, stops the recorder before it rejects. *)
Theorem recorder_error_leaves_recorder_running :
  (forall payload r,
      recording (fst (onError payload r)) = recording r) /\
  snd (exportSlidesToVideo Faulty.host [Sample.slide (1 # 10) None]
                           Sample.quiet)
  = Failed recorderFailedError /\
  rejectsWhileRecording false
    (fst (exportSlidesToVideo Faulty.host [Sample.slide (1 # 10) None]
                              Sample.quiet))
  = [true] /\
  List.length
    (drawnFrames
       (afterReject
          (fst (exportSlidesToVideo Faulty.host [Sample.slide (1 # 10) None]
                                    Sample.quiet))))
  = 2%nat /\
  snd (exportSlidesToVideo Sample.goodHost [Sample.slide (1 # 10) None]
                           Faulty.thrower)
  = Failed (JsError "callback failed") /\
  rejectsWhileRecording false
    (fst (exportSlidesToVideo Sample.goodHost [Sample.slide (1 # 10) None]
                              Faulty.thrower))
  = [false].
Proof.
  split.
  - intros [| [name |]] r; cbn; destruct (promise r); reflexivity.
  - repeat split; vm_compute; reflexivity.
Qed.


(** * Further properties *)

(** ** The editor *)

Module EditorFacts.

Import Editor.

(** Where [findIndex] finds a slide: the list splits around the first slide
    that carries the identifier. *)
Lemma findIndex_split wanted : forall l n,
  findIndex wanted l = Some n ->
  exists pre slide post,
    l = pre ++ slide :: post /\ List.length pre = n /\
    id slide = wanted /\ ~ In wanted (map id pre).
Proof.
  induction l as [| s rest IH]; intros n H; [discriminate |].
  cbn [findIndex] in H.
  destruct (String.eqb_spec (id s) wanted) as [He | Hn].
  - inversion H; subst. exists [], s, rest. repeat split; auto.
  - destruct (findIndex wanted rest) as [m |] eqn:E; [| discriminate].
    inversion H; subst.
    destruct (IH m eq_refl) as [pre [slide [post [Hl [Hlen [Hid Hpre]]]]]].
    exists (s :: pre), slide, post. subst rest. repeat split; auto.
    + cbn. now rewrite Hlen.
    + cbn. intros [Hs | Hin]; [exact (Hn Hs) | exact (Hpre Hin)].
Qed.

Lemma findIndex_found wanted pre slide post :
  id slide = wanted -> ~ In wanted (map id pre) ->
  findIndex wanted (pre ++ slide :: post) = Some (List.length pre).
Proof.
  intros Hid. induction pre as [| p pre IH]; intros Hpre.
  - cbn. apply String.eqb_eq in Hid. now rewrite Hid.
  - cbn [app findIndex List.length map] in *.
    destruct (String.eqb_spec (id p) wanted) as [He | Hn].
    + exfalso. apply Hpre. now left.
    + rewrite IH; [reflexivity |]. intros Hin. apply Hpre. now right.
Qed.

Lemma findIndex_none wanted l :
  findIndex wanted l = None <-> ~ In wanted (map id l).
Proof.
  induction l as [| s rest IH]; cbn [findIndex map]; [tauto |].
  destruct (String.eqb_spec (id s) wanted) as [He | Hn].
  - split; [discriminate |]. intros H. exfalso. apply H. now left.
  - destruct (findIndex wanted rest) as [m |].
    + split; [discriminate |]. intros H. exfalso.
      assert (Hr : ~ In wanted (map id rest)) by (intros Hin; apply H; now right).
      apply IH in Hr. discriminate.
    + split; [| reflexivity]. intros _ [Hs | Hin]; [exact (Hn Hs) |].
      apply (proj1 IH eq_refl). exact Hin.
Qed.

Lemma nth_error_middle (pre : list Slide) slide post :
  nth_error (pre ++ slide :: post) (List.length pre) = Some slide.
Proof. induction pre as [| p pre IH]; [reflexivity | exact IH]. Qed.

Lemma firstn_middle (pre post : list Slide) :
  firstn (List.length pre) (pre ++ post) = pre.
Proof.
  induction pre as [| p pre IH]; cbn; [now destruct post | now rewrite IH].
Qed.

Lemma skipn_middle (pre post : list Slide) :
  skipn (List.length pre) (pre ++ post) = post.
Proof. induction pre as [| p pre IH]; cbn; [reflexivity | exact IH]. Qed.

Lemma spliceOut_middle pre slide post :
  spliceOut (List.length pre) (pre ++ slide :: post) = pre ++ post.
Proof.
  unfold spliceOut. rewrite firstn_middle.
  change (S (List.length pre)) with (1 + List.length pre)%nat.
  rewrite <- skipn_skipn, skipn_middle. reflexivity.
Qed.

Lemma spliceIn_middle pre item post :
  spliceIn (List.length pre) item (pre ++ post) = pre ++ item :: post.
Proof. unfold spliceIn. now rewrite firstn_middle, skipn_middle. Qed.

Lemma totalFramesOf_app a b :
  totalFramesOf (a ++ b) = (totalFramesOf a + totalFramesOf b)%Z.
Proof.
  induction a as [| s a IH]; [reflexivity |].
  cbn [app]. rewrite !totalFramesOf_cons, IH. lia.
Qed.

(** The list after a move up, and after a move down. *)
Lemma handleReorder_up wanted st pre p slide post :
  slides st = (pre ++ [p]) ++ slide :: post ->
  id slide = wanted -> ~ In wanted (map id (pre ++ [p])) ->
  handleReorder wanted Up st
  = mkState (pre ++ slide :: p :: post) (activeSlideId st).
Proof.
  intros Hl Hid Hpre. unfold handleReorder.
  rewrite Hl, (findIndex_found _ _ _ _ Hid Hpre).
  rewrite nth_error_middle, spliceOut_middle.
  rewrite !length_app. cbn [List.length].
  assert (H0 : ((Z.of_nat (List.length pre + 1) - 1 <? 0)%Z
                || (Z.of_nat (List.length pre + 1) - 1
                    >=? Z.of_nat (List.length pre + 1
                                  + S (List.length post)))%Z) = false).
  { rewrite Z.geb_leb. apply orb_false_intro; [apply Z.ltb_ge | apply Z.leb_gt]; lia. }
  rewrite H0.
  replace (Z.to_nat (Z.of_nat (List.length pre + 1) - 1))
    with (List.length pre) by lia.
  rewrite <- app_assoc. cbn [app]. now rewrite spliceIn_middle.
Qed.

Lemma handleReorder_down wanted st pre slide q post :
  slides st = pre ++ slide :: q :: post ->
  id slide = wanted -> ~ In wanted (map id pre) ->
  handleReorder wanted Down st
  = mkState (pre ++ q :: slide :: post) (activeSlideId st).
Proof.
  intros Hl Hid Hpre. unfold handleReorder.
  rewrite Hl, (findIndex_found _ _ _ _ Hid Hpre).
  rewrite nth_error_middle, spliceOut_middle.
  rewrite !length_app. cbn [List.length].
  assert (H0 : ((Z.of_nat (List.length pre) + 1 <? 0)%Z
                || (Z.of_nat (List.length pre) + 1
                    >=? Z.of_nat (List.length pre
                                  + S (S (List.length post))))%Z) = false).
  { rewrite Z.geb_leb. apply orb_false_intro; [apply Z.ltb_ge | apply Z.leb_gt]; lia. }
  rewrite H0.
  replace (Z.to_nat (Z.of_nat (List.length pre) + 1))
    with (List.length (pre ++ [q])) by (rewrite length_app; cbn; lia).
  replace (pre ++ q :: post) with ((pre ++ [q]) ++ post)
    by (now rewrite <- app_assoc).
  rewrite spliceIn_middle, <- app_assoc. reflexivity.
Qed.

Lemma handleReorder_cases wanted direction st :
  handleReorder wanted direction st = st \/
  exists pre a b post,
    slides st = pre ++ a :: b :: post /\
    handleReorder wanted direction st
    = mkState (pre ++ b :: a :: post) (activeSlideId st).
Proof.
  destruct (findIndex wanted (slides st)) as [n |] eqn:E.
  - destruct (findIndex_split _ _ _ E) as [pre [s [post [Hl [Hlen [Hid Hpre]]]]]].
    destruct direction.
    + destruct pre as [| p0 pre0].
      * left. unfold handleReorder. rewrite E. cbn in Hlen. subst n.
        reflexivity.
      * destruct (@exists_last _ (p0 :: pre0)) as [pre' [p Hp]];
          [discriminate |].
        rewrite Hp in Hl, Hpre. right. exists pre', p, s, post.
        split; [now rewrite Hl, <- app_assoc |].
        eapply handleReorder_up; eassumption.
    + destruct post as [| q post'].
      * left. unfold handleReorder. rewrite E, Hl, length_app.
        cbn [List.length]. subst n.
        assert (H0 : ((Z.of_nat (List.length pre) + 1 <? 0)%Z
                      || (Z.of_nat (List.length pre) + 1
                          >=? Z.of_nat (List.length pre + 1))%Z) = true).
        { apply orb_true_intro. right. rewrite Z.geb_leb. apply Z.leb_le. lia. }
        now rewrite H0.
      * right. exists pre, s, q, post'. split; [exact Hl |].
        eapply handleReorder_down; eassumption.
  - left. unfold handleReorder. now rewrite E.
Qed.

(** X1. A move keeps the slides and only changes their order: the new list
    is a permutation of the old one, of the same length, it exports the same
    number of frames, and the active identifier is untouched. *)
Theorem handleReorder_permutation wanted direction st :
  Permutation (slides st) (slides (handleReorder wanted direction st)) /\
  List.length (slides (handleReorder wanted direction st))
  = List.length (slides st) /\
  totalFramesOf (slides (handleReorder wanted direction st))
  = totalFramesOf (slides st) /\
  activeSlideId (handleReorder wanted direction st) = activeSlideId st.
Proof.
  destruct (handleReorder_cases wanted direction st)
    as [-> | [pre [a [b [post [Hl ->]]]]]].
  - repeat split; reflexivity.
  - cbn [slides activeSlideId]. rewrite Hl. split; [| split; [| split]].
    + apply Permutation_app_head, perm_swap.
    + rewrite !length_app. reflexivity.
    + rewrite !totalFramesOf_app, !totalFramesOf_cons. lia.
    + reflexivity.
Qed.

(** X2. Where a move goes.  An unknown identifier, the first slide moved up
    and the last slide moved down leave the state as it is; any other move
    swaps the first slide that carries the identifier with its neighbour. *)
Theorem handleReorder_moves wanted st :
  (findIndex wanted (slides st) = None ->
   forall direction, handleReorder wanted direction st = st) /\
  (findIndex wanted (slides st) = Some O ->
   handleReorder wanted Up st = st) /\
  (forall n, findIndex wanted (slides st) = Some n ->
             S n = List.length (slides st) ->
             handleReorder wanted Down st = st) /\
  (forall m, findIndex wanted (slides st) = Some (S m) ->
             exists pre p slide post,
               slides st = pre ++ p :: slide :: post /\
               List.length pre = m /\ id slide = wanted /\
               slides (handleReorder wanted Up st)
               = pre ++ slide :: p :: post) /\
  (forall n, findIndex wanted (slides st) = Some n ->
             (S n < List.length (slides st))%nat ->
             exists pre slide q post,
               slides st = pre ++ slide :: q :: post /\
               List.length pre = n /\ id slide = wanted /\
               slides (handleReorder wanted Down st)
               = pre ++ q :: slide :: post).
Proof.
  split; [| split; [| split; [| split]]].
  - intros E direction. unfold handleReorder. now rewrite E.
  - intros E. unfold handleReorder. now rewrite E.
  - intros n E Hlast. unfold handleReorder. rewrite E, <- Hlast.
    assert (H0 : ((Z.of_nat n + 1 <? 0)%Z
                  || (Z.of_nat n + 1 >=? Z.of_nat (S n))%Z) = true).
    { apply orb_true_intro. right. rewrite Z.geb_leb. apply Z.leb_le. lia. }
    now rewrite H0.
  - intros m E.
    destruct (findIndex_split _ _ _ E) as [pre [s [post [Hl [Hlen [Hid Hpre]]]]]].
    destruct (@exists_last _ pre) as [pre' [p Hp]];
      [intros ->; discriminate |].
    subst pre. rewrite length_app in Hlen. cbn in Hlen.
    exists pre', p, s, post. split; [now rewrite Hl, <- app_assoc |].
    split; [lia |]. split; [exact Hid |].
    now rewrite (handleReorder_up _ _ _ _ _ _ Hl Hid Hpre).
  - intros n E Hin.
    destruct (findIndex_split _ _ _ E) as [pre [s [post [Hl [Hlen [Hid Hpre]]]]]].
    destruct post as [| q post'].
    + rewrite Hl, length_app in Hin. cbn in Hin. lia.
    + exists pre, s, q, post'. repeat split; auto.
      now rewrite (handleReorder_down _ _ _ _ _ _ Hl Hid Hpre).
Qed.

Lemma handleReorder_moves_witness :
  handleReorder "c" Down Samples.threeSlides = Samples.threeSlides /\
  exists pre p slide post,
    slides Samples.threeSlides = pre ++ p :: slide :: post /\
    List.length pre = 1%nat /\ id slide = "c"%string /\
    slides (handleReorder "c" Up Samples.threeSlides) = pre ++ slide :: p :: post.
Proof.
  split.
  - apply (proj1 (proj2 (proj2 (handleReorder_moves "c" Samples.threeSlides))) 2%nat);
      reflexivity.
  - apply (proj1 (proj2 (proj2 (proj2 (handleReorder_moves "c" Samples.threeSlides))))
             1%nat).
    reflexivity.
Defined.

(** X3. Moving a slide up and then down again gives the state back, and so
    does down and then up when no identifier occurs twice. *)
Theorem handleReorder_round_trip wanted st :
  (forall m, findIndex wanted (slides st) = Some (S m) ->
             handleReorder wanted Down (handleReorder wanted Up st) = st) /\
  (forall n, NoDup (ids st) ->
             findIndex wanted (slides st) = Some n ->
             (S n < List.length (slides st))%nat ->
             handleReorder wanted Up (handleReorder wanted Down st) = st).
Proof.
  split.
  - intros m E.
    destruct (findIndex_split _ _ _ E) as [pre [s [post [Hl [Hlen [Hid Hpre]]]]]].
    destruct (@exists_last _ pre) as [pre' [p Hp]];
      [intros ->; discriminate |].
    subst pre.
    rewrite (handleReorder_up _ _ _ _ _ _ Hl Hid Hpre).
    assert (Hpre' : ~ In wanted (map id pre')).
    { intros Hin. apply Hpre. rewrite map_app. apply in_or_app. now left. }
    rewrite (handleReorder_down wanted
               (mkState (pre' ++ s :: p :: post) (activeSlideId st))
               pre' s p post eq_refl Hid Hpre').
    cbn [activeSlideId]. destruct st as [l a]. cbn in *.
    now rewrite Hl, <- app_assoc.
  - intros n Hnd E Hin.
    destruct (findIndex_split _ _ _ E) as [pre [s [post [Hl [Hlen [Hid Hpre]]]]]].
    destruct post as [| q post'].
    { rewrite Hl, length_app in Hin. cbn in Hin. lia. }
    rewrite (handleReorder_down _ _ _ _ _ _ Hl Hid Hpre).
    assert (Hq : ~ In wanted (map id (pre ++ [q]))).
    { unfold ids in Hnd. rewrite Hl, map_app in Hnd. cbn [map] in Hnd.
      apply NoDup_remove_2 in Hnd. rewrite Hid in Hnd.
      intros Hin'. apply Hnd. rewrite map_app in Hin'. cbn [map] in Hin'.
      apply in_app_or in Hin'. apply in_or_app.
      destruct Hin' as [H | [H | []]]; [now left | right; now left]. }
    rewrite (handleReorder_up wanted _ pre q s post'); auto.
    + cbn [activeSlideId]. destruct st as [l a]. cbn in *. now rewrite Hl.
    + cbn [slides]. now rewrite <- app_assoc.
Qed.

Lemma handleReorder_round_trip_witness :
  handleReorder "b" Down (handleReorder "b" Up Samples.threeSlides) = Samples.threeSlides /\
  handleReorder "b" Up (handleReorder "b" Down Samples.threeSlides) = Samples.threeSlides.
Proof.
  split.
  - apply (proj1 (handleReorder_round_trip "b" Samples.threeSlides) 0%nat).
    reflexivity.
  - apply (proj2 (handleReorder_round_trip "b" Samples.threeSlides) 1%nat).
    + repeat constructor; cbn; intuition discriminate.
    + reflexivity.
    + cbn. lia.
Defined.

Lemma filter_keeps wanted l :
  ~ In wanted (map id l) ->
  filter (fun slide => negb (String.eqb (id slide) wanted)) l = l.
Proof.
  induction l as [| s rest IH]; intros H; [reflexivity |].
  cbn [filter map] in *.
  destruct (String.eqb_spec (id s) wanted) as [He | Hn].
  - exfalso. apply H. now left.
  - cbn [negb]. rewrite IH; [reflexivity |]. intros Hin. apply H. now right.
Qed.

Lemma filter_drops_one wanted pre slide post :
  id slide = wanted ->
  ~ In wanted (map id pre) -> ~ In wanted (map id post) ->
  filter (fun s => negb (String.eqb (id s) wanted)) (pre ++ slide :: post)
  = pre ++ post.
Proof.
  intros Hid Hpre Hpost. rewrite filter_app. cbn [filter].
  apply String.eqb_eq in Hid. rewrite Hid. cbn [negb].
  now rewrite (filter_keeps _ _ Hpre), (filter_keeps _ _ Hpost).
Qed.

Lemma NoDup_split_ids pre (slide : Slide) post :
  NoDup (map id (pre ++ slide :: post)) ->
  ~ In (id slide) (map id pre) /\ ~ In (id slide) (map id post) /\
  NoDup (map id (pre ++ post)).
Proof.
  rewrite !map_app. cbn [map]. intros H.
  pose proof (NoDup_remove_1 _ _ _ H) as H1.
  pose proof (NoDup_remove_2 _ _ _ H) as H2.
  repeat split; auto; intros Hin; apply H2; apply in_or_app; auto.
Qed.

Lemma handleRemoveSlide_found wanted st n :
  NoDup (ids st) -> List.length (slides st) <> 1%nat ->
  findIndex wanted (slides st) = Some n ->
  exists pre slide post,
    slides st = pre ++ slide :: post /\
    List.length pre = n /\ id slide = wanted /\
    ~ In wanted (map id (pre ++ post)) /\
    slides (handleRemoveSlide wanted st) = pre ++ post.
Proof.
  intros Hnd Hlen E. unfold handleRemoveSlide.
  apply Nat.eqb_neq in Hlen. rewrite Hlen.
  destruct (findIndex_split _ _ _ E) as [pre [s [post [Hl [Hn [Hid Hpre]]]]]].
  exists pre, s, post.
  unfold ids in Hnd. cbn [slides]. rewrite Hl in *.
  destruct (NoDup_split_ids _ _ _ Hnd) as [_ [Hpost _]].
  rewrite Hid in Hpost.
  split; [reflexivity |]. split; [exact Hn |]. split; [exact Hid |].
  split.
  - rewrite map_app. intros Hin. apply in_app_or in Hin. tauto.
  - exact (filter_drops_one _ _ _ _ Hid Hpre Hpost).
Qed.

Lemma handleRemoveSlide_single wanted st :
  List.length (slides st) = 1%nat -> handleRemoveSlide wanted st = st.
Proof.
  intros H. unfold handleRemoveSlide. apply Nat.eqb_eq in H. now rewrite H.
Qed.

Lemma handleRemoveSlide_unknown wanted st :
  ~ In wanted (ids st) -> slides (handleRemoveSlide wanted st) = slides st.
Proof.
  intros H. unfold handleRemoveSlide.
  destruct (List.length (slides st) =? 1)%nat; [reflexivity |].
  cbn [slides]. apply filter_keeps. exact H.
Qed.

(** X4. Removing a slide.  The only slide of the list cannot be removed.
    Otherwise, when no identifier occurs twice, exactly the slide that carries
    the identifier goes, the others keep their order, and at least one slide
    is left; an unknown identifier removes nothing. *)
Theorem handleRemoveSlide_removes wanted st :
  (List.length (slides st) = 1%nat -> handleRemoveSlide wanted st = st) /\
  (~ In wanted (ids st) ->
   slides (handleRemoveSlide wanted st) = slides st) /\
  (NoDup (ids st) -> List.length (slides st) <> 1%nat ->
   forall n, findIndex wanted (slides st) = Some n ->
             slides (handleRemoveSlide wanted st) = spliceOut n (slides st) /\
             S (List.length (slides (handleRemoveSlide wanted st)))
             = List.length (slides st) /\
             slides (handleRemoveSlide wanted st) <> [] /\
             ~ In wanted (ids (handleRemoveSlide wanted st))).
Proof.
  split; [| split].
  - apply handleRemoveSlide_single.
  - apply handleRemoveSlide_unknown.
  - intros Hnd Hlen n E.
    destruct (handleRemoveSlide_found wanted st n Hnd Hlen E)
      as [pre [s [post [Hl [Hn [Hid [Hgone Hres]]]]]]].
    unfold ids. rewrite Hres, Hl. rewrite Hl in Hlen. subst n.
    rewrite spliceOut_middle. split; [reflexivity |].
    split; [rewrite !length_app; cbn [List.length]; lia |].
    split; [| exact Hgone].
    rewrite length_app in Hlen. cbn [List.length] in Hlen.
    destruct pre, post; cbn in *; try discriminate; lia.
Qed.

Lemma handleRemoveSlide_removes_witness :
  slides (handleRemoveSlide "b" Samples.threeSlides)
  = [defaultSlide "a"; defaultSlide "c"] /\
  handleRemoveSlide "a" (initial "a") = initial "a".
Proof.
  split.
  - apply (proj2 (proj2 (handleRemoveSlide_removes "b" Samples.threeSlides))
             ltac:(repeat constructor; cbn; intuition discriminate)
             ltac:(discriminate) 1%nat eq_refl).
  - apply (proj1 (handleRemoveSlide_removes "a" (initial "a"))). reflexivity.
Defined.

Lemma handleDuplicateSlide_found wanted newId st n :
  findIndex wanted (slides st) = Some n ->
  exists pre original post,
    slides st = pre ++ original :: post /\
    List.length pre = n /\ id original = wanted /\
    handleDuplicateSlide wanted newId st
    = mkState (pre ++ original :: duplicateSlide original newId :: post) newId.
Proof.
  intros E. unfold handleDuplicateSlide. rewrite E.
  destruct (findIndex_split _ _ _ E) as [pre [s [post [Hl [Hn [Hid Hpre]]]]]].
  exists pre, s, post. subst n. rewrite Hl, nth_error_middle.
  repeat split; auto. f_equal.
  replace (S (List.length pre)) with (List.length (pre ++ [s]))
    by (rewrite length_app; cbn; lia).
  replace (pre ++ s :: post) with ((pre ++ [s]) ++ post)
    by (now rewrite <- app_assoc).
  rewrite spliceIn_middle, <- app_assoc. reflexivity.
Qed.

(** X5. Duplicating a slide puts the copy right behind the first slide that
    carries the identifier and makes it the active slide.  The copy has the
    new identifier and the title with " Copy" appended, and every other field
    of the original, so the list exports as many frames more as the original
    has; taking the copy out again gives the old list.  An unknown identifier
    changes nothing. *)
Theorem handleDuplicateSlide_inserts wanted newId st :
  (findIndex wanted (slides st) = None ->
   handleDuplicateSlide wanted newId st = st) /\
  (forall n, findIndex wanted (slides st) = Some n ->
     exists pre original post,
       slides st = pre ++ original :: post /\
       List.length pre = n /\ id original = wanted /\
       slides (handleDuplicateSlide wanted newId st)
       = pre ++ original :: duplicateSlide original newId :: post /\
       activeSlideId (handleDuplicateSlide wanted newId st) = newId /\
       title (duplicateSlide original newId)
       = (title original ++ " Copy")%string /\
       totalFramesOf (slides (handleDuplicateSlide wanted newId st))
       = (totalFramesOf (slides st) + frameCountOf original)%Z /\
       spliceOut (S n) (slides (handleDuplicateSlide wanted newId st))
       = slides st).
Proof.
  split.
  - intros E. unfold handleDuplicateSlide. now rewrite E.
  - intros n E.
    destruct (handleDuplicateSlide_found wanted newId st n E)
      as [pre [s [post [Hl [Hn [Hid ->]]]]]].
    exists pre, s, post. subst n. rewrite Hl.
    cbn [slides activeSlideId id].
    repeat split; auto.
    + rewrite !totalFramesOf_app, !totalFramesOf_cons.
      change (frameCountOf (duplicateSlide s newId)) with (frameCountOf s).
      lia.
    + replace (S (List.length pre)) with (List.length (pre ++ [s]))
        by (rewrite length_app; cbn; lia).
      replace (pre ++ s :: duplicateSlide s newId :: post)
        with ((pre ++ [s]) ++ duplicateSlide s newId :: post)
        by (now rewrite <- app_assoc).
      rewrite spliceOut_middle, <- app_assoc. reflexivity.
Qed.

Lemma handleDuplicateSlide_inserts_witness :
  map id (slides (handleDuplicateSlide "b" "d" Samples.threeSlides))
  = ["a"; "b"; "d"; "c"]%string.
Proof.
  destruct (proj2 (handleDuplicateSlide_inserts "b" "d" Samples.threeSlides)
              1%nat eq_refl)
    as [pre [original [post [Hl [Hlen [_ [Hres _]]]]]]].
  rewrite Hres.
  destruct pre as [| p [| p' pre]]; try discriminate.
  cbn in Hl. inversion Hl; subst. reflexivity.
Defined.

Lemma find_first (wanted : string) pre slide post :
  id slide = wanted -> ~ In wanted (map id pre) ->
  find (fun s => String.eqb (id s) wanted) (pre ++ slide :: post) = Some slide.
Proof.
  intros Hid. induction pre as [| p pre IH]; intros Hpre.
  - cbn. apply String.eqb_eq in Hid. now rewrite Hid.
  - cbn [app find map] in *.
    destruct (String.eqb_spec (id p) wanted) as [He | Hn].
    + exfalso. apply Hpre. now left.
    + apply IH. intros Hin. apply Hpre. now right.
Qed.

Lemma find_absent (wanted : string) l :
  ~ In wanted (map id l) ->
  find (fun s => String.eqb (id s) wanted) l = None.
Proof.
  induction l as [| p l IH]; intros H; [reflexivity |].
  cbn [find map] in *.
  destruct (String.eqb_spec (id p) wanted) as [He | Hn].
  - exfalso. apply H. now left.
  - apply IH. intros Hin. apply H. now right.
Qed.

Lemma updateSlide_keeps wanted next l :
  ~ In wanted (map id l) -> updateSlide wanted next l = l.
Proof.
  unfold updateSlide. induction l as [| s rest IH]; intros H; [reflexivity |].
  cbn [map] in *.
  destruct (String.eqb_spec (id s) wanted) as [He | Hn].
  - exfalso. apply H. now left.
  - rewrite IH; [reflexivity |]. intros Hin. apply H. now right.
Qed.

Lemma updateSlide_one wanted next pre slide post :
  id slide = wanted ->
  ~ In wanted (map id pre) -> ~ In wanted (map id post) ->
  updateSlide wanted next (pre ++ slide :: post) = pre ++ next :: post.
Proof.
  intros Hid Hpre Hpost.
  pose proof (updateSlide_keeps wanted next pre Hpre) as H1.
  pose proof (updateSlide_keeps wanted next post Hpost) as H2.
  unfold updateSlide in *. rewrite map_app. cbn [map].
  apply String.eqb_eq in Hid. now rewrite Hid, H1, H2.
Qed.

Lemma applyChange_id c s : id (applyChange c s) = id s.
Proof. destruct c; reflexivity. Qed.

Lemma in_ids_split wanted l :
  In wanted (map id l) -> exists n, findIndex wanted l = Some n.
Proof.
  intros H. destruct (findIndex wanted l) as [n |] eqn:E; [now exists n |].
  apply findIndex_none in E. contradiction.
Qed.

Lemma handleChange_active c st :
  NoDup (ids st) -> In (activeSlideId st) (ids st) ->
  exists pre active post,
    slides st = pre ++ active :: post /\
    id active = activeSlideId st /\
    handleChange c st
    = mkState (pre ++ applyChange c active :: post) (activeSlideId st).
Proof.
  unfold ids. intros Hnd Hin. destruct (in_ids_split _ _ Hin) as [n E].
  destruct (findIndex_split _ _ _ E) as [pre [a [post [Hl [_ [Hid Hpre]]]]]].
  exists pre, a, post. split; [exact Hl |]. split; [exact Hid |].
  unfold handleChange, activeSlide. rewrite Hl in *.
  rewrite (find_first _ _ _ _ Hid Hpre).
  destruct (NoDup_split_ids _ _ _ Hnd) as [_ [Hpost _]].
  rewrite Hid in *. rewrite updateSlide_one; auto.
Qed.

Lemma handleChange_fallback c st first rest :
  NoDup (ids st) -> ~ In (activeSlideId st) (ids st) ->
  slides st = first :: rest ->
  handleChange c st
  = mkState (applyChange c first :: rest) (activeSlideId st).
Proof.
  unfold ids. intros Hnd Hout Hl.
  unfold handleChange, activeSlide. rewrite (find_absent _ _ Hout), Hl.
  cbn [hd_error]. rewrite Hl in Hnd. cbn [map] in Hnd.
  inversion Hnd as [| ? ? Hfirst Hrest]; subst.
  rewrite (updateSlide_one (id first) _ [] first rest); auto.
Qed.

Lemma handleChange_ids c st :
  NoDup (ids st) -> ids (handleChange c st) = ids st.
Proof.
  intros Hnd.
  destruct (in_dec string_dec (activeSlideId st) (ids st)) as [Hin | Hout].
  - destruct (handleChange_active c st Hnd Hin) as [pre [a [post [Hl [_ ->]]]]].
    unfold ids. cbn [slides]. rewrite Hl, !map_app. cbn [map].
    now rewrite applyChange_id.
  - destruct (slides st) as [| first rest] eqn:Hl.
    + unfold ids, handleChange, activeSlide. rewrite Hl. cbn. now rewrite Hl.
    + rewrite (handleChange_fallback c st first rest Hnd Hout Hl).
      unfold ids. cbn [slides map]. rewrite Hl. cbn [map].
      now rewrite applyChange_id.
Qed.

(** X6. A change made in the form reaches one slide only.  When no
    identifier occurs twice, the slide with the active identifier gets the
    new value of the field and every other slide, the order and all the
    identifiers stay as they are; when the active identifier names no slide,
    it is the first slide that is changed. *)
Theorem handleChange_one_slide c st :
  NoDup (ids st) ->
  (In (activeSlideId st) (ids st) ->
   exists pre active post,
     slides st = pre ++ active :: post /\
     id active = activeSlideId st /\
     handleChange c st
     = mkState (pre ++ applyChange c active :: post) (activeSlideId st)) /\
  (~ In (activeSlideId st) (ids st) ->
   forall first rest,
     slides st = first :: rest ->
     handleChange c st
     = mkState (applyChange c first :: rest) (activeSlideId st)) /\
  ids (handleChange c st) = ids st.
Proof.
  intros Hnd. split; [| split].
  - apply handleChange_active. exact Hnd.
  - intros Hout first rest Hl. now apply handleChange_fallback.
  - apply handleChange_ids. exact Hnd.
Qed.

Lemma handleChange_one_slide_witness :
  slides (handleChange (SetDuration 5) Samples.threeSlides)
  = [applyChange (SetDuration 5) (defaultSlide "a");
     defaultSlide "b"; defaultSlide "c"].
Proof.
  destruct (proj1 (handleChange_one_slide (SetDuration 5) Samples.threeSlides
                     ltac:(repeat constructor; cbn; intuition discriminate))
              ltac:(cbn; auto))
    as [pre [active [post [Hl [Hid Hres]]]]].
  rewrite Hres. cbn [slides].
  destruct pre as [| p pre].
  - cbn in Hl. inversion Hl; subst. reflexivity.
  - cbn in Hl. inversion Hl; subst. cbn in Hid.
    destruct pre as [| p' pre]; cbn in H1; inversion H1; subst.
    + discriminate.
    + destruct pre as [| p'' pre]; cbn in H2; inversion H2; subst;
        [discriminate | destruct pre; discriminate].
Defined.

Lemma syncActive_slides st : slides (syncActive st) = slides st.
Proof. unfold syncActive. now destruct (existsb _ _). Qed.

Lemma syncActive_wellFormed st :
  slides st <> [] -> NoDup (ids st) -> wellFormed (syncActive st).
Proof.
  intros Hne Hnd. unfold wellFormed, ids. rewrite syncActive_slides.
  split; [exact Hne |]. split; [exact Hnd |].
  unfold syncActive.
  destruct (existsb _ (slides st)) eqn:E.
  - apply existsb_exists in E. destruct E as [s [Hin He]].
    apply String.eqb_eq in He. rewrite <- He. now apply in_map.
  - cbn [activeSlideId slides]. destruct (slides st) as [| s rest];
      [congruence | now left].
Qed.

Lemma nonempty_ids st : slides st <> [] <-> ids st <> [].
Proof. unfold ids. destruct (slides st); cbn; split; congruence. Qed.

Lemma handle_keeps_shape ev st :
  slides st <> [] -> NoDup (ids st) -> fresh ev st ->
  slides (handle ev st) <> [] /\ NoDup (ids (handle ev st)).
Proof.
  intros Hne Hnd Hfresh.
  destruct ev as [newId | wanted newId | wanted | wanted direction | c | wanted];
    cbn [handle fresh] in *.
  - unfold handleAddSlide, ids. cbn [slides]. split.
    + destruct (slides st); discriminate.
    + rewrite map_app. cbn [map id defaultSlide].
      apply (Permutation_NoDup (Permutation_cons_append _ _)).
      now constructor.
  - destruct (findIndex wanted (slides st)) as [n |] eqn:E.
    + destruct (handleDuplicateSlide_found wanted newId st n E)
        as [pre [s [post [Hl [_ [_ ->]]]]]].
      unfold ids in *. cbn [slides]. split; [now destruct pre |].
      rewrite Hl in Hnd, Hfresh.
      replace (pre ++ s :: duplicateSlide s newId :: post)
        with ((pre ++ [s]) ++ duplicateSlide s newId :: post)
        by (now rewrite <- app_assoc).
      rewrite map_app. cbn [map id duplicateSlide].
      apply (Permutation_NoDup (Permutation_middle _ _ _)).
      rewrite <- map_app, <- app_assoc. now constructor.
    + unfold handleDuplicateSlide. rewrite E. auto.
  - destruct (Nat.eq_dec (List.length (slides st)) 1) as [H1 | H1].
    + rewrite (handleRemoveSlide_single wanted st H1). auto.
    + destruct (findIndex wanted (slides st)) as [n |] eqn:E.
      * destruct (handleRemoveSlide_found wanted st n Hnd H1 E)
          as [pre [s [post [Hl [_ [_ [_ Hres]]]]]]].
        unfold ids in *. rewrite Hres. rewrite Hl in Hnd, H1.
        split.
        -- rewrite length_app in H1. cbn [List.length] in H1.
           destruct pre, post; cbn in *; try discriminate; lia.
        -- now destruct (NoDup_split_ids _ _ _ Hnd) as [_ [_ H]].
      * apply findIndex_none in E.
        pose proof (handleRemoveSlide_unknown wanted st E) as Hres.
        unfold ids in *. rewrite Hres. auto.
  - destruct (handleReorder_cases wanted direction st)
      as [-> | [pre [a [b [post [Hl ->]]]]]]; [auto |].
    unfold ids in *. cbn [slides]. split; [now destruct pre |].
    rewrite Hl in Hnd.
    refine (Permutation_NoDup (Permutation_map id _) Hnd).
    apply Permutation_app_head, perm_swap.
  - pose proof (handleChange_ids c st Hnd) as Hids.
    split; [| now rewrite Hids].
    apply nonempty_ids. rewrite Hids. now apply nonempty_ids.
  - auto.
Qed.

(** X7. The editor keeps its list in shape.  It starts with one slide, and
    every action of the user keeps at least one slide in the list, keeps the
    identifiers distinct and leaves the active identifier on a slide of the
    list, as long as every identifier [createSlideId] hands out is new. *)
Theorem editor_stays_wellFormed :
  (forall firstNewId, wellFormed (initial firstNewId)) /\
  (forall ev st, wellFormed st -> fresh ev st -> wellFormed (step ev st)) /\
  (forall evs st, wellFormed st -> allFresh evs st ->
                  wellFormed (run evs st)).
Proof.
  assert (Hstep : forall ev st, wellFormed st -> fresh ev st ->
                                wellFormed (step ev st)).
  { intros ev st [Hne [Hnd _]] Hfresh.
    destruct (handle_keeps_shape ev st Hne Hnd Hfresh) as [Hne' Hnd'].
    apply syncActive_wellFormed; assumption. }
  split; [| split; [exact Hstep |]].
  - intros firstNewId. unfold wellFormed, initial, ids. cbn.
    split; [discriminate |]. split; [| now left].
    constructor; [intros [] | constructor].
  - induction evs as [| ev rest IH]; intros st Hwf Hfresh; [exact Hwf |].
    cbn [run allFresh] in *. destruct Hfresh as [Hev Hrest].
    apply IH; [apply Hstep; assumption | exact Hrest].
Qed.

Lemma editor_stays_wellFormed_witness :
  wellFormed
    (run [AddSlide "b"; DuplicateSlide "a" "c"; RemoveSlide "c";
          Reorder "b" Up; ChangeField (SetTitle "Hello"); SelectSlide "zz";
          RemoveSlide "a"; RemoveSlide "b"]
         (initial "a")).
Proof.
  apply (proj2 (proj2 editor_stays_wellFormed)).
  - apply (proj1 editor_stays_wellFormed).
  - cbn. repeat split; intuition discriminate.
Defined.

End EditorFacts.

(** ** The preview player *)

Lemma rem_shifted_mod (a n : Z) :
  (0 < n)%Z -> Z.rem (Z.rem a n + n) n = (a mod n)%Z.
Proof.
  intros Hn.
  pose proof (Z.rem_bound_abs a n ltac:(lia)) as Hb.
  pose proof (Z.quot_rem' a n) as Hq.
  rewrite Z.rem_mod_nonneg by lia.
  replace (Z.rem a n + n)%Z with (a + (1 - Z.quot a n) * n)%Z by lia.
  apply Z.mod_add. lia.
Qed.

(** X8. The slide on show is always a slide of the list: for a list of [n]
    slides, [n] not 0, the index is the counter modulo [n], between 0 and
    [n - 1] also for a negative counter, and one more tick of the counter
    moves on to the next slide and from the last slide back to the first. *)
Theorem activeIndex_cycles indexCounter slideCount :
  slideCount <> 0%nat ->
  (0 <= activeIndex indexCounter slideCount < Z.of_nat slideCount)%Z /\
  activeIndex indexCounter slideCount
  = (indexCounter mod Z.of_nat slideCount)%Z /\
  activeIndex (indexCounter + 1) slideCount
  = (if (activeIndex indexCounter slideCount =? Z.of_nat slideCount - 1)%Z
     then 0 else activeIndex indexCounter slideCount + 1)%Z.
Proof.
  intros Hn. unfold activeIndex.
  apply Nat.eqb_neq in Hn. rewrite Hn. apply Nat.eqb_neq in Hn.
  set (n := Z.of_nat slideCount). assert (Hpos : (0 < n)%Z) by lia.
  rewrite !rem_shifted_mod by exact Hpos.
  pose proof (Z.mod_pos_bound indexCounter n Hpos) as Hb.
  split; [exact Hb |]. split; [reflexivity |].
  pose proof (Z.div_mod indexCounter n ltac:(lia)) as Hd.
  destruct (Z.eqb_spec (indexCounter mod n) (n - 1)) as [He | Hne].
  - symmetry. apply (Z.mod_unique_pos _ _ (indexCounter / n + 1)); lia.
  - symmetry. apply (Z.mod_unique_pos _ _ (indexCounter / n)); lia.
Qed.

Lemma activeIndex_cycles_witness :
  activeIndex (-1) 3 = 2%Z /\ activeIndex (-1 + 1) 3 = 0%Z.
Proof.
  destruct (activeIndex_cycles (-1) 3 ltac:(discriminate)) as [_ [H1 H2]].
  split; [rewrite H1; reflexivity |].
  rewrite H2, H1. reflexivity.
Defined.

(** ** The shape of an export run *)

Lemma Emits_Logs P {A} (m : M A) : Emits P m -> Logs P m.
Proof.
  intros H r r' res Hrun. destruct (H _ _ _ Hrun) as [_ Hl]. exact Hl.
Qed.

Lemma Logs_ret P {A} (a : A) : Logs P (ret a).
Proof. apply Emits_Logs, Emits_ret. Qed.

Lemma Logs_throw P {A} e : Logs P (@throw A e).
Proof. apply Emits_Logs, Emits_throw. Qed.

Lemma Logs_emit (P : Action -> bool) a : P a = true -> Logs P (emit a).
Proof. intros H. apply Emits_Logs, Emits_emit, H. Qed.

Lemma Logs_update P f : (forall r, log (f r) = log r) -> Logs P (update f).
Proof.
  intros Hf r r' res H. inversion H; subst. exists [].
  now rewrite Hf, app_nil_r.
Qed.

Lemma Logs_gets P {A} (f : Run -> A) : Logs P (gets f).
Proof.
  intros r r' res H. inversion H; subst. exists []. now rewrite app_nil_r.
Qed.

Lemma Logs_bind P {A B} (m : M A) (k : A -> M B) :
  Logs P m -> (forall a, Logs P (k a)) -> Logs P (bind m k).
Proof.
  intros Hm Hk r r' res H. unfold bind in H.
  destruct (m r) as [r1 [e | a]] eqn:E.
  - inversion H; subst. exact (Hm _ _ _ E).
  - destruct (Hm _ _ _ E) as [l1 [Hl1 Hp1]].
    destruct (Hk a _ _ _ H) as [l2 [Hl2 Hp2]].
    exists (l1 ++ l2). rewrite Hl2, Hl1, app_assoc. split; [reflexivity |].
    now rewrite forallb_app, Hp1, Hp2.
Qed.

Lemma Logs_weaken (P Q : Action -> bool) {A} (m : M A) :
  (forall a, P a = true -> Q a = true) -> Logs P m -> Logs Q m.
Proof.
  intros HPQ Hm r r' res H. destruct (Hm _ _ _ H) as [l [Hl Hp]].
  exists l. split; [exact Hl |]. exact (forallb_impl _ _ _ HPQ Hp).
Qed.

Lemma settle_render a : isSettle a = true -> isRender a = true.
Proof. destruct a; auto. Qed.

Lemma Logs_dispatchAll_render evs : Logs isRender (dispatchAll evs).
Proof.
  apply (Logs_weaken isSettle); [exact settle_render |].
  apply Emits_Logs, Emits_dispatchAll.
Qed.

Lemma Logs_callProgress onProgress value :
  Logs isRender (callProgress onProgress value).
Proof.
  unfold callProgress. destruct onProgress as [callback |];
    [| apply Logs_ret].
  apply Logs_bind; [now apply Logs_emit |]. intros _.
  destruct (callback value); [apply Logs_throw | apply Logs_ret].
Qed.

Lemma Logs_frameLoop host onProgress totalFrames index slide image frameCount :
  forall todo frame,
    Logs isRender (frameLoop host onProgress totalFrames index slide image
                             frameCount todo frame).
Proof.
  induction todo as [| todo IH]; intros frame; cbn [frameLoop];
    [apply Logs_ret |].
  apply Logs_bind; [now apply Logs_emit | intros _].
  apply Logs_bind.
  { unfold when. destruct (trackRequestFrame host);
      [now apply Logs_emit | apply Logs_ret]. }
  intros _. apply Logs_bind; [now apply Logs_update | intros _].
  apply Logs_bind; [apply Logs_gets | intros captured].
  apply Logs_bind; [apply Logs_callProgress | intros _].
  apply Logs_bind; [now apply Logs_emit | intros _].
  apply Logs_bind; [apply Logs_dispatchAll_render | intros _].
  apply IH.
Qed.

Lemma Logs_slideLoop host onProgress totalFrames images :
  forall slides index,
    Logs isRender (slideLoop host onProgress totalFrames images index slides).
Proof.
  induction slides as [| slide rest IH]; intros index; cbn [slideLoop];
    [apply Logs_ret |].
  apply Logs_bind; [apply Logs_frameLoop | intros _; apply IH].
Qed.

(** The render task never throws: it stops the recorder once, after the
    frames, whether the loop came to its end or threw. *)
Lemma renderTask_shape host onProgress totalFrames images slides r r' res :
  renderTask host onProgress totalFrames images slides r = (r', res) ->
  res = inr tt /\
  exists frames tail,
    log r' = log r ++ frames ++ RecorderStop :: tail /\
    forallb isRender frames = true /\ forallb isSettle tail = true.
Proof.
  unfold renderTask, catch. unfold bind at 1.
  destruct (slideLoop host onProgress totalFrames images 0 slides r)
    as [r1 [e | u]] eqn:E;
    destruct (Logs_slideLoop _ _ _ _ _ _ _ _ _ E) as [frames [Hl Hp]].
  - unfold bind. rewrite recorderStop_run. intros H.
    destruct (Emits_reject e _ _ _ H) as [_ [tail [Ht Hs]]].
    cbn [log] in Ht.
    assert (Hres : res = inr tt).
    { unfold reject, bind in H. cbn in H. now inversion H. }
    split; [exact Hres |]. exists frames, tail.
    rewrite Ht, Hl, <- !app_assoc. auto.
  - rewrite recorderStop_run. intros H. inversion H; subst.
    split; [now destruct u |]. exists frames, [].
    cbn [log]. rewrite Hl, <- app_assoc. auto.
Qed.

Lemma perform_shape host slides onProgress recorder images r r' res :
  perform host slides onProgress recorder images r = (r', res) ->
  res = inr recorder /\
  exists frames tail,
    log r' = log r ++ RecorderStart :: frames ++ RecorderStop :: tail /\
    forallb isRender frames = true /\ forallb isSettle tail = true.
Proof.
  unfold perform. unfold bind at 1. rewrite recorderStart_run.
  unfold bind at 1.
  destruct (renderTask _ _ _ _ _ _) as [r1 res1] eqn:E.
  destruct (renderTask_shape _ _ _ _ _ _ _ _ E)
    as [-> [frames [tail [Hl [Hf Ht]]]]].
  cbn [log] in Hl. unfold bind.
  destruct (dispatchAll_returns (finalEvents host) r1) as [r2 E2].
  rewrite E2. intros H. inversion H; subst.
  destruct (Emits_dispatchAll _ _ _ _ E2) as [_ [tail' [Hl' Ht']]].
  split; [reflexivity |]. exists frames, (tail ++ tail').
  rewrite Hl', Hl, <- !app_assoc. cbn [app]. rewrite <- ?app_assoc.
  split; [reflexivity |]. split; [exact Hf |].
  now rewrite forallb_app, Ht, Ht'.
Qed.

(** X9. Every export goes one of two ways.  Either it fails while preparing,
    having done nothing but probe the host, create the canvas, build
    recorders and load images; or it prepares, starts the recorder once,
    renders, stops the recorder exactly once, on a loop that ends and on a
    loop that throws alike, and does nothing after that but settle the
    promise: no frame is drawn and no image is loaded once the recorder is
    stopped, and none is loaded once it is started. *)
Theorem export_run_shape host slides onProgress :
  (exists prep reason,
      exportSlidesToVideo host slides onProgress = (prep, Failed reason) /\
      forallb isPrep prep = true) \/
  (exists prep frames tail out,
      exportSlidesToVideo host slides onProgress
      = (prep ++ RecorderStart :: frames ++ RecorderStop :: tail, out) /\
      forallb isPrep prep = true /\
      forallb isRender frames = true /\
      forallb isSettle tail = true).
Proof.
  destruct (export_cases host slides onProgress)
    as [[r [e [Hprep Hfail]]] | [r [recorder [images [Hprep Hbody]]]]].
  - left. exists (log r), e. split; [exact Hfail |].
    now destruct (prepare_log _ _ _ _ Hprep).
  - right. destruct (prepare_log _ _ _ _ Hprep) as [_ Hp].
    unfold exportSlidesToVideo. rewrite Hbody.
    destruct (perform host slides onProgress recorder images r)
      as [r' res] eqn:E.
    destruct (perform_shape _ _ _ _ _ _ _ _ E)
      as [-> [frames [tail [Hl [Hf Ht]]]]].
    exists (log r), frames, tail. eexists. rewrite Hl. auto.
Qed.

(** ** The negotiation of the recorder *)

Lemma pickRecorder_cons host mime rest r :
  pickRecorder host (mime :: rest) r
  = let r1 := match isTypeSupported host with
              | Some _ => addLog [ProbeType mime] r
              | None => r
              end in
    if notRefused host mime
    then match newMediaRecorder host (Some mime) with
         | inr recorder =>
             (addLog [NewRecorder (Some mime)] r1, inr (Some recorder))
         | inl _ =>
             pickRecorder host rest
                          (addLog [Warn mime]
                                  (addLog [NewRecorder (Some mime)] r1))
         end
    else pickRecorder host rest r1.
Proof.
  cbn [pickRecorder]. unfold notRefused.
  destruct (isTypeSupported host) as [supported |].
  - unfold bind at 1. unfold bind at 1. cbn [emit ret].
    destruct (supported mime); cbn [negb]; [| reflexivity].
    unfold bind at 1. cbn [emit].
    destruct (newMediaRecorder host (Some mime)); reflexivity.
  - unfold bind at 1. cbn [ret]. unfold bind at 1. cbn [emit].
    destruct (newMediaRecorder host (Some mime)); reflexivity.
Qed.

Lemma addLog_log l r : log (addLog l r) = log r ++ l.
Proof. reflexivity. Qed.

Lemma pickRecorder_first host : forall candidates r,
  exists r' l,
    pickRecorder host candidates r
    = (r', inr match find (usable host) candidates with
               | Some mime =>
                   match newMediaRecorder host (Some mime) with
                   | inr recorder => Some recorder
                   | inl _ => None
                   end
               | None => None
               end) /\
    log r' = log r ++ l /\ forallb (negotiates host) l = true.
Proof.
  induction candidates as [| mime rest IH]; intros r.
  - exists r, []. cbn. now rewrite app_nil_r.
  - rewrite pickRecorder_cons. cbn [find]. unfold usable.
    fold (notRefused host mime).
    set (r1 := match isTypeSupported host with
               | Some _ => addLog [ProbeType mime] r
               | None => r
               end).
    assert (H1 : exists l1, log r1 = log r ++ l1
                            /\ forallb (negotiates host) l1 = true).
    { subst r1. destruct (isTypeSupported host).
      - exists [ProbeType mime]. auto.
      - exists []. now rewrite app_nil_r. }
    destruct H1 as [l1 [Hl1 Hp1]]. cbv zeta.
    destruct (notRefused host mime) eqn:Hs; cbn [andb].
    + destruct (newMediaRecorder host (Some mime)) as [e | recorder] eqn:En.
      * destruct (IH (addLog [Warn mime]
                             (addLog [NewRecorder (Some mime)] r1)))
          as [r' [l [Hrun [Hl Hp]]]].
        exists r', (l1 ++ [NewRecorder (Some mime); Warn mime] ++ l).
        split; [exact Hrun |]. rewrite Hl, !addLog_log, Hl1.
        split; [now rewrite <- !app_assoc |].
        rewrite !forallb_app, Hp1, Hp. cbn. now rewrite Hs.
      * exists (addLog [NewRecorder (Some mime)] r1),
               (l1 ++ [NewRecorder (Some mime)]).
        rewrite En. split; [reflexivity |]. rewrite addLog_log, Hl1.
        split; [now rewrite <- app_assoc |].
        rewrite forallb_app, Hp1. cbn. now rewrite Hs.
    + destruct (IH r1) as [r' [l [Hrun [Hl Hp]]]].
      exists r', (l1 ++ l). split; [exact Hrun |]. rewrite Hl, Hl1.
      split; [now rewrite <- app_assoc |].
      now rewrite forallb_app, Hp1, Hp.
Qed.

Lemma find_usable_builds host candidates mime :
  find (usable host) candidates = Some mime ->
  exists recorder, newMediaRecorder host (Some mime) = inr recorder.
Proof.
  intros H. apply find_some in H. destruct H as [_ H].
  unfold usable in H. apply andb_prop in H. destruct H as [_ H].
  destruct (newMediaRecorder host (Some mime)) as [e | recorder];
    [discriminate | now exists recorder].
Qed.

Lemma negotiateRecorder_run host r :
  exists r' l,
    negotiateRecorder host r = (r', negotiationResult host) /\
    log r' = log r ++ l /\ forallb (negotiates host) l = true.
Proof.
  unfold negotiateRecorder, negotiationResult, bind.
  destruct (pickRecorder_first host mimeCandidates r)
    as [r1 [l1 [Hrun [Hl1 Hp1]]]].
  rewrite Hrun.
  destruct (find (usable host) mimeCandidates) as [mime |] eqn:Ef.
  - destruct (find_usable_builds _ _ _ Ef) as [recorder Hb]. rewrite Hb.
    exists r1, l1. auto.
  - cbn [emit].
    destruct (newMediaRecorder host None) as [e | recorder];
      eexists; exists (l1 ++ [NewRecorder None]);
      (split; [reflexivity |]); cbn [log]; rewrite Hl1, <- app_assoc;
      (split; [reflexivity |]); now rewrite forallb_app, Hp1.
Qed.

Lemma find_first_split {A} (f : A -> bool) before x after :
  forallb (fun a => negb (f a)) before = true -> f x = true ->
  find f (before ++ x :: after) = Some x.
Proof.
  induction before as [| b before IH]; intros Hb Hx; cbn.
  - now rewrite Hx.
  - cbn in Hb. apply andb_prop in Hb. destruct Hb as [H1 H2].
    apply negb_true_iff in H1. rewrite H1. now apply IH.
Qed.

Lemma find_none_all {A} (f : A -> bool) l :
  forallb (fun a => negb (f a)) l = true -> find f l = None.
Proof.
  induction l as [| b l IH]; intros Hb; [reflexivity |].
  cbn in *. apply andb_prop in Hb. destruct Hb as [H1 H2].
  apply negb_true_iff in H1. rewrite H1. now apply IH.
Qed.

(** X10. The negotiation settles on the first candidate, in the order of
    preference, that the host does not refuse and builds a recorder for; with
    no such candidate it builds a recorder with no type requested, and fails,
    with the host's exception, only when that fails too.  It never asks for a
    recorder of a type the host has refused. *)
Theorem negotiateRecorder_first_usable host r :
  exists r' asked,
    negotiateRecorder host r = (r', negotiationResult host) /\
    log r' = log r ++ asked /\
    (forall mime, In (NewRecorder (Some mime)) asked ->
                  notRefused host mime = true) /\
    (forall before mime after,
        mimeCandidates = before ++ mime :: after ->
        forallb (fun m => negb (usable host m)) before = true ->
        usable host mime = true ->
        negotiationResult host = newMediaRecorder host (Some mime) /\
        exists recorder, negotiationResult host = inr recorder) /\
    (forallb (fun m => negb (usable host m)) mimeCandidates = true ->
     negotiationResult host = newMediaRecorder host None).
Proof.
  destruct (negotiateRecorder_run host r) as [r' [asked [Hrun [Hl Hp]]]].
  exists r', asked. split; [exact Hrun |]. split; [exact Hl |].
  split; [| split].
  - intros mime Hin. rewrite forallb_forall in Hp. exact (Hp _ Hin).
  - intros before mime after Hc Hb Hm. unfold negotiationResult.
    rewrite Hc, (find_first_split _ _ _ _ Hb Hm). split; [reflexivity |].
    unfold usable in Hm. apply andb_prop in Hm. destruct Hm as [_ Hm].
    destruct (newMediaRecorder host (Some mime)) as [e | recorder];
      [discriminate | now exists recorder].
  - intros Hall. unfold negotiationResult.
    now rewrite (find_none_all _ _ Hall).
Qed.

Lemma negotiateRecorder_first_usable_witness :
  negotiationResult Sample.goodHost
  = inr (mkRecorder (Some "video/webm;codecs=vp8"%string)
                    "video/webm;codecs=vp8"%string).
Proof.
  destruct (negotiateRecorder_first_usable Sample.goodHost initialRun)
    as [r' [asked [_ [_ [_ [Hfirst _]]]]]].
  destruct (Hfirst ["video/webm;codecs=vp9"%string]
                   "video/webm;codecs=vp8"%string
                   ["video/webm"%string] eq_refl eq_refl eq_refl)
    as [Hres _].
  rewrite Hres. reflexivity.
Defined.

(** ** What can stop the preparation *)

Lemma prepare_passes host slides r :
  hasWindow host = true -> hasMediaRecorder host = true ->
  slides <> [] -> context2d host = true ->
  prepare host slides r
  = bind (negotiateRecorder host)
         (fun recorder =>
            bind (prefetchImages host slides)
                 (fun images => ret (recorder, images)))
         (addLog [ProbeWindow; ProbeMediaRecorder;
                  CreateCanvas CANVAS_WIDTH CANVAS_HEIGHT; GetContext;
                  CaptureStream (inject_Z FPS)] r).
Proof.
  intros Hw Hm Hne Hc. unfold prepare, ensureMediaRecorder.
  rewrite Hw, Hm, Hc. destruct slides as [| s rest]; [congruence |].
  cbn [List.length Nat.eqb].
  unfold bind at 1 2 3 4 5 6 7 8 9. cbn [emit ret log promise chunks recording capturedFrames].
  unfold addLog. rewrite <- !app_assoc. reflexivity.
Qed.

Lemma negotiates_prep host a : negotiates host a = true -> isPrep a = true.
Proof. destruct a as [| | | | | | [m |] | | | | | | | | | |]; auto. Qed.

Lemma negotiates_no_image host l u :
  forallb (negotiates host) l = true -> ~ In (SetImageSrc u) l.
Proof.
  intros H Hin. rewrite forallb_forall in H. specialize (H _ Hin).
  discriminate.
Qed.

(** X11. What stops an export before it starts, in the order the checks are
    made: no window, no MediaRecorder, no slide (C1), no 2D context, and
    last a negotiation that ends on an exception of the host, in which case
    no image has been loaded.  An export that passes all of them starts the
    recorder. *)
Theorem export_preparation host slides onProgress :
  (hasWindow host = false ->
   exportSlidesToVideo host slides onProgress
   = ([ProbeWindow], Failed clientOnlyError)) /\
  (hasWindow host = true -> hasMediaRecorder host = false ->
   exportSlidesToVideo host slides onProgress
   = ([ProbeWindow; ProbeMediaRecorder], Failed unsupportedError)) /\
  (hasWindow host = true -> hasMediaRecorder host = true ->
   slides <> [] -> context2d host = false ->
   exportSlidesToVideo host slides onProgress
   = ([ProbeWindow; ProbeMediaRecorder;
       CreateCanvas CANVAS_WIDTH CANVAS_HEIGHT; GetContext],
      Failed noContextError)) /\
  (hasWindow host = true -> hasMediaRecorder host = true ->
   slides <> [] -> context2d host = true ->
   forall e, negotiationResult host = inl e ->
     exists prep,
       exportSlidesToVideo host slides onProgress = (prep, Failed e) /\
       forallb isPrep prep = true /\
       forall u, ~ In (SetImageSrc u) prep) /\
  (hasWindow host = true -> hasMediaRecorder host = true ->
   slides <> [] -> context2d host = true ->
   forall recorder, negotiationResult host = inr recorder ->
     In RecorderStart (fst (exportSlidesToVideo host slides onProgress))).
Proof.
  split; [| split; [| split; [| split]]].
  - intros Hw. unfold exportSlidesToVideo, exportBody, ensureMediaRecorder.
    now rewrite Hw.
  - intros Hw Hm. unfold exportSlidesToVideo, exportBody, ensureMediaRecorder.
    now rewrite Hw, Hm.
  - intros Hw Hm Hne Hc.
    unfold exportSlidesToVideo, exportBody, ensureMediaRecorder.
    rewrite Hw, Hm, Hc. destruct slides; [congruence | reflexivity].
  - intros Hw Hm Hne Hc e He.
    unfold exportSlidesToVideo. rewrite exportBody_split. unfold bind at 1.
    rewrite (prepare_passes host slides initialRun Hw Hm Hne Hc).
    unfold bind at 1.
    destruct (negotiateRecorder_run host
                (addLog [ProbeWindow; ProbeMediaRecorder;
                         CreateCanvas CANVAS_WIDTH CANVAS_HEIGHT; GetContext;
                         CaptureStream (inject_Z FPS)] initialRun))
      as [r' [l [Hrun [Hl Hp]]]].
    rewrite Hrun, He. exists (log r'). split; [reflexivity |].
    rewrite Hl. cbn [addLog log initialRun app]. split.
    + cbn [forallb isPrep andb].
      exact (forallb_impl _ _ _ (negotiates_prep host) Hp).
    + intros u Hin. cbn [In] in Hin.
      destruct Hin as [H | [H | [H | [H | [H | H]]]]]; try discriminate.
      exact (negotiates_no_image host l u Hp H).
  - intros Hw Hm Hne Hc recorder Hr.
    destruct (export_cases host slides onProgress)
      as [[r [e [Hprep Hfail]]] | [r [rec [images [Hprep Hbody]]]]].
    + exfalso. rewrite (prepare_passes host slides initialRun Hw Hm Hne Hc)
        in Hprep.
      unfold bind at 1 in Hprep.
      destruct (negotiateRecorder_run host
                  (addLog [ProbeWindow; ProbeMediaRecorder;
                           CreateCanvas CANVAS_WIDTH CANVAS_HEIGHT;
                           GetContext; CaptureStream (inject_Z FPS)]
                          initialRun))
        as [r' [l [Hrun _]]].
      rewrite Hrun, Hr in Hprep. unfold bind in Hprep.
      destruct (prefetchImages_result host slides r') as [r2 Hpf].
      rewrite Hpf in Hprep. discriminate.
    + unfold exportSlidesToVideo. rewrite Hbody.
      destruct (perform host slides onProgress rec images r)
        as [r' res] eqn:E.
      destruct (perform_shape _ _ _ _ _ _ _ _ E)
        as [-> [frames [tail [Hl _]]]].
      cbn [fst]. rewrite Hl. apply in_or_app. right. now left.
Qed.

Lemma export_preparation_witness :
  exportSlidesToVideo Samples.hostWithoutContext [Sample.slide 3 None] None
  = ([ProbeWindow; ProbeMediaRecorder;
      CreateCanvas CANVAS_WIDTH CANVAS_HEIGHT; GetContext],
     Failed noContextError).
Proof.
  apply (proj1 (proj2 (proj2 (export_preparation Samples.hostWithoutContext
                                [Sample.slide 3 None] None))));
    [reflexivity | reflexivity | discriminate | reflexivity].
Defined.

(** ** A recorder that stays silent until it is stopped *)

Lemma addLog_nil r : addLog [] r = r.
Proof. destruct r. unfold addLog. cbn. now rewrite app_nil_r. Qed.

Lemma addLog_addLog l1 l2 r : addLog l2 (addLog l1 r) = addLog (l1 ++ l2) r.
Proof. unfold addLog. cbn. now rewrite app_assoc. Qed.

Lemma OnlyLogs_ret {A} (a : A) : OnlyLogs (ret a).
Proof.
  intros r r' res H. inversion H; subst. exists []. now rewrite addLog_nil.
Qed.

Lemma OnlyLogs_throw {A} e : OnlyLogs (@throw A e).
Proof.
  intros r r' res H. inversion H; subst. exists []. now rewrite addLog_nil.
Qed.

Lemma OnlyLogs_emit a : OnlyLogs (emit a).
Proof. intros r r' res H. inversion H; subst. now exists [a]. Qed.

Lemma OnlyLogs_bind {A B} (m : M A) (k : A -> M B) :
  OnlyLogs m -> (forall a, OnlyLogs (k a)) -> OnlyLogs (bind m k).
Proof.
  intros Hm Hk r r' res H. unfold bind in H.
  destruct (m r) as [r1 [e | a]] eqn:E.
  - inversion H; subst. exact (Hm _ _ _ E).
  - destruct (Hm _ _ _ E) as [l1 ->].
    destruct (Hk a _ _ _ H) as [l2 ->].
    exists (l1 ++ l2). apply addLog_addLog.
Qed.

Ltac only_logs :=
  repeat first
    [ apply OnlyLogs_bind; [| intros ?]
    | apply OnlyLogs_ret
    | apply OnlyLogs_throw
    | apply OnlyLogs_emit ].

Lemma OnlyLogs_pick host candidates : OnlyLogs (pickRecorder host candidates).
Proof.
  induction candidates as [| mime rest IH]; cbn [pickRecorder]; [only_logs |].
  apply OnlyLogs_bind.
  - destruct (isTypeSupported host); only_logs.
  - intros [|]; [exact IH |].
    apply OnlyLogs_bind; [only_logs |]. intros _.
    destruct (newMediaRecorder host (Some mime)); [| only_logs].
    apply OnlyLogs_bind; [only_logs | intros _; exact IH].
Qed.

Lemma OnlyLogs_prepare host slides : OnlyLogs (prepare host slides).
Proof.
  unfold prepare, ensureMediaRecorder.
  apply OnlyLogs_bind;
    [destruct (hasWindow host), (hasMediaRecorder host); only_logs | intros _].
  apply OnlyLogs_bind;
    [destruct (List.length slides =? 0)%nat; only_logs | intros _].
  apply OnlyLogs_bind; [only_logs | intros _].
  apply OnlyLogs_bind; [only_logs | intros _].
  apply OnlyLogs_bind; [destruct (context2d host); only_logs | intros _].
  apply OnlyLogs_bind; [only_logs | intros _].
  apply OnlyLogs_bind.
  { unfold negotiateRecorder.
    apply OnlyLogs_bind; [apply OnlyLogs_pick |].
    intros [recorder |]; [only_logs |].
    apply OnlyLogs_bind; [only_logs |]. intros _.
    destruct (newMediaRecorder host None); only_logs. }
  intros recorder. apply OnlyLogs_bind; [| intros images; only_logs].
  unfold prefetchImages.
  induction slides as [| s rest IH]; cbn [mapM]; [only_logs |].
  apply OnlyLogs_bind.
  { unfold loadImage. destruct (imageDataUrl s) as [u |]; [| only_logs].
    destruct (String.eqb u ""); only_logs. }
  intros b. apply OnlyLogs_bind; [exact IH | intros bs; only_logs].
Qed.

Lemma prepare_recorder host slides r r' recorder images :
  prepare host slides r = (r', inr (recorder, images)) ->
  negotiationResult host = inr recorder.
Proof.
  unfold prepare. intros H. do 6 bind_inv H. bind_inv H. bind_inv H.
  inversion H; subst.
  match goal with
  | Hn : negotiateRecorder host ?s = _ |- _ =>
      destruct (negotiateRecorder_run host s) as [? [? [Hrun _]]];
      rewrite Hrun in Hn; now inversion Hn
  end.
Qed.

Section Silent.

Variable host : Host.
Variable onProgress : ProgressCallback.
Variable totalFrames : Z.
Variable images : list (option HTMLImageElement).
Hypothesis normal : returnsNormally onProgress.
Hypothesis quiet : silent host.

Lemma frameActions_frameOnly index slide image frameCount frame captured :
  forallb isFrameOnly
          (frameActions host onProgress totalFrames index slide image
                        frameCount frame captured) = true.
Proof.
  unfold frameActions.
  destruct (trackRequestFrame host), onProgress; reflexivity.
Qed.

Lemma frameLoop_silent index slide image frameCount : forall todo frame r,
  exists r' l,
    frameLoop host onProgress totalFrames index slide image frameCount
              todo frame r = (r', inr tt) /\
    promise r' = promise r /\ chunks r' = chunks r /\
    log r' = log r ++ l /\ forallb isFrameOnly l = true.
Proof.
  induction todo as [| todo IH]; intros frame r.
  { exists r, []. rewrite app_nil_r. auto. }
  rewrite (frameLoop_unfold host onProgress totalFrames normal).
  rewrite quiet. unfold bind. cbn [dispatchAll ret].
  destruct (IH (frame + 1)%Z
               (mkRun (log r ++ frameActions host onProgress totalFrames
                                   index slide image frameCount frame
                                   (capturedFrames r + 1)%Z)
                      (promise r) (chunks r) (recording r)
                      (capturedFrames r + 1)%Z))
    as [r' [l [Hrun [Hp [Hc [Hl Hf]]]]]].
  exists r'. eexists. split; [exact Hrun |]. split; [exact Hp |].
  split; [exact Hc |]. cbn [log] in Hl. rewrite Hl, <- app_assoc.
  split; [reflexivity |].
  now rewrite forallb_app, frameActions_frameOnly, Hf.
Qed.

Lemma slideLoop_silent : forall slides index r,
  exists r' l,
    slideLoop host onProgress totalFrames images index slides r
    = (r', inr tt) /\
    promise r' = promise r /\ chunks r' = chunks r /\
    log r' = log r ++ l /\ forallb isFrameOnly l = true.
Proof.
  induction slides as [| slide rest IH]; intros index r.
  { exists r, []. rewrite app_nil_r. auto. }
  cbn [slideLoop]. unfold bind.
  destruct (frameLoop_silent index slide (imageAt images index)
              (frameCountOf slide) (Z.to_nat (frameCountOf slide)) 0%Z r)
    as [r1 [l1 [E1 [Hp1 [Hc1 [Hl1 Hf1]]]]]].
  rewrite E1. destruct (IH (S index) r1) as [r2 [l2 [E2 [Hp2 [Hc2 [Hl2 Hf2]]]]]].
  exists r2, (l1 ++ l2). split; [exact E2 |].
  split; [congruence |]. split; [congruence |].
  rewrite Hl2, Hl1, <- app_assoc. split; [reflexivity |].
  now rewrite forallb_app, Hf1, Hf2.
Qed.

End Silent.

Lemma dispatchAll_settled evs : forall r r' res,
  promise r <> Pending ->
  dispatchAll evs r = (r', res) -> promise r' = promise r.
Proof.
  induction evs as [| ev rest IH]; intros r r' res Hp H.
  - inversion H; subst. reflexivity.
  - cbn [dispatchAll] in H. unfold bind in H.
    destruct (dispatch ev r) as [r1 [e | u]] eqn:E.
    + inversion H; subst.
      destruct ev as [[c |] | [| [name |]] |]; cbn in E;
        try destruct (0 <? size c)%Z; cbn in E;
        destruct (promise r) eqn:Epr; try congruence; discriminate.
    + assert (H1 : promise r1 = promise r).
      { destruct ev as [[c |] | [| [name |]] |]; cbn in E;
          try destruct (0 <? size c)%Z; cbn in E;
          destruct (promise r) eqn:Epr; try congruence;
          inversion E; subst; cbn; congruence. }
      rewrite <- H1. apply (IH r1 r' res); [congruence | exact H].
Qed.

Lemma dispatchAll_verdict recorder evs : forall r r' res,
  promise r = Pending ->
  dispatchAll evs r = (r', res) ->
  outcomeOf recorder r' = verdict recorder evs (chunks r).
Proof.
  induction evs as [| ev rest IH]; intros r r' res Hp H.
  - inversion H; subst. unfold outcomeOf. now rewrite Hp.
  - cbn [dispatchAll] in H. unfold bind in H.
    destruct ev as [[c |] | payload |].
    + cbn [verdict dispatch onDataAvailable] in *.
      destruct (0 <? size c)%Z eqn:Es; cbn in H.
      * exact (IH (pushChunk c r) r' res Hp H).
      * exact (IH r r' res Hp H).
    + cbn in H. cbn [verdict]. exact (IH r r' res Hp H).
    + cbn [verdict].
      assert (Hstep : exists r1,
                 dispatch (EvError payload) r = (r1, inr tt)
                 /\ promise r1 = Rejected (errorOf payload)).
      { destruct payload as [| [name |]]; cbn; rewrite Hp;
          eexists; split; reflexivity. }
      destruct Hstep as [r1 [E1 Hp1]]. rewrite E1 in H.
      unfold outcomeOf.
      rewrite (dispatchAll_settled rest r1 r' res); [now rewrite Hp1 | |
        exact H].
      rewrite Hp1. discriminate.
    + cbn [verdict].
      assert (Hstep : exists r1,
                 dispatch EvStop r = (r1, inr tt)
                 /\ promise r1 = Resolved (chunks r)).
      { cbn. rewrite Hp. eexists; split; reflexivity. }
      destruct Hstep as [r1 [E1 Hp1]]. rewrite E1 in H.
      unfold outcomeOf.
      rewrite (dispatchAll_settled rest r1 r' res); [now rewrite Hp1 | |
        exact H].
      rewrite Hp1. discriminate.
Qed.

(** X12. With a recorder that fires nothing while the loop runs, and a
    callback that returns normally, what the recorder fires once it is
    stopped decides the export.  The first [stop] fulfils it, with the blob
    made of the chunks of positive size delivered before that [stop], in
    order; an [error] that comes first rejects it; with neither, the export
    never settles.  Chunks that are empty, or delivered after the [stop], are
    not in the blob, and what the image decoder did plays no part. *)
Theorem silent_recorder_verdict host slides onProgress log0 out :
  silent host -> returnsNormally onProgress ->
  exportSlidesToVideo host slides onProgress = (log0, out) ->
  In RecorderStart log0 ->
  exists recorder,
    negotiationResult host = inr recorder /\
    out = verdict recorder (finalEvents host) [].
Proof.
  intros Hq normal Hrun Hstart.
  destruct (export_cases host slides onProgress)
    as [[r [e [Hprep Hfail]]] | [r [recorder [images [Hprep Hbody]]]]].
  - rewrite Hfail in Hrun. inversion Hrun; subst.
    destruct (prepare_log _ _ _ _ Hprep) as [_ Hp].
    exfalso. exact (prep_no_start _ Hp Hstart).
  - exists recorder. split; [exact (prepare_recorder _ _ _ _ _ _ Hprep) |].
    destruct (OnlyLogs_prepare host slides _ _ _ Hprep) as [l ->].
    unfold exportSlidesToVideo in Hrun. rewrite Hbody in Hrun.
    unfold perform, renderTask, catch in Hrun.
    unfold bind at 1 in Hrun. rewrite recorderStart_run in Hrun.
    unfold bind at 1 in Hrun. unfold bind at 1 in Hrun.
    match type of Hrun with
    | context [slideLoop _ _ _ _ _ _ ?s] =>
        destruct (slideLoop_silent host onProgress (totalFramesOf slides)
                    images normal Hq slides 0%nat s)
          as [r1 [frames [E1 [Hp1 [Hc1 _]]]]]
    end.
    rewrite E1, recorderStop_run in Hrun. unfold bind in Hrun.
    match type of Hrun with
    | context [dispatchAll (finalEvents host) ?s] =>
        destruct (dispatchAll_returns (finalEvents host) s) as [r2 E2];
        assert (Hpend : promise s = Pending)
          by (cbn [promise]; rewrite Hp1; reflexivity);
        pose proof (dispatchAll_verdict recorder _ _ _ _ Hpend E2) as Hv
    end.
    rewrite E2 in Hrun.
    cbn [chunks] in Hv. rewrite Hc1 in Hv. cbn [chunks addLog initialRun] in Hv.
    inversion Hrun; subst. exact Hv.
Qed.

Lemma silent_recorder_verdict_witness :
  snd (exportSlidesToVideo Samples.chattyHost [Sample.slide (1 # 10) None]
                           Sample.quiet)
  = Fulfilled (mkBlob [mkChunk 1 5] "video/webm;codecs=vp9").
Proof.
  assert (Hstart : In RecorderStart
                      (fst (exportSlidesToVideo Samples.chattyHost
                              [Sample.slide (1 # 10) None] Sample.quiet))).
  { vm_compute. do 6 right. left. reflexivity. }
  destruct (silent_recorder_verdict Samples.chattyHost
              [Sample.slide (1 # 10) None] Sample.quiet _ _
              (fun n => eq_refl) (fun v => eq_refl)
              (surjective_pairing _) Hstart)
    as [recorder [Hrec Hout]].
  rewrite Hout. inversion Hrec; subst. reflexivity.
Defined.

(** ** The progress of a frame and the entrance it draws *)

Lemma clamp01_inside t : 0 <= t -> t <= 1 -> clamp01 t = t.
Proof.
  intros H0 H1. unfold clamp01, Num.max, Num.min.
  apply NumFacts.ltb_ge in H0. rewrite H0.
  apply NumFacts.gtb_le in H1. now rewrite H1.
Qed.

Lemma ltb_proper a b c : a == b -> Num.ltb a c = Num.ltb b c.
Proof. intros H. unfold Num.ltb. now rewrite H. Qed.

Lemma ease_proper a b : a == b -> easeInOutCubic a == easeInOutCubic b.
Proof.
  intros H. unfold easeInOutCubic. rewrite (ltb_proper a b _ H).
  destruct (Num.ltb b (1 # 2)).
  - now rewrite H.
  - rewrite !NumFacts.pow3. now rewrite H.
Qed.

Lemma frameProgressOf_range frameCount frame :
  (1 <= frameCount)%Z -> (0 <= frame < frameCount)%Z ->
  0 <= frameProgressOf frameCount frame /\
  frameProgressOf frameCount frame <= 1.
Proof.
  intros Hc Hf. unfold frameProgressOf.
  destruct (Z.eqb_spec frameCount 1) as [-> | Hne]; [split; lra |].
  assert (Hpos : (0 < frameCount - 1)%Z) by lia.
  split.
  - apply Qle_shift_div_l.
    + change 0 with (inject_Z 0). rewrite <- Zlt_Qlt. exact Hpos.
    + rewrite Qmult_0_l. change 0 with (inject_Z 0). rewrite <- Zle_Qle. lia.
  - apply Qle_shift_div_r.
    + change 0 with (inject_Z 0). rewrite <- Zlt_Qlt. exact Hpos.
    + rewrite Qmult_1_l. rewrite <- Zle_Qle. lia.
Qed.

(** X13. The progress the loop hands to the compositor.  For a slide of
    [frameCount] frames it lies between 0 and 1, so the clamp leaves it as it
    is; it grows from one frame to the next; it is 0 on the first of several
    frames and 1 on the last frame.  A slide too short for a single frame,
    shorter than a sixtieth of a second, still gets one frame, drawn at
    progress 1. *)
Theorem frameProgressOf_sweeps frameCount frame :
  (1 <= frameCount)%Z -> (0 <= frame < frameCount)%Z ->
  0 <= frameProgressOf frameCount frame <= 1 /\
  clamp01 (frameProgressOf frameCount frame)
  = frameProgressOf frameCount frame /\
  ((frame + 1 < frameCount)%Z ->
   frameProgressOf frameCount frame
   < frameProgressOf frameCount (frame + 1)) /\
  ((1 < frameCount)%Z -> frameProgressOf frameCount 0 == 0) /\
  frameProgressOf frameCount (frameCount - 1) == 1 /\
  (forall slide, duration slide < 1 # 60 ->
                 frameCountOf slide = 1%Z /\
                 frameProgressOf (frameCountOf slide) 0 = 1).
Proof.
  intros Hc Hf.
  destruct (frameProgressOf_range frameCount frame Hc Hf) as [H0 H1].
  split; [split; assumption |].
  split; [apply clamp01_inside; assumption |].
  split; [| split; [| split]].
  - intros Hnext. unfold frameProgressOf.
    destruct (Z.eqb_spec frameCount 1) as [-> | Hne]; [lia |].
    unfold Qdiv. apply Qmult_lt_compat_r.
    + apply Qinv_lt_0_compat. change 0 with (inject_Z 0).
      rewrite <- Zlt_Qlt. lia.
    + rewrite <- Zlt_Qlt. lia.
  - intros Hmany. unfold frameProgressOf.
    destruct (Z.eqb_spec frameCount 1) as [-> | Hne]; [lia |].
    unfold Qdiv. now rewrite Qmult_0_l.
  - unfold frameProgressOf.
    destruct (Z.eqb_spec frameCount 1) as [-> | Hne]; [reflexivity |].
    apply ratio_one. lia.
  - intros slide Hd.
    assert (Hfc : frameCountOf slide = 1%Z).
    { unfold frameCountOf. change (inject_Z FPS) with 30.
      pose proof (round_small _ (DoubleFacts.mul_small _ Hd)). lia. }
    rewrite Hfc. split; reflexivity.
Qed.

Lemma frameProgressOf_sweeps_witness :
  frameProgressOf 90 44 < frameProgressOf 90 45 /\
  clamp01 (frameProgressOf 90 89) = frameProgressOf 90 89.
Proof.
  destruct (frameProgressOf_sweeps 90 44 ltac:(lia) ltac:(lia))
    as [_ [_ [Hgrow _]]].
  destruct (frameProgressOf_sweeps 90 89 ltac:(lia) ltac:(lia))
    as [_ [Hclamp _]].
  split; [apply Hgrow; lia | exact Hclamp].
Defined.

Lemma ease_range t : 0 <= t -> t <= 1 ->
  0 <= easeInOutCubic t /\ easeInOutCubic t <= 1.
Proof.
  intros H0 H1. destruct (Qlt_le_dec t (1 # 2)) as [L | L].
  - split.
    + rewrite (ease_low t L).
      assert (H := cube_mono 0 t (Qle_refl 0) H0).
      setoid_replace (0 * 0 * 0) with 0 in H by reflexivity.
      setoid_replace (4 * t * t * t) with (4 * (t * t * t)) by ring. lra.
    + pose proof (ease_below_half t H0 L). lra.
  - split.
    + pose proof (ease_above_half t L H1). lra.
    + rewrite (ease_high t L).
      assert (Hu : 0 <= 2 - 2 * t) by lra.
      assert (H := cube_mono 0 (2 - 2 * t) (Qle_refl 0) Hu).
      setoid_replace (0 * 0 * 0) with 0 in H by reflexivity.
      set (c := (2 - 2 * t) * (2 - 2 * t) * (2 - 2 * t)) in *.
      setoid_replace (c / 2) with (c * (1 # 2)) by (unfold Qdiv; reflexivity).
      lra.
Qed.

Lemma clamp01_range t : 0 <= clamp01 t /\ clamp01 t <= 1.
Proof.
  unfold clamp01, Num.max, Num.min.
  destruct (Num.ltb t 0) eqn:E0.
  - cbn. split; lra.
  - apply NumFacts.ltb_ge in E0.
    destruct (Num.gtb t 1) eqn:E1; [split; lra |].
    apply NumFacts.gtb_le in E1. split; assumption.
Qed.

Lemma eased_at_end t : 1 <= t -> easeInOutCubic (clamp01 t) == 1.
Proof.
  intros H. destruct (Qlt_le_dec 1 t) as [L | L].
  - rewrite (clamp01_above t L). reflexivity.
  - rewrite clamp01_inside by lra.
    rewrite (ease_proper t 1); [reflexivity | lra].
Qed.

Lemma eased_at_start t : t <= 0 -> easeInOutCubic (clamp01 t) == 0.
Proof.
  intros H. destruct (Qlt_le_dec t 0) as [L | L].
  - rewrite (clamp01_below t L). reflexivity.
  - rewrite clamp01_inside by lra.
    rewrite (ease_proper t 0); [reflexivity | lra].
Qed.

Lemma drawSlideFrame_entrance measureText cw ch slide image t :
  firstTranslate (drawSlideFrame measureText cw ch slide image t)
  = Some ((1 - easeInOutCubic (clamp01 t)) * 60) /\
  firstAlpha (drawSlideFrame measureText cw ch slide image t)
  = Some ((8 # 10) + (2 # 10) * easeInOutCubic (clamp01 t)).
Proof.
  unfold drawSlideFrame.
  destruct (renderWrappedText _ _ _ _ (title slide) _) as [titleCalls y1].
  destruct (renderWrappedText _ _ _ _ (subtitle slide) _) as [subCalls y2].
  destruct image as [img |]; [| split; reflexivity].
  unfold drawImageCover.
  destruct (Num.gtb (width img / height img) (cw / ch)); split; reflexivity.
Qed.

(** X14. The entrance of a frame.  Whatever the progress, in range or not,
    the text block is shifted down by between 0 and 60 pixels and drawn with
    an opacity between 0.8 and 1.  At progress 0 or below the shift is 60
    and the opacity 0.8; at progress 1 or above, which is what the last frame
    of every slide is drawn at, the block is at rest: shift 0, opacity 1. *)
Theorem entrance_settles measureText cw ch slide image t :
  exists shift alpha,
    firstTranslate (drawSlideFrame measureText cw ch slide image t)
    = Some shift /\
    firstAlpha (drawSlideFrame measureText cw ch slide image t)
    = Some alpha /\
    0 <= shift <= 60 /\ 8 # 10 <= alpha <= 1 /\
    (t <= 0 -> shift == 60 /\ alpha == 8 # 10) /\
    (1 <= t -> shift == 0 /\ alpha == 1).
Proof.
  destruct (drawSlideFrame_entrance measureText cw ch slide image t)
    as [Hs Ha].
  do 2 eexists. split; [exact Hs |]. split; [exact Ha |].
  destruct (clamp01_range t) as [C0 C1].
  destruct (ease_range (clamp01 t) C0 C1) as [E0 E1].
  set (e := easeInOutCubic (clamp01 t)) in *.
  split; [split; lra |]. split; [split; lra |]. split.
  - intros H. pose proof (eased_at_start t H) as He. fold e in He.
    rewrite He. split; reflexivity.
  - intros H. pose proof (eased_at_end t H) as He. fold e in He.
    rewrite He. split; reflexivity.
Qed.

Lemma entrance_settles_witness :
  exists shift alpha,
    firstTranslate
      (drawSlideFrame (fun _ => charWidth 10) CANVAS_WIDTH CANVAS_HEIGHT
                      (Sample.slide 3 None) None (frameProgressOf 90 89))
    = Some shift /\
    firstAlpha
      (drawSlideFrame (fun _ => charWidth 10) CANVAS_WIDTH CANVAS_HEIGHT
                      (Sample.slide 3 None) None (frameProgressOf 90 89))
    = Some alpha /\
    shift == 0 /\ alpha == 1.
Proof.
  destruct (entrance_settles (fun _ => charWidth 10) CANVAS_WIDTH
              CANVAS_HEIGHT (Sample.slide 3 None) None
              (frameProgressOf 90 89))
    as [shift [alpha [Hs [Ha [_ [_ [_ Hend]]]]]]].
  exists shift, alpha. split; [exact Hs |]. split; [exact Ha |].
  apply Hend. unfold Qle; simpl; lia.
Defined.

(** ** The calls of a frame *)

Lemma wrapWords_text measure x maxWidth lineHeight :
  forall words line y calls st,
    wrapWords measure x maxWidth lineHeight words line y = (calls, st) ->
    Forall (textAt x) calls.
Proof.
  induction words as [| w rest IH]; intros line y calls st H.
  - inversion H; subst. constructor.
  - cbn [wrapWords] in H.
    destruct (Num.gtb _ maxWidth && negb (String.eqb line "")).
    + destruct (wrapWords measure x maxWidth lineHeight rest _ _)
        as [calls' st'] eqn:E.
      inversion H; subst. constructor.
      * now exists (Str.trimEnd line), y.
      * exact (IH _ _ _ _ E).
    + exact (IH _ _ _ _ H).
Qed.

Lemma renderWrappedText_text measure x maxWidth lineHeight text y :
  Forall (textAt x)
         (fst (renderWrappedText measure x maxWidth lineHeight text y)).
Proof.
  unfold renderWrappedText.
  destruct (wrapWords measure x maxWidth lineHeight _ _ y)
    as [calls [line currentY]] eqn:E.
  cbn [fst]. apply Forall_app. split.
  - exact (wrapWords_text _ _ _ _ _ _ _ _ _ E).
  - destruct (negb _); [| constructor].
    constructor; [| constructor]. now exists (Str.trimEnd line), currentY.
Qed.

Lemma stackAfter_text x depth l rest :
  Forall (textAt x) l -> stackAfter depth (l ++ rest) = stackAfter depth rest.
Proof.
  induction 1 as [| c l [text [y ->]] _ IH]; [reflexivity | exact IH].
Qed.

Lemma filter_text x (p : CanvasCall -> bool) l :
  (forall text y, p (FillText text x y) = false) ->
  Forall (textAt x) l -> filter p l = [].
Proof.
  intros Hp. induction 1 as [| c l [text [y ->]] _ IH]; [reflexivity |].
  cbn. now rewrite Hp.
Qed.

(** X15. Every frame leaves the drawing context as it found it: the two
    [save] calls are matched by the two [restore] calls at the end, and no
    [restore] comes before its [save].  The frame begins by filling the whole
    canvas with the background colour, draws the image once when there is one
    and never otherwise, and puts every line of text at the left margin, 7.5%
    of the canvas width. *)
Theorem drawSlideFrame_balanced measureText cw ch slide image t :
  stackAfter 0 (drawSlideFrame measureText cw ch slide image t) = Some 0%nat /\
  firstn 3 (drawSlideFrame measureText cw ch slide image t)
  = [Save; SetFillStyle (backgroundColor slide); FillRect 0 0 cw ch] /\
  List.length (filter isDrawImage
                      (drawSlideFrame measureText cw ch slide image t))
  = match image with Some _ => 1%nat | None => 0%nat end /\
  Forall (textAt (cw * (75 # 1000)))
         (filter isFillText (drawSlideFrame measureText cw ch slide image t)).
Proof.
  unfold drawSlideFrame.
  pose proof (renderWrappedText_text (measureText (titleFont ch))
                (cw * (75 # 1000)) (cw * (85 # 100)) (ch * (75 # 1000))
                (title slide)
                (baseYOf ch (alignment slide) + ch * (75 # 10000)
                 + ch * (2 # 100))) as Htitle.
  destruct (renderWrappedText _ _ _ _ (title slide) _) as [titleCalls y1].
  pose proof (renderWrappedText_text (measureText (subtitleFont ch))
                (cw * (75 # 1000)) (cw * (85 # 100)) (ch * (5 # 100))
                (subtitle slide) (y1 + ch * (35 # 1000))) as Hsub.
  destruct (renderWrappedText _ _ _ _ (subtitle slide) _) as [subCalls y2].
  cbn [fst] in Htitle, Hsub.
  assert (Himg : forall img,
             exists dx dy dw dh,
               drawImageCover cw ch img
               = [DrawImage img dx dy dw dh;
                  SetFillStyle "rgba(0, 0, 0, 0.35)"; FillRect 0 0 cw ch]).
  { intros img. unfold drawImageCover.
    destruct (Num.gtb _ _); do 4 eexists; reflexivity. }
  split; [| split; [| split]].
  - destruct image as [img |].
    + destruct (Himg img) as [dx [dy [dw [dh ->]]]]. cbn [app stackAfter].
      rewrite (stackAfter_text _ _ _ _ Htitle). cbn [app stackAfter].
      rewrite (stackAfter_text _ _ _ _ Hsub). reflexivity.
    + cbn [app stackAfter].
      rewrite (stackAfter_text _ _ _ _ Htitle). cbn [app stackAfter].
      rewrite (stackAfter_text _ _ _ _ Hsub). reflexivity.
  - reflexivity.
  - assert (Hno : forall text y,
               isDrawImage (FillText text (cw * (75 # 1000)) y) = false)
      by reflexivity.
    destruct image as [img |].
    + destruct (Himg img) as [dx [dy [dw [dh ->]]]].
      rewrite !filter_app, (filter_text _ _ _ Hno Htitle),
        (filter_text _ _ _ Hno Hsub). reflexivity.
    + rewrite !filter_app, (filter_text _ _ _ Hno Htitle),
        (filter_text _ _ _ Hno Hsub). reflexivity.
  - assert (Hkeep : forall l, Forall (textAt (cw * (75 # 1000))) l ->
               Forall (textAt (cw * (75 # 1000))) (filter isFillText l)).
    { intros l Hl. apply Forall_forall. intros c Hc.
      apply filter_In in Hc. rewrite Forall_forall in Hl. now apply Hl. }
    destruct image as [img |];
      [destruct (Himg img) as [dx [dy [dw [dh ->]]]] |];
      rewrite !filter_app; cbn [filter isFillText app];
      repeat (apply Forall_app; split);
      auto; destruct (Num.ltb _ _); cbn [filter isFillText]; constructor.
Qed.

(** ** The background image *)

Lemma Qdiv_mult_cancel a b : ~ b == 0 -> a / b * b == a.
Proof. intros Hb. field. exact Hb. Qed.

(** X16. The background image covers the canvas.  For an image and a canvas
    of positive size the image is drawn at least as wide and as high as the
    canvas, filling one of the two dimensions exactly, with its own aspect
    ratio, and centred: it starts at or before the left and the top edge and
    ends at or behind the right and the bottom edge.  The scrim that follows
    covers the whole canvas. *)
Theorem drawImageCover_covers cw ch image :
  0 < cw -> 0 < ch -> 0 < width image -> 0 < height image ->
  exists dx dy dw dh,
    drawImageCover cw ch image
    = [DrawImage image dx dy dw dh;
       SetFillStyle "rgba(0, 0, 0, 0.35)"; FillRect 0 0 cw ch] /\
    cw <= dw /\ ch <= dh /\ (dw == cw \/ dh == ch) /\
    dw * height image == dh * width image /\
    dx <= 0 /\ dy <= 0 /\ cw <= dx + dw /\ ch <= dy + dh /\
    dx + dw / 2 == cw / 2 /\ dy + dh / 2 == ch / 2.
Proof.
  intros Hcw Hch Hw Hh. unfold drawImageCover.
  assert (Hch0 : ~ ch == 0) by lra.
  assert (Hh0 : ~ height image == 0) by lra.
  assert (Hw0 : ~ width image == 0) by lra.
  assert (Hcw0 : ~ cw == 0) by lra.
  set (a := width image / height image).
  assert (Ha : 0 < a).
  { unfold a. apply Qlt_shift_div_l; [exact Hh | lra]. }
  assert (Ha0 : ~ a == 0) by lra.
  assert (Hah : a * height image == width image).
  { unfold a. apply Qdiv_mult_cancel. exact Hh0. }
  destruct (Num.gtb a (cw / ch)) eqn:E.
  - apply NumFacts.gtb_gt in E.
    assert (Hwide : cw < a * ch).
    { setoid_replace cw with (cw / ch * ch)
        by (symmetry; apply Qdiv_mult_cancel; exact Hch0).
      apply Qmult_lt_compat_r; assumption. }
    do 4 eexists. split; [reflexivity |].
    split; [lra |]. split; [lra |]. split; [right; reflexivity |].
    split.
    { setoid_replace (a * ch * height image) with (ch * (a * height image))
        by ring. now rewrite Hah. }
    split; [| split; [| split; [| split; [| split]]]].
    + setoid_replace ((cw - a * ch) / 2) with ((cw - a * ch) * (1 # 2))
        by (unfold Qdiv; reflexivity). lra.
    + setoid_replace ((ch - ch) / 2) with 0 by (field). lra.
    + setoid_replace ((cw - a * ch) / 2) with ((cw - a * ch) * (1 # 2))
        by (unfold Qdiv; reflexivity). lra.
    + setoid_replace ((ch - ch) / 2) with 0 by (field). lra.
    + field.
    + field.
  - apply NumFacts.gtb_le in E.
    assert (Hhigh : ch <= cw / a).
    { apply Qle_shift_div_l; [exact Ha |].
      setoid_replace cw with (cw / ch * ch)
        by (symmetry; apply Qdiv_mult_cancel; exact Hch0).
      rewrite (Qmult_comm ch a). apply Qmult_le_compat_r; lra. }
    do 4 eexists. split; [reflexivity |].
    split; [lra |]. split; [exact Hhigh |]. split; [left; reflexivity |].
    split.
    { setoid_replace (cw / a * width image) with (cw / a * (a * height image))
        by (now rewrite Hah).
      field. exact Ha0. }
    set (dh := cw / a) in *.
    split; [| split; [| split; [| split; [| split]]]].
    + setoid_replace ((cw - cw) / 2) with 0 by (field). lra.
    + setoid_replace ((ch - dh) / 2) with ((ch - dh) * (1 # 2))
        by (unfold Qdiv; reflexivity). lra.
    + setoid_replace ((cw - cw) / 2) with 0 by (field). lra.
    + setoid_replace ((ch - dh) / 2) with ((ch - dh) * (1 # 2))
        by (unfold Qdiv; reflexivity). lra.
    + field.
    + field.
Qed.

Lemma drawImageCover_covers_witness :
  exists dx dy dw dh,
    drawImageCover CANVAS_WIDTH CANVAS_HEIGHT Sample.picture
    = [DrawImage Sample.picture dx dy dw dh;
       SetFillStyle "rgba(0, 0, 0, 0.35)";
       FillRect 0 0 CANVAS_WIDTH CANVAS_HEIGHT] /\
    CANVAS_WIDTH <= dw /\ CANVAS_HEIGHT <= dh.
Proof.
  destruct (drawImageCover_covers CANVAS_WIDTH CANVAS_HEIGHT Sample.picture)
    as [dx [dy [dw [dh [Hc [Hw [Hh _]]]]]]];
    try reflexivity.
  exists dx, dy, dw, dh. auto.
Defined.

(** ** Greedy wrapping *)

Lemma append_assoc (a b c : string) : ((a ++ b) ++ c = a ++ b ++ c)%string.
Proof. induction a as [| ch a IH]; cbn; [reflexivity | now rewrite IH]. Qed.

Lemma lineOf_snoc group w :
  lineOf (group ++ [w]) = (lineOf group ++ w ++ " ")%string.
Proof.
  induction group as [| v group IH]; [reflexivity |].
  cbn [app lineOf]. rewrite IH, !append_assoc. reflexivity.
Qed.

Lemma lineOf_nonempty group :
  group <> [] -> String.eqb (lineOf group) "" = false.
Proof.
  destruct group as [| w rest]; [congruence |]. intros _.
  cbn [lineOf]. destruct w; reflexivity.
Qed.

Section GroupingFacts.

Variable measure : string -> Q.
Variables (x maxWidth lineHeight : Q).

Local Abbreviation lineText :=
  (fun group : list string => Str.trimEnd (lineOf group)).

Lemma chained_cons group rest :
  chained measure maxWidth (group :: rest)
  <-> match rest with
      | next :: _ => overflows measure maxWidth group next
      | [] => True
      end /\ chained measure maxWidth rest.
Proof. reflexivity. Qed.

(** With the words of [group] pending on the line, the loop cuts the words
    still to come into lines. *)
Lemma wrapWords_groups : forall words group y,
  group <> [] -> fitsLine measure maxWidth group ->
  exists groups final more tail,
    wrapWords measure x maxWidth lineHeight words (lineOf group) y
    = (linesAt x lineHeight (map lineText groups) y,
       (lineOf final, cursorAfter lineHeight (List.length groups) y)) /\
    group ++ words = List.concat groups ++ final /\
    final <> [] /\
    Forall (fun g => g <> []) groups /\
    Forall (fitsLine measure maxWidth) (groups ++ [final]) /\
    chained measure maxWidth (groups ++ [final]) /\
    groups ++ [final] = (group ++ more) :: tail.
Proof.
  induction words as [| w rest IH]; intros group y Hne Hfit.
  - exists [], group, [], []. cbn. rewrite !app_nil_r.
    repeat split; auto.
  - cbn [wrapWords]. rewrite <- lineOf_snoc, (lineOf_nonempty group Hne).
    cbn [negb]. rewrite andb_true_r.
    destruct (Num.gtb (measure (lineOf (group ++ [w]))) maxWidth) eqn:E.
    + destruct (IH [w] (y + lineHeight) ltac:(discriminate)
                   (or_introl eq_refl))
        as [groups [final [more [tail [Hrun [Hw [Hf [Hg [Hfits [Hch Hhd]]]]]]]]]].
      change ((w ++ " ")%string) with (lineOf [w]). rewrite Hrun.
      exists (group :: groups), final, [], (groups ++ [final]).
      cbn [map linesAt List.length List.concat app]. rewrite cursorAfter_shift.
      split; [reflexivity |].
      split; [now rewrite <- app_assoc, <- Hw |].
      split; [exact Hf |]. split; [now constructor |].
      split; [now constructor |].
      split; [| now rewrite app_nil_r].
      apply chained_cons. split; [| exact Hch].
      rewrite Hhd. exact E.
    + destruct (IH (group ++ [w]) y
                   ltac:(destruct group; discriminate)
                   (or_intror E))
        as [groups [final [more [tail [Hrun [Hw [Hf [Hg [Hfits [Hch Hhd]]]]]]]]]].
      rewrite Hrun.
      exists groups, final, (w :: more), tail.
      split; [reflexivity |].
      split; [now rewrite <- Hw, <- app_assoc |].
      split; [exact Hf |]. split; [exact Hg |]. split; [exact Hfits |].
      split; [exact Hch |]. now rewrite Hhd, <- app_assoc.
Qed.

Lemma split_cons sep s : exists w ws, Str.split sep s = w :: ws.
Proof.
  destruct s as [| c s]; cbn; [now exists ""%string, [] |].
  destruct (Ascii.eqb c sep); [eexists; eexists; reflexivity |].
  destruct (Str.split sep s); eexists; eexists; reflexivity.
Qed.

(** X17. What the wrapper draws, for any text and any measurer.  The words
    of the text, in their order, are cut into lines: none is lost, none is
    drawn twice.  A line that holds more than one word is not wider than
    [maxWidth]; a line ends only where the next word would have made it too
    wide; the lines are drawn one line height apart from [y] on, each with
    its trailing white space removed; the last line is left out when it is
    blank; and the cursor returned is one line height below the last line,
    drawn or not. *)
Theorem renderWrappedText_partitions text y :
  exists groups final,
    Str.split Str.space text = List.concat groups ++ final /\
    final <> [] /\
    Forall (fun g => g <> []) groups /\
    Forall (fitsLine measure maxWidth) (groups ++ [final]) /\
    chained measure maxWidth (groups ++ [final]) /\
    renderWrappedText measure x maxWidth lineHeight text y
    = (linesAt x lineHeight
               (map lineText
                    (groups ++ if blankLine final then [] else [final]))
               y,
       cursorAfter lineHeight (S (List.length groups)) y).
Proof.
  unfold renderWrappedText.
  destruct (split_cons Str.space text) as [w [ws Hsplit]]. rewrite Hsplit.
  cbn [wrapWords]. rewrite andb_false_r.
  change (("" ++ w ++ " ")%string) with (lineOf [w]).
  destruct (wrapWords_groups ws [w] y ltac:(discriminate) (or_introl eq_refl))
    as [groups [final [more [tail [Hrun [Hw [Hf [Hg [Hfits [Hch _]]]]]]]]]].
  rewrite Hrun. exists groups, final.
  split; [exact Hw |]. split; [exact Hf |]. split; [exact Hg |].
  split; [exact Hfits |]. split; [exact Hch |].
  unfold blankLine. cbn [cursorAfter].
  destruct (String.eqb (Str.trim (lineOf final)) ""); cbn [negb].
  - now rewrite !app_nil_r.
  - rewrite map_app. cbn [map]. rewrite linesAt_snoc, length_map.
    reflexivity.
Qed.

End GroupingFacts.

(** ** How long the video is *)

Lemma frameCountOf_whole slide n :
  (1 <= n)%Z -> Num.mul (duration slide) 30 == inject_Z n ->
  frameCountOf slide = n.
Proof.
  intros Hn Hd. unfold frameCountOf. change (inject_Z FPS) with 30.
  destruct (round_near (Num.mul (duration slide) 30)) as [Hle Hlt].
  set (m := Num.round (Num.mul (duration slide) 30)) in *.
  rewrite Hd in Hle, Hlt.
  assert (H1 : inject_Z m < inject_Z (n + 1))
    by (rewrite inject_Z_plus; change (inject_Z 1) with 1; lra).
  assert (H2 : inject_Z n < inject_Z (m + 1))
    by (rewrite inject_Z_plus; change (inject_Z 1) with 1; lra).
  rewrite <- Zlt_Qlt in H1, H2. lia.
Qed.

Lemma frameCountOf_halfSeconds slide :
  halfSeconds slide -> inject_Z (frameCountOf slide) == 30 * duration slide.
Proof.
  intros [k [Hk Hd]].
  rewrite (frameCountOf_whole slide (15 * k)); [| lia |].
  - rewrite Hd, inject_Z_mult. change (inject_Z 15) with 15. field.
  - exact (DoubleFacts.mul_half_seconds _ _ Hk Hd).
Qed.

(** X18. How long the exported video is.  A run that starts the recorder,
    with a callback that returns normally, draws as many frames as the frame
    counts of the slides add up to, at least one for every slide.  When every
    duration is a whole number of half seconds, which is all the slider of the
    form allows, the products are not rounded and that is thirty frames for
    each second of the durations added up. *)
Theorem export_length host slides onProgress log0 out :
  returnsNormally onProgress ->
  exportSlidesToVideo host slides onProgress = (log0, out) ->
  In RecorderStart log0 ->
  List.length (drawnFrames log0) = Z.to_nat (totalFramesOf slides) /\
  (List.length slides <= List.length (drawnFrames log0))%nat /\
  (Forall halfSeconds slides ->
   inject_Z (Z.of_nat (List.length (drawnFrames log0)))
   == 30 * totalDuration slides).
Proof.
  intros normal Hrun Hstart.
  destruct (export_completes host slides onProgress log0 out normal Hrun
              (or_introl Hstart)) as [_ [Hd _]].
  rewrite Hd, expectedFrames_length.
  split; [reflexivity |]. split.
  - clear. induction slides as [| s rest IH]; [cbn; lia |].
    rewrite totalFramesOf_cons. cbn [List.length].
    pose proof (frameCountOf_pos s). pose proof (totalFramesOf_nonneg rest).
    lia.
  - intros Hall. rewrite Z2Nat.id by apply totalFramesOf_nonneg.
    clear - Hall. induction Hall as [| s rest Hs _ IH].
    + cbn. reflexivity.
    + rewrite totalFramesOf_cons, inject_Z_plus, IH,
        (frameCountOf_halfSeconds s Hs).
      change (totalDuration (s :: rest))
        with (duration s + totalDuration rest). ring.
Qed.

Lemma export_length_witness :
  List.length
    (drawnFrames
       (fst (exportSlidesToVideo Sample.goodHost
               [Sample.slide (205 # 100) None; Sample.slide 1 None]
               Sample.quiet)))
  = 91%nat.
Proof.
  assert (Hstart : In RecorderStart
                      (fst (exportSlidesToVideo Sample.goodHost
                              [Sample.slide (205 # 100) None;
                               Sample.slide 1 None]
                              Sample.quiet))).
  { vm_compute. do 8 right. left. reflexivity. }
  rewrite (proj1 (export_length Sample.goodHost
                    [Sample.slide (205 # 100) None; Sample.slide 1 None]
                    Sample.quiet
                    _ _ (fun v => eq_refl) (surjective_pairing _) Hstart)).
  vm_compute. reflexivity.
Defined.

(** ** The export button *)

Lemma perform_silent host slides onProgress recorder images r :
  silent host -> returnsNormally onProgress ->
  exists r' frames tail,
    perform host slides onProgress recorder images r = (r', inr recorder) /\
    log r' = log r ++ RecorderStart :: frames ++ RecorderStop :: tail /\
    forallb isFrameOnly frames = true /\ forallb isSettle tail = true.
Proof.
  intros Hq normal. unfold perform, renderTask, catch.
  unfold bind at 1. rewrite recorderStart_run.
  unfold bind at 1. unfold bind at 1.
  match goal with
  | |- context [slideLoop _ _ _ _ _ _ ?s] =>
      destruct (slideLoop_silent host onProgress (totalFramesOf slides)
                  images normal Hq slides 0%nat s)
        as [r1 [frames [E1 [_ [_ [Hl1 Hf1]]]]]]
  end.
  rewrite E1, recorderStop_run. unfold bind.
  match goal with
  | |- context [dispatchAll (finalEvents host) ?s] =>
      destruct (dispatchAll_returns (finalEvents host) s) as [r2 E2];
      destruct (Emits_dispatchAll _ _ _ _ E2) as [_ [tail [Hl2 Ht2]]]
  end.
  rewrite E2. exists r2, frames, tail. split; [reflexivity |].
  cbn [log] in Hl1, Hl2. rewrite Hl2, Hl1, <- !app_assoc. cbn [app].
  rewrite <- ?app_assoc. auto.
Qed.

Lemma replay_prep out settled l rest :
  forallb isPrep l = true ->
  replay out settled (l ++ rest) = replay out settled rest.
Proof.
  induction l as [| a l IH]; intros H; [reflexivity |].
  cbn [forallb] in H. apply andb_prop in H. destruct H as [Ha Hl].
  destruct a; try discriminate; cbn [app replay]; auto.
Qed.

Lemma replay_frames out settled l rest :
  forallb isFrameOnly l = true ->
  replay out settled (l ++ rest)
  = progressUpdates (progressValues l) ++ replay out settled rest.
Proof.
  induction l as [| a l IH]; intros H; [reflexivity |].
  cbn [forallb] in H. apply andb_prop in H. destruct H as [Ha Hl].
  destruct a; try discriminate; cbn [app replay progressValues];
    rewrite (IH Hl); reflexivity.
Qed.

Lemma replay_settled_tail out l :
  forallb isSettle l = true -> replay out true l = [].
Proof.
  induction l as [| a l IH]; intros H; [reflexivity |].
  cbn [forallb] in H. apply andb_prop in H. destruct H as [Ha Hl].
  destruct a; try discriminate; cbn [replay]; auto.
Qed.

Lemma replay_tail out l :
  forallb isSettle l = true -> replay out false l = afterExport out.
Proof.
  destruct l as [| a l]; intros H; [reflexivity |].
  cbn [forallb] in H. apply andb_prop in H. destruct H as [Ha Hl].
  destruct a; try discriminate; cbn [replay];
    rewrite (replay_settled_tail out l Hl); apply app_nil_r.
Qed.

Lemma settle_no_progress l :
  forallb isSettle l = true -> progressValues l = [].
Proof.
  intros H. apply inert_progress. exact (forallb_impl _ _ _ settle_inert H).
Qed.

Lemma exportStateAfter_app st l1 l2 :
  exportStateAfter st (l1 ++ l2)
  = exportStateAfter (exportStateAfter st l1) l2.
Proof.
  revert st. induction l1 as [| a l1 IH]; intros st; [reflexivity |].
  destruct a; cbn; apply IH.
Qed.

Lemma exportStateAfter_updates st values :
  exportStateAfter st (progressUpdates values)
  = match values with [] => st | _ :: _ => Rendering end.
Proof.
  revert st. induction values as [| v rest IH]; intros st; [reflexivity |].
  cbn. rewrite IH. now destruct rest.
Qed.

(** X19. The export button, with a recorder that fires nothing while the
    loop runs.  The page shows "preparing", then "rendering" with each
    progress value in turn, and then what the outcome asks for: on a blob,
    "saving", the download and back to idle; on a failure, the alert and back
    to idle.  So the button is usable again after every export that settles,
    and stays disabled after one that never does. *)
Theorem handleExport_follows host slides :
  silent host ->
  handleExport host slides
  = [SetExportState Preparing; SetExportProgress 0]
    ++ progressUpdates
         (progressValues
            (fst (exportSlidesToVideo host slides exportCallback)))
    ++ afterExport (snd (exportSlidesToVideo host slides exportCallback)) /\
  (snd (exportSlidesToVideo host slides exportCallback) <> NeverSettles ->
   exportStateAfter Idle (handleExport host slides) = Idle) /\
  (snd (exportSlidesToVideo host slides exportCallback) = NeverSettles ->
   exportStateAfter Idle (handleExport host slides) <> Idle).
Proof.
  intros Hq.
  assert (Hshape :
    replay (snd (exportSlidesToVideo host slides exportCallback)) false
           (fst (exportSlidesToVideo host slides exportCallback))
    = progressUpdates
        (progressValues
           (fst (exportSlidesToVideo host slides exportCallback)))
      ++ afterExport (snd (exportSlidesToVideo host slides exportCallback))).
  { destruct (export_cases host slides exportCallback)
      as [[r [e [Hprep Hfail]]] | [r [recorder [images [Hprep Hbody]]]]].
    - rewrite Hfail. cbn [fst snd].
      destruct (prepare_log _ _ _ _ Hprep) as [_ Hp].
      rewrite (inert_progress _ (forallb_impl _ _ _ prep_inert Hp)).
      rewrite <- (app_nil_r (log r)) at 1.
      rewrite (replay_prep _ _ _ _ Hp). reflexivity.
    - destruct (prepare_log _ _ _ _ Hprep) as [_ Hp].
      destruct (perform_silent host slides exportCallback recorder images r
                  Hq (fun v => eq_refl))
        as [r' [frames [tail [Hperf [Hl [Hf Ht]]]]]].
      unfold exportSlidesToVideo. rewrite Hbody, Hperf. cbn [fst snd].
      rewrite Hl, (replay_prep _ _ _ _ Hp). cbn [replay].
      rewrite (replay_frames _ _ _ _ Hf). cbn [replay].
      rewrite (replay_tail _ _ Ht).
      rewrite !progressValues_app.
      rewrite (inert_progress _ (forallb_impl _ _ _ prep_inert Hp)).
      cbn [progressValues app]. rewrite progressValues_app.
      cbn [progressValues]. rewrite (settle_no_progress _ Ht), app_nil_r.
      reflexivity. }
  unfold handleExport. rewrite Hshape. split; [reflexivity |].
  generalize (snd (exportSlidesToVideo host slides exportCallback)) as out.
  generalize (progressValues
                (fst (exportSlidesToVideo host slides exportCallback))) as vs.
  intros vs out. split; intros Hout.
  - rewrite !exportStateAfter_app.
    destruct out; [reflexivity | reflexivity | now elim Hout].
  - rewrite Hout. cbn [afterExport]. rewrite app_nil_r.
    rewrite exportStateAfter_app, exportStateAfter_updates.
    destruct vs; discriminate.
Qed.

Lemma handleExport_follows_witness :
  exportStateAfter Idle
    (handleExport Sample.goodHost [Sample.slide (1 # 10) None])
  = Idle.
Proof.
  apply (proj1 (proj2 (handleExport_follows Sample.goodHost
                         [Sample.slide (1 # 10) None] (fun n => eq_refl)))).
  vm_compute. discriminate.
Defined.

Lemma replay_settled_progress out l :
  progressValues l <> [] ->
  forall st, exportStateAfter st (replay out true l) = Rendering.
Proof.
  induction l as [| a l IH]; intros H st; [now elim H |].
  destruct a; cbn [replay progressValues] in *; auto.
  cbn [exportStateAfter].
  destruct (progressValues l) eqn:E.
  - assert (Hnil : forall l', progressValues l' = [] ->
                              replay out true l' = []).
    { clear. induction l' as [| a l' IH]; intros H; [reflexivity |].
      destruct a; cbn [replay progressValues] in *; auto; discriminate. }
    now rewrite (Hnil l E).
  - apply IH. discriminate.
Qed.

(** X20. The export button after a report that comes too late.  Whenever a
    progress report follows the call that settled the export, as it does when
    the recorder fires an error or a stop while the loop still has frames to
    draw, the page ends in the "rendering" state, not in the idle state: the
    button stays disabled. *)
Theorem handleExport_left_rendering host slides before settle after :
  fst (exportSlidesToVideo host slides exportCallback)
  = before ++ settle :: after ->
  isSettle settle = true ->
  progressValues after <> [] ->
  exportStateAfter Idle (handleExport host slides) = Rendering.
Proof.
  intros Hlog Hs Hafter. unfold handleExport. rewrite Hlog. clear Hlog.
  generalize (snd (exportSlidesToVideo host slides exportCallback)) as out.
  intros out. rewrite exportStateAfter_app.
  generalize (exportStateAfter Idle
                [SetExportState Preparing; SetExportProgress 0]).
  generalize false.
  induction before as [| a before IH]; intros flag st.
  - cbn [app]. destruct settle; try discriminate; cbn [replay];
      destruct flag; rewrite ?exportStateAfter_app;
      apply replay_settled_progress; exact Hafter.
  - destruct a; cbn [app replay exportStateAfter]; try apply IH;
      destruct flag; rewrite ?exportStateAfter_app; apply IH.
Qed.

Lemma handleExport_left_rendering_witness :
  exportStateAfter Idle
    (handleExport Faulty.host [Sample.slide (1 # 10) None])
  = Rendering.
Proof.
  apply (handleExport_left_rendering Faulty.host [Sample.slide (1 # 10) None]
           (firstn 13 (fst (exportSlidesToVideo Faulty.host
                              [Sample.slide (1 # 10) None] exportCallback)))
           (CallReject recorderFailedError)
           (skipn 14 (fst (exportSlidesToVideo Faulty.host
                             [Sample.slide (1 # 10) None] exportCallback)))).
  - vm_compute. reflexivity.
  - reflexivity.
  - vm_compute. discriminate.
Defined.

(** ** A callback that throws *)

Lemma frameLoop_throws host callback totalFrames index slide image frameCount
      todo frame r e :
  callback (inject_Z (capturedFrames r + 1) / inject_Z totalFrames) = Some e ->
  frameLoop host (Some callback) totalFrames index slide image frameCount
            (S todo) frame r
  = (mkRun (log r
            ++ [DrawFrame index slide image
                          (frameProgressOf frameCount frame)]
            ++ (if trackRequestFrame host then [RequestFrame] else [])
            ++ [OnProgress (inject_Z (capturedFrames r + 1)
                            / inject_Z totalFrames)])
           (promise r) (chunks r) (recording r) (capturedFrames r + 1)%Z,
     inl e).
Proof.
  intros He. cbn [frameLoop]. unfold callProgress.
  destruct (trackRequestFrame host);
    unfold bind at 1 2 3 4 5; cbn -[Z.add Qdiv inject_Z sleepMs];
    rewrite He; cbn -[Z.add Qdiv inject_Z sleepMs];
    rewrite <- !app_assoc; reflexivity.
Qed.

(** X21. A progress callback that throws on its first call ends the export
    there: one frame has been drawn, the recorder is stopped before the
    promise is rejected, nothing is drawn afterwards, and the export fails
    with what the callback threw, whatever the recorder fires later. *)
Theorem throwing_callback_stops_export host slides callback e log0 out :
  callback (inject_Z 1 / inject_Z (totalFramesOf slides)) = Some e ->
  exportSlidesToVideo host slides (Some callback) = (log0, out) ->
  In RecorderStart log0 ->
  out = Failed e /\
  exists prep first tail,
    log0 = prep ++ RecorderStart :: first
                ++ RecorderStop :: CallReject e :: tail /\
    forallb isPrep prep = true /\ forallb isSettle tail = true /\
    List.length (drawnFrames first) = 1%nat /\
    progressValues first = [inject_Z 1 / inject_Z (totalFramesOf slides)].
Proof.
  intros He Hrun Hstart.
  destruct (export_cases host slides (Some callback))
    as [[r [e' [Hprep Hfail]]] | [r [recorder [images [Hprep Hbody]]]]].
  { rewrite Hfail in Hrun. inversion Hrun; subst.
    destruct (prepare_log _ _ _ _ Hprep) as [_ Hp].
    exfalso. exact (prep_no_start _ Hp Hstart). }
  destruct (prepare_log _ _ _ _ Hprep) as [_ Hp].
  destruct (prepare_result _ _ _ _ _ _ Hprep) as [Hne _].
  destruct (OnlyLogs_prepare host slides _ _ _ Hprep) as [l ->].
  cbn [addLog log initialRun app] in Hp.
  destruct slides as [| slide rest]; [congruence |].
  unfold exportSlidesToVideo in Hrun. rewrite Hbody in Hrun.
  unfold perform, renderTask, catch in Hrun.
  unfold bind at 1 in Hrun. rewrite recorderStart_run in Hrun.
  unfold bind at 1 in Hrun. unfold bind at 1 in Hrun.
  cbn [slideLoop] in Hrun. unfold bind at 1 in Hrun.
  pose proof (frameCountOf_pos slide) as Hpos.
  destruct (Z.to_nat (frameCountOf slide)) as [| todo] eqn:Et; [lia |].
  rewrite (frameLoop_throws host callback _ _ _ _ _ todo _ _ e) in Hrun
    by exact He.
  unfold bind at 1 in Hrun. rewrite recorderStop_run in Hrun.
  unfold reject in Hrun. unfold bind at 1 2 in Hrun.
  cbn [emit update log promise chunks recording capturedFrames addLog
       initialRun setPromise] in Hrun.
  match type of Hrun with
  | context [dispatchAll (finalEvents host) ?s] =>
      destruct (dispatchAll_returns (finalEvents host) s) as [r2 E2];
      destruct (Emits_dispatchAll _ _ _ _ E2) as [_ [tail [Hl2 Ht2]]];
      assert (Hp2 : promise r2 = promise s)
        by (refine (dispatchAll_settled _ _ _ _ _ E2); cbn; discriminate)
  end.
  rewrite E2 in Hrun. cbn [ret] in Hrun.
  cbn [promise log setPromise] in Hp2, Hl2. rewrite Hp2 in Hrun.
  inversion Hrun; subst. split; [reflexivity |].
  exists l,
    ([DrawFrame 0 slide (imageAt images 0)
                (frameProgressOf (frameCountOf slide) 0)]
     ++ (if trackRequestFrame host then [RequestFrame] else [])
     ++ [OnProgress (inject_Z 1
                     / inject_Z (totalFramesOf (slide :: rest)))]),
    tail.
  split.
  { rewrite Hl2. cbn [app]. rewrite <- !app_assoc. cbn [app].
    destruct (trackRequestFrame host); cbn [app];
      rewrite <- ?app_assoc; reflexivity. }
  split; [exact Hp |]. split; [exact Ht2 |].
  destruct (trackRequestFrame host); split; reflexivity.
Qed.

Lemma throwing_callback_stops_export_witness :
  snd (exportSlidesToVideo Sample.goodHost [Sample.slide 3 None]
         (Some (fun _ => Some (JsError "callback failed"))))
  = Failed (JsError "callback failed").
Proof.
  assert (Hstart : In RecorderStart
                      (fst (exportSlidesToVideo Sample.goodHost
                              [Sample.slide 3 None]
                              (Some (fun _ =>
                                       Some (JsError "callback failed")))))).
  { vm_compute. do 8 right. left. reflexivity. }
  exact (proj1 (throwing_callback_stops_export Sample.goodHost
                  [Sample.slide 3 None]
                  (fun _ => Some (JsError "callback failed"))
                  (JsError "callback failed") _ _ eq_refl
                  (surjective_pairing _) Hstart)).
Defined.

(** ** The blob *)

Lemma lastRequest_none l :
  forallb keepsRecorder l = true -> lastRequest l = None.
Proof.
  induction l as [| a rest IH]; [reflexivity |].
  cbn [forallb]. intros H. apply andb_prop in H. destruct H as [Ha Hrest].
  destruct a; try discriminate; cbn [lastRequest]; exact (IH Hrest).
Qed.

Lemma lastRequest_last before request after :
  forallb keepsRecorder after = true ->
  lastRequest (before ++ NewRecorder request :: after) = Some request.
Proof.
  intros Hafter. induction before as [| a rest IH].
  - cbn [app lastRequest]. now rewrite (lastRequest_none _ Hafter).
  - cbn [app]. destruct a; cbn [lastRequest]; try exact IH.
    now rewrite IH.
Qed.

Lemma pickRecorder_last host : forall candidates r r' recorder,
  pickRecorder host candidates r = (r', inr (Some recorder)) ->
  exists l mime,
    log r' = log r ++ l ++ [NewRecorder (Some mime)] /\
    newMediaRecorder host (Some mime) = inr recorder.
Proof.
  induction candidates as [| mime rest IH]; intros r r' recorder H.
  - inversion H.
  - rewrite pickRecorder_cons in H. cbv zeta in H.
    set (r1 := match isTypeSupported host with
               | Some _ => addLog [ProbeType mime] r
               | None => r
               end) in *.
    assert (H1 : exists l1, log r1 = log r ++ l1).
    { subst r1. destruct (isTypeSupported host);
        [exists [ProbeType mime]; reflexivity
        | exists []; now rewrite app_nil_r]. }
    destruct H1 as [l1 Hl1].
    destruct (notRefused host mime).
    + destruct (newMediaRecorder host (Some mime)) as [e | built] eqn:En.
      * destruct (IH _ _ _ H) as [l [m [Hl Hm]]].
        exists (l1 ++ [NewRecorder (Some mime); Warn mime] ++ l), m.
        split; [| exact Hm].
        rewrite Hl, !addLog_log, Hl1, <- !app_assoc. reflexivity.
      * inversion H; subst. exists l1, mime. split; [| exact En].
        now rewrite addLog_log, Hl1, <- app_assoc.
    + destruct (IH _ _ _ H) as [l [m [Hl Hm]]].
      exists (l1 ++ l), m. split; [| exact Hm].
      now rewrite Hl, Hl1, <- !app_assoc.
Qed.

(** The recorder the negotiation returns is the one its last constructor
    call returned. *)
Lemma negotiateRecorder_last host r r' recorder :
  negotiateRecorder host r = (r', inr recorder) ->
  exists l request,
    log r' = log r ++ l ++ [NewRecorder request] /\
    newMediaRecorder host request = inr recorder.
Proof.
  unfold negotiateRecorder, bind. intros H.
  destruct (pickRecorder host mimeCandidates r) as [r1 [e | picked]] eqn:E;
    [discriminate |].
  destruct picked as [built |].
  - inversion H; subst.
    destruct (pickRecorder_last _ _ _ _ _ E) as [l [mime [Hl Hb]]].
    exists l, (Some mime). split; [exact Hl | exact Hb].
  - destruct (Emits_pick host mimeCandidates _ _ _ E) as [_ [l [Hl _]]].
    cbn [emit] in H.
    destruct (newMediaRecorder host None) as [e | built] eqn:En;
      inversion H; subst.
    exists l, None. split; [| exact En].
    cbn [log]. now rewrite Hl, <- app_assoc.
Qed.

Lemma Emits_prefetch_keeps host slides :
  Emits keepsRecorder (prefetchImages host slides).
Proof.
  apply Emits_mapM. intros slide. unfold loadImage.
  destruct (imageDataUrl slide) as [u |]; [| emits].
  destruct (String.eqb u ""); emits.
Qed.

Lemma render_keeps a : isRender a = true -> keepsRecorder a = true.
Proof. destruct a; auto. Qed.

(** A prepared run has made its recorder with the last constructor call of
    its log. *)
Lemma prepare_last host slides r r' recorder images :
  prepare host slides r = (r', inr (recorder, images)) ->
  exists before request after,
    log r' = before ++ NewRecorder request :: after /\
    forallb keepsRecorder after = true /\
    newMediaRecorder host request = inr recorder.
Proof.
  unfold prepare. intros H. do 6 bind_inv H. bind_inv H. bind_inv H.
  inversion H; subst.
  match goal with
  | Hn : negotiateRecorder host ?s = _,
    Hi : prefetchImages host slides _ = _ |- _ =>
      destruct (negotiateRecorder_last _ _ _ _ Hn) as [l [request [Hl Hb]]];
      destruct (Emits_prefetch_keeps _ _ _ _ _ Hi) as [_ [l2 [Hl2 Hk]]];
      exists (log s ++ l), request, l2;
      split; [rewrite Hl2, Hl, <- !app_assoc; reflexivity |];
      split; [exact Hk | exact Hb]
  end.
Qed.

(** C10. The blob of a successful export carries the MIME type of the
    recorder of the run: the recorder that the last [new MediaRecorder] call
    of the run returned, which is the recorder of the first candidate the
    host does not refuse and builds a recorder for, or else the recorder
    built with no type requested.  When that recorder reports an empty type
    the blob carries ["video/webm"]; it never carries the empty string. *)
Theorem export_blob_type host slides onProgress log0 blob :
  exportSlidesToVideo host slides onProgress = (log0, Fulfilled blob) ->
  exists request recorder,
    lastRequest log0 = Some request /\
    newMediaRecorder host request = inr recorder /\
    negotiationResult host = inr recorder /\
    (mimeType recorder <> ""%string -> type blob = mimeType recorder) /\
    (mimeType recorder = ""%string -> type blob = "video/webm"%string) /\
    type blob <> ""%string.
Proof.
  intros Hrun.
  destruct (export_cases host slides onProgress)
    as [[r [e [Hprep Hfail]]] | [r [recorder [images [Hprep Hbody]]]]].
  - rewrite Hfail in Hrun. discriminate.
  - unfold exportSlidesToVideo in Hrun. rewrite Hbody in Hrun.
    destruct (perform host slides onProgress recorder images r)
      as [r' res] eqn:Hperf.
    destruct (perform_shape _ _ _ _ _ _ _ _ Hperf)
      as [-> [frames [tail [Hl [Hf Ht]]]]].
    destruct (prepare_last _ _ _ _ _ _ Hprep)
      as [before [request [after [Hlr [Hk Hb]]]]].
    exists request, recorder.
    assert (Hlog : log0 = log r').
    { destruct (promise r'); now inversion Hrun. }
    split.
    { rewrite Hlog, Hl, Hlr, <- app_assoc. cbn [app].
      apply lastRequest_last. rewrite forallb_app, Hk. cbn [forallb andb].
      rewrite forallb_app. cbn [forallb andb keepsRecorder].
      rewrite (forallb_impl _ _ _ render_keeps Hf).
      apply (forallb_impl isSettle); [| exact Ht].
      intros a Ha. apply render_keeps, settle_render, Ha. }
    split; [exact Hb |].
    split; [exact (prepare_recorder _ _ _ _ _ _ Hprep) |].
    destruct (promise r'); inversion Hrun; subst. cbn [type].
    unfold blobType.
    destruct (String.eqb_spec (mimeType recorder) "") as [He | Hn].
    + rewrite He. repeat split; congruence.
    + repeat split; congruence.
Qed.

Lemma export_blob_type_witness :
  (exists blob,
      snd (exportSlidesToVideo Sample.goodHost [Sample.slide (1 # 10) None]
             None) = Fulfilled blob /\
      type blob = "video/webm;codecs=vp8"%string) /\
  (exists blob,
      snd (exportSlidesToVideo Samples.plainHost [Sample.slide (1 # 10) None]
             None) = Fulfilled blob /\
      type blob = "video/webm"%string).
Proof.
  split.
  - assert (Hrun : exists blob,
               snd (exportSlidesToVideo Sample.goodHost
                      [Sample.slide (1 # 10) None] None) = Fulfilled blob).
    { eexists. vm_compute. reflexivity. }
    destruct Hrun as [blob Hblob]. exists blob. split; [exact Hblob |].
    assert (Hpair : exportSlidesToVideo Sample.goodHost
                      [Sample.slide (1 # 10) None] None
                    = (fst (exportSlidesToVideo Sample.goodHost
                              [Sample.slide (1 # 10) None] None),
                       Fulfilled blob)).
    { rewrite <- Hblob. apply surjective_pairing. }
    destruct (export_blob_type _ _ _ _ _ Hpair)
      as [request [recorder [Hlast [Hbuilt [_ [Htyped _]]]]]].
    assert (Hreq : request = Some "video/webm;codecs=vp8"%string).
    { vm_compute in Hlast. now inversion Hlast. }
    subst request. cbn in Hbuilt. inversion Hbuilt; subst recorder.
    apply Htyped. discriminate.
  - assert (Hrun : exists blob,
               snd (exportSlidesToVideo Samples.plainHost
                      [Sample.slide (1 # 10) None] None) = Fulfilled blob).
    { eexists. vm_compute. reflexivity. }
    destruct Hrun as [blob Hblob]. exists blob. split; [exact Hblob |].
    assert (Hpair : exportSlidesToVideo Samples.plainHost
                      [Sample.slide (1 # 10) None] None
                    = (fst (exportSlidesToVideo Samples.plainHost
                              [Sample.slide (1 # 10) None] None),
                       Fulfilled blob)).
    { rewrite <- Hblob. apply surjective_pairing. }
    destruct (export_blob_type _ _ _ _ _ Hpair)
      as [request [recorder [Hlast [Hbuilt [_ [_ [Hplain _]]]]]]].
    assert (Hreq : request = None).
    { vm_compute in Hlast. now inversion Hlast. }
    subst request. cbn in Hbuilt. inversion Hbuilt; subst recorder.
    apply Hplain. reflexivity.
Defined.
